(** * json-data-forge: the local engine and the delegated-code executor

    A shallow embedding of [src/services/localService.ts]
    ([determineStrategy], [flattenObject], the generators, [generateLocalData]
    and the dot-path reconstruction inside it), of [isStructuralChange] from
    [src/App.tsx] and of [executeGeneratedCode] from
    [src/services/geminiService.ts], with the properties the specification
    states about them. *)

From Stdlib Require Import ZArith Ascii String List Bool Lia DecimalString.
From stdpp Require Import base option list strings gmap.

Local Open Scope string_scope.
Local Open Scope Z_scope.
Local Open Scope list_scope.

(** ** JavaScript numbers

    A JavaScript number is an IEEE-754 double.  The finite ones are kept as
    the rational they denote, in lowest terms: [Int z] for an integral double
    and [Dyad m p] for [m / 2^p] with [m] odd.  Arithmetic computes the exact
    result and rounds it to the nearest double, ties to even, as the hardware
    does.  The sign of zero is not kept ([-0] and [+0] are both [Int 0]); the
    code below never observes it. *)
Module JSNumber.

Inductive number : Set :=
| Int (z : Z)
| Dyad (m : Z) (p : positive)
| Inf (negative : bool)
| NaN.

Definition number_eqb (a b : number) : bool :=
  match a, b with
  | Int x, Int y => x =? y
  | Dyad m p, Dyad n q => (m =? n) && (p =? q)%positive
  | Inf s, Inf t => Bool.eqb s t
  | _, _ => false
  end.

(** [Number.isInteger], [isNaN] and the truth value of a number. *)
Definition isInteger (n : number) : bool :=
  match n with Int _ => true | _ => false end.

Definition isNaN (n : number) : bool :=
  match n with NaN => true | _ => false end.

Definition truthy (n : number) : bool :=
  match n with Int 0 => false | NaN => false | _ => true end.

(** The double nearest to [n / d] for [n, d > 0], as a mantissa of at most 53
    bits (54 after a carry) and a binary exponent no smaller than -1074. *)
Definition nearest (n d : Z) : Z * Z :=
  let l := Z.log2 n - Z.log2 d in
  let above := if 0 <=? l then d * 2 ^ l <=? n else d <=? n * 2 ^ (- l) in
  let fl := if above then l else l - 1 in
  let e := Z.max (fl - 52) (-1074) in
  let num := if 0 <=? e then n else n * 2 ^ (- e) in
  let den := if 0 <=? e then d * 2 ^ e else d in
  let q := num / den in
  let r := num mod den in
  let q' := if 2 * r <? den then q
            else if den <? 2 * r then q + 1
            else if Z.even q then q else q + 1 in
  (q', e).

Definition trailing_zeros (m : Z) : Z := Z.log2 (Z.land m (- m)).

Definition signed (negative : bool) (m : Z) : Z := if negative then - m else m.

Definition of_mantissa (negative : bool) (m e : Z) : number :=
  if m =? 0 then Int 0
  else if 0 <=? e then
    if 2 ^ 1024 <=? m * 2 ^ e then Inf negative else Int (signed negative (m * 2 ^ e))
  else
    let s := Z.min (trailing_zeros m) (- e) in
    let m' := m / 2 ^ s in
    if e + s =? 0 then Int (signed negative m')
    else Dyad (signed negative m') (Z.to_pos (- (e + s))).

(** The double nearest to [n / d], for [d > 0]. *)
Definition of_ratio (n d : Z) : number :=
  if n =? 0 then Int 0
  else let '(m, e) := nearest (Z.abs n) d in of_mantissa (n <? 0) m e.

(** Integers up to 2^53 in magnitude are doubles; larger ones are rounded. *)
Definition round_int (z : Z) : number :=
  if Z.abs z <=? 2 ^ 53 then Int z else of_ratio z 1.

Definition to_ratio (a : number) : option (Z * Z) :=
  match a with
  | Int z => Some (z, 1)
  | Dyad m p => Some (m, 2 ^ Z.pos p)
  | _ => None
  end.

(** [a + b] on numbers. *)
Definition add (a b : number) : number :=
  match a, b with
  | NaN, _ | _, NaN => NaN
  | Inf s, Inf t => if Bool.eqb s t then Inf s else NaN
  | Inf s, _ | _, Inf s => Inf s
  | Int x, Int y => round_int (x + y)
  | _, _ =>
      match to_ratio a, to_ratio b with
      | Some (n1, d1), Some (n2, d2) => of_ratio (n1 * d2 + n2 * d1) (d1 * d2)
      | _, _ => NaN
      end
  end.

Definition is_negative (a : number) : bool :=
  match a with
  | Int z | Dyad z _ => z <? 0
  | Inf s => s
  | NaN => false
  end.

(** [a * b] on numbers. *)
Definition mul (a b : number) : number :=
  match a, b with
  | NaN, _ | _, NaN => NaN
  | Inf _, Int 0 | Int 0, Inf _ => NaN
  | Inf s, _ | _, Inf s => Inf (xorb (is_negative a) (is_negative b))
  | Int x, Int y => round_int (x * y)
  | _, _ =>
      match to_ratio a, to_ratio b with
      | Some (n1, d1), Some (n2, d2) => of_ratio (n1 * n2) (d1 * d2)
      | _, _ => NaN
      end
  end.

End JSNumber.
Export JSNumber.

(** ** JavaScript strings

    A string is the sequence of its code units, here those below 256
    ([String.string]).  The operations are the ones the engine calls. *)
Module JSString.

Definition code (c : ascii) : Z := Z.of_N (N_of_ascii c).

(** [toLowerCase], on the letters A to Z. *)
Definition lower_char (c : ascii) : ascii :=
  if (65 <=? code c) && (code c <=? 90) then ascii_of_N (N_of_ascii c + 32) else c.

Fixpoint toLowerCase (s : string) : string :=
  match s with
  | EmptyString => EmptyString
  | String c s' => String (lower_char c) (toLowerCase s')
  end.

Fixpoint startsWith (s p : string) : bool :=
  match p, s with
  | EmptyString, _ => true
  | String c p', String d s' => Ascii.eqb c d && startsWith s' p'
  | String _ _, EmptyString => false
  end.

(** [s.includes(p)]. *)
Fixpoint includes (s p : string) : bool :=
  startsWith s p ||
  match s with
  | EmptyString => false
  | String _ s' => includes s' p
  end.

(** [s.endsWith(p)]. *)
Fixpoint endsWith (s p : string) : bool :=
  String.eqb s p ||
  match s with
  | EmptyString => false
  | String _ s' => endsWith s' p
  end.

(** [s.split('.')]: never the empty list. *)
Fixpoint split_dot (s : string) : list string :=
  match s with
  | EmptyString => [EmptyString]
  | String c s' =>
      if Ascii.eqb c "." then EmptyString :: split_dot s'
      else match split_dot s' with
           | p :: ps => String c p :: ps
           | [] => [String c EmptyString]
           end
  end.

Definition has_dot (s : string) : bool := includes s ".".

(** *** [Number(s)] on a string: the StringNumericLiteral grammar *)

Definition is_space (c : ascii) : bool :=
  let n := code c in
  ((9 <=? n) && (n <=? 13)) || (n =? 32) || (n =? 160).

Fixpoint trim_start (s : string) : string :=
  match s with
  | String c s' => if is_space c then trim_start s' else s
  | EmptyString => EmptyString
  end.

Fixpoint trim_end (s : string) : string :=
  match s with
  | EmptyString => EmptyString
  | String c s' =>
      match trim_end s' with
      | EmptyString => if is_space c then EmptyString else String c EmptyString
      | t => String c t
      end
  end.

Definition trim (s : string) : string := trim_end (trim_start s).

Definition digit_value (base : Z) (c : ascii) : option Z :=
  let n := code c in
  let v := if (48 <=? n) && (n <=? 57) then n - 48
           else if (97 <=? n) && (n <=? 102) then n - 87
           else if (65 <=? n) && (n <=? 70) then n - 55
           else base in
  if v <? base then Some v else None.

(** The value of a string made of digits only, from the accumulator [acc]. *)
Fixpoint digits_value (base acc : Z) (s : string) : option Z :=
  match s with
  | EmptyString => Some acc
  | String c s' =>
      match digit_value base c with
      | Some d => digits_value base (acc * base + d) s'
      | None => None
      end
  end.

(** The longest prefix of decimal digits, and what follows it. *)
Fixpoint span_digits (s : string) : string * string :=
  match s with
  | String c s' =>
      match digit_value 10 c with
      | Some _ => let '(ds, rest) := span_digits s' in (String c ds, rest)
      | None => (EmptyString, s)
      end
  | EmptyString => (EmptyString, EmptyString)
  end.

Definition strip_sign (s : string) : bool * string :=
  match s with
  | String c s' =>
      if Ascii.eqb c "-" then (true, s')
      else if Ascii.eqb c "+" then (false, s')
      else (false, s)
  | EmptyString => (false, s)
  end.

(** The exponent part: nothing, or [e]/[E], an optional sign and digits. *)
Definition exponent (s : string) : option Z :=
  match s with
  | EmptyString => Some 0
  | String c s' =>
      if Ascii.eqb c "e" || Ascii.eqb c "E" then
        let '(neg, ds) := strip_sign s' in
        match ds with
        | EmptyString => None
        | _ => option_map (signed neg) (digits_value 10 0 ds)
        end
      else None
  end.

(** StrUnsignedDecimalLiteral: [Infinity], or digits with an optional
    fraction and exponent, at least one digit before or after the point. *)
Definition unsigned_decimal (negative : bool) (s : string) : number :=
  if String.eqb s "Infinity" then Inf negative
  else
    let '(ip, r1) := span_digits s in
    let '(fp, r2) := match r1 with
                     | String "." r => span_digits r
                     | _ => (EmptyString, r1)
                     end in
    match (ip ++ fp)%string with
    | EmptyString => NaN
    | ds =>
        match digits_value 10 0 ds, exponent r2 with
        | Some m, Some e =>
            let e10 := e - Z.of_nat (String.length fp) in
            if 0 <=? e10 then round_int (signed negative (m * 10 ^ e10))
            else of_ratio (signed negative m) (10 ^ (- e10))
        | _, _ => NaN
        end
    end.

Definition radix_literal (base : Z) (ds : string) : number :=
  match ds with
  | EmptyString => NaN
  | _ => match digits_value base 0 ds with
         | Some m => round_int m
         | None => NaN
         end
  end.

(** The prefix of a hexadecimal, octal or binary literal: its base, and the
    digits that follow. *)
Definition radix_prefix (t : string) : option (Z * string) :=
  match t with
  | String c0 (String c1 ds) =>
      if Ascii.eqb c0 "0" then
        if Ascii.eqb c1 "x" || Ascii.eqb c1 "X" then Some (16, ds)
        else if Ascii.eqb c1 "o" || Ascii.eqb c1 "O" then Some (8, ds)
        else if Ascii.eqb c1 "b" || Ascii.eqb c1 "B" then Some (2, ds)
        else None
      else None
  | _ => None
  end.

(** [Number(s)] for a string [s]. *)
Definition StringToNumber (s : string) : number :=
  let t := trim s in
  match t with
  | EmptyString => Int 0
  | _ =>
      match radix_prefix t with
      | Some (base, ds) => radix_literal base ds
      | None => let '(neg, u) := strip_sign t in unsigned_decimal neg u
      end
  end.

(** [!isNaN(Number(s))]: the test the reconstruction uses to tell an array
    index from an object key. *)
Definition is_numeric (s : string) : bool := negb (isNaN (StringToNumber s)).

(** A canonical array index: [0] or digits without a leading zero, below
    2^32 - 1.  These are the keys an object enumerates first, in ascending
    order, and the ones that address the elements of an array. *)
Definition array_index (s : string) : option N :=
  match s with
  | EmptyString => None
  | String "0" (String _ _) => None
  | _ => match digits_value 10 0 s with
         | Some n => if n <? 2 ^ 32 - 1 then Some (Z.to_N n) else None
         | None => None
         end
  end.

Definition index_key (n : nat) : string := NilZero.string_of_uint (Nat.to_uint n).

End JSString.
Export JSString.

(** ** JavaScript values

    The JSON fragment: scalars, arrays and plain objects.  An object is the
    list of its own properties in enumeration order; an array is the list of
    its elements, a hole being read as [undefined]. *)
Unset Elimination Schemes.
Inductive jsval : Type :=
| JUndefined
| JNull
| JBool (b : bool)
| JNum (n : number)
| JStr (s : string)
| JArr (elems : list jsval)
| JObj (props : list (string * jsval)).
Set Elimination Schemes.

Section JsvalInduction.
Variable P : jsval -> Prop.
Hypothesis Hundefined : P JUndefined.
Hypothesis Hnull : P JNull.
Hypothesis Hbool : forall b, P (JBool b).
Hypothesis Hnum : forall n, P (JNum n).
Hypothesis Hstr : forall s, P (JStr s).
Hypothesis Harr : forall elems, Forall P elems -> P (JArr elems).
Hypothesis Hobj : forall props, Forall (fun kv => P (snd kv)) props -> P (JObj props).

Fixpoint jsval_ind (v : jsval) : P v :=
  match v with
  | JUndefined => Hundefined
  | JNull => Hnull
  | JBool b => Hbool b
  | JNum n => Hnum n
  | JStr s => Hstr s
  | JArr elems =>
      Harr elems
        ((fix all (l : list jsval) : Forall P l :=
            match l with
            | [] => List.Forall_nil P
            | x :: l' => List.Forall_cons P x l' (jsval_ind x) (all l')
            end) elems)
  | JObj props =>
      Hobj props
        ((fix all (l : list (string * jsval)) : Forall (fun kv => P (snd kv)) l :=
            match l with
            | [] => List.Forall_nil _
            | kv :: l' => List.Forall_cons _ kv l' (jsval_ind (snd kv)) (all l')
            end) props)
  end.
End JsvalInduction.

(** [typeof v === 'object' && v !== null] *)
Definition is_object (v : jsval) : bool :=
  match v with JArr _ | JObj _ => true | _ => false end.

Definition isArray (v : jsval) : bool :=
  match v with JArr _ => true | _ => false end.

Definition is_undefined (v : jsval) : bool :=
  match v with JUndefined => true | _ => false end.

(** ** Outcomes

    A call returns, throws, or leaves the fragment modelled here
    ([Unmodelled]): it would read a member inherited from a prototype, give
    an array a named property, or hit one of the other cases marked below.
    Nothing is proved about such a call. *)
Inductive exn : Type :=
| TypeError
| RangeError
| Error (message : string).

Inductive res (A : Type) : Type :=
| Ok (a : A)
| Throws (e : exn)
| Unmodelled.
Arguments Ok {A} a.
Arguments Throws {A} e.
Arguments Unmodelled {A}.

Definition bind {A B} (m : res A) (k : A -> res B) : res B :=
  match m with
  | Ok a => k a
  | Throws e => Throws e
  | Unmodelled => Unmodelled
  end.

Notation "'let*' x ':=' m 'in' k" := (bind m (fun x => k))
  (at level 10, x name, m at level 100, k at level 200).

(** ** Own properties of objects and elements of arrays *)
Module Obj.

Definition t : Type := list (string * jsval).

Fixpoint own (o : t) (k : string) : option jsval :=
  match o with
  | [] => None
  | (k', v) :: o' => if String.eqb k' k then Some v else own o' k
  end.

Definition keys (o : t) : list string := map fst o.

(** Assignment to a property the object has: the value changes in place. *)
Fixpoint replace (o : t) (k : string) (v : jsval) : t :=
  match o with
  | [] => []
  | (k', v') :: o' => if String.eqb k' k then (k, v) :: o' else (k', v') :: replace o' k v
  end.

(** A new property named by the array index [n] goes after the smaller
    indices and before everything else. *)
Fixpoint insert_index (o : t) (n : N) (k : string) (v : jsval) : t :=
  match o with
  | [] => [(k, v)]
  | (k', v') :: o' =>
      match array_index k' with
      | Some n' => if (n' <? n)%N then (k', v') :: insert_index o' n k v
                   else (k, v) :: o
      | None => (k, v) :: o
      end
  end.

(** [o[k] = v] on a plain object, as far as its own properties go: an
    assignment to [__proto__] reaches the prototype and adds no property. *)
Definition set (o : t) (k : string) (v : jsval) : t :=
  if String.eqb k "__proto__" then o
  else
    match own o k with
    | Some _ => replace o k v
    | None =>
        match array_index k with
        | Some n => insert_index o n k v
        | None => o ++ [(k, v)]
        end
    end.

(** [Object.assign(o, src)] *)
Definition assign (o src : t) : t :=
  fold_left (fun acc kv => set acc (fst kv) (snd kv)) src o.

(** The members every plain object inherits from [Object.prototype]. *)
Definition prototype_names : list string :=
  [ "constructor"; "__proto__"; "hasOwnProperty"; "isPrototypeOf";
    "propertyIsEnumerable"; "toLocaleString"; "toString"; "valueOf";
    "__defineGetter__"; "__defineSetter__"; "__lookupGetter__";
    "__lookupSetter__" ].

Definition inherited (k : string) : bool :=
  existsb (String.eqb k) prototype_names.

End Obj.

Module Arr.

(** [a[n]], [undefined] past the end. *)
Definition get (a : list jsval) (n : nat) : jsval := nth n a JUndefined.

(** [a[n] = v]: in place within the array, and extending it past the end,
    the skipped positions reading as [undefined]. *)
Definition set (a : list jsval) (n : nat) (v : jsval) : list jsval :=
  if (n <? length a)%nat then <[n := v]> a
  else a ++ repeat JUndefined (n - length a) ++ [v].

End Arr.

(** [current[part]] as the reconstruction loop reads it. *)
Definition get_prop (current : jsval) (part : string) : res jsval :=
  match current with
  | JObj o =>
      match Obj.own o part with
      | Some v => Ok v
      | None => if Obj.inherited part then Unmodelled else Ok JUndefined
      end
  | JArr a =>
      match array_index part with
      | Some n => Ok (Arr.get a (N.to_nat n))
      | None => Unmodelled
      end
  | JNull | JUndefined => Throws TypeError
  | JBool _ | JNum _ | JStr _ => Unmodelled
  end.

(** [current[part] = v].  The module is strict-mode code, so the assignment
    throws on a primitive receiver. *)
Definition set_prop (current : jsval) (part : string) (v : jsval) : res jsval :=
  match current with
  | JObj o => if String.eqb part "__proto__" then Unmodelled else Ok (JObj (Obj.set o part v))
  | JArr a =>
      match array_index part with
      | Some n => Ok (JArr (Arr.set a (N.to_nat n) v))
      | None => Unmodelled
      end
  | _ => Throws TypeError
  end.

(** [current[Number(lastKey)] = value] on an array. *)
Definition set_element (a : list jsval) (lastKey : string) (v : jsval) : res jsval :=
  match StringToNumber lastKey with
  | Int z => if (0 <=? z) && (z <? 2 ^ 32 - 1) then Ok (JArr (Arr.set a (Z.to_nat z) v))
             else Unmodelled
  | _ => Unmodelled
  end.

(** ** The path codec: [flattenObject] *)

(** [prefix ? `${prefix}.${key}` : key] *)
Definition newKey (prefix key : string) : string :=
  match prefix with
  | EmptyString => key
  | _ => (prefix ++ "." ++ key)%string
  end.

(** One turn of the [for (const key in obj)] loop of [flattenObject], the
    recursive calls going through [flatten]. *)
Definition flatten_entry (flatten : jsval -> string -> Obj.t) (prefix : string)
    (result : Obj.t) (key : string) (value : jsval) : Obj.t :=
  let newKey := newKey prefix key in
  match value with
  | JObj _ => Obj.assign result (flatten value newKey)
  | JArr [] => result
  | JArr (first :: _) =>
      if is_object first
      then Obj.assign result (flatten first (newKey ++ ".0")%string)
      else Obj.set result (newKey ++ ".0")%string first
  | _ => Obj.set result newKey value
  end.

(** [flattenObject(obj, prefix)].  The loop enumerates the own properties of
    [obj]: the properties of an object, the indices of an array, the
    positions of a string; other values have none. *)
Fixpoint flattenObject (obj : jsval) (prefix : string) {struct obj} : Obj.t :=
  match obj with
  | JObj props =>
      fold_left (fun result kv =>
                   flatten_entry flattenObject prefix result (fst kv) (snd kv))
                props []
  | JArr elems =>
      snd (fold_left (fun (st : nat * Obj.t) value =>
                        (S (fst st),
                         flatten_entry flattenObject prefix (snd st)
                                       (index_key (fst st)) value))
                     elems (0%nat, []))
  | JStr s =>
      snd (fold_left (fun (st : nat * Obj.t) c =>
                        (S (fst st),
                         Obj.set (snd st) (newKey prefix (index_key (fst st)))
                                 (JStr (String c EmptyString))))
                     (list_ascii_of_string s) (0%nat, []))
  | _ => []
  end.

(** ** The path codec: the reconstruction inside [generateLocalData]

    [assign_path current parts value] is the body of the
    [Object.keys(flatRow).forEach] callback after [key.split('.')]: the loop
    over [parts] that walks from [current], creating the containers that are
    missing, and the final assignment.  The walk mutates the row in place;
    here each step returns the updated container. *)
Fixpoint assign_path (current : jsval) (parts : list string) (value : jsval)
    {struct parts} : res jsval :=
  match parts with
  | [] => set_prop current "undefined" value
  | [lastKey] =>
      match current with
      | JArr a => if is_numeric lastKey then set_element a lastKey value
                  else set_prop current lastKey value
      | _ => set_prop current lastKey value
      end
  | part :: (nextPart :: _) as rest =>
      let isNextArray := is_numeric nextPart in
      let* found := get_prop current part in
      let child := if is_undefined found
                   then (if isNextArray then JArr [] else JObj [])
                   else found in
      let* child' := assign_path child rest value in
      set_prop current part child'
  end.

(** The whole reconstruction of one row from its flat form. *)
Fixpoint unflatten_into (row : jsval) (flatRow : Obj.t) : res jsval :=
  match flatRow with
  | [] => Ok row
  | (key, value) :: flatRow' =>
      let* row' := assign_path row (split_dot key) value in
      unflatten_into row' flatRow'
  end.

Definition unflatten (flatRow : Obj.t) : res jsval := unflatten_into (JObj []) flatRow.

(** ** The data model

    Modelled from the spec: [types.ts], which declares [FieldType],
    [GenerationStrategy], the options, [FieldConfig] and [AnalysisResult], is
    not among the sources; the declarations below follow section 3 of the
    specification and the way the sources use the fields.  Numeric options
    are numbers, [values] is a sequence of strings, [countPerGroup] is an
    integer and [staticValue] is any value. *)
Inductive FieldType : Set := STRING | NUMBER | BOOLEAN | ARRAY | NULL.

Inductive GenerationStrategy : Set :=
| INCREMENT | RANDOM_INT | RANDOM_FLOAT | ENUM | UUID | NAME | EMAIL | DATE
| ADDRESS | PHONE | SENTENCE | STATIC | REGEX | AI_CONTEXT.

Module GroupingConfig.
Inductive Strategy : Set := fixed | even.
Record t : Type := {
  strategy : Strategy;
  countPerGroup : option Z;
  resetFields : list string
}.
End GroupingConfig.

Module FieldOptions.
Record t : Type := {
  min : option number;
  max : option number;
  step : option number;
  start : option number;
  precision : option number;
  values : option (list string);
  format : option string;
  pattern : option string;
  staticValue : option jsval;
  groupingConfig : option GroupingConfig.t
}.

(** The object [{}]. *)
Definition empty : t :=
  {| min := None; max := None; step := None; start := None; precision := None;
     values := None; format := None; pattern := None; staticValue := None;
     groupingConfig := None |}.
End FieldOptions.

Record FieldConfig : Type := {
  key : string;
  type : FieldType;
  strategy : GenerationStrategy;
  options : option FieldOptions.t;
  description : option string;
  sampleValue : option jsval
}.

Record AnalysisResult : Type := {
  fields : list FieldConfig;
  originalSampleCount : nat
}.

Definition FieldType_eqb (a b : FieldType) : bool :=
  match a, b with
  | STRING, STRING | NUMBER, NUMBER | BOOLEAN, BOOLEAN | ARRAY, ARRAY | NULL, NULL => true
  | _, _ => false
  end.

Definition GenerationStrategy_eqb (a b : GenerationStrategy) : bool :=
  match a, b with
  | INCREMENT, INCREMENT | RANDOM_INT, RANDOM_INT | RANDOM_FLOAT, RANDOM_FLOAT
  | ENUM, ENUM | UUID, UUID | NAME, NAME | EMAIL, EMAIL | DATE, DATE
  | ADDRESS, ADDRESS | PHONE, PHONE | SENTENCE, SENTENCE | STATIC, STATIC
  | REGEX, REGEX | AI_CONTEXT, AI_CONTEXT => true
  | _, _ => false
  end.

(** ** Local inference: [determineStrategy] and [analyzeJsonStructureLocal] *)

(** [n] characters of [s] that satisfy [p], and what follows them. *)
Fixpoint take_while_n (p : ascii -> bool) (n : nat) (s : string) : option string :=
  match n, s with
  | O, _ => Some s
  | S n', String c s' => if p c then take_while_n p n' s' else None
  | S _, EmptyString => None
  end.

Definition is_digit (c : ascii) : bool :=
  match digit_value 10 c with Some _ => true | None => false end.

Definition is_hex (c : ascii) : bool :=
  match digit_value 16 c with Some _ => true | None => false end.

Definition dash (s : option string) : option string :=
  match s with
  | Some (String "-" s') => Some s'
  | _ => None
  end.

(** [/^[0-9a-f]{8}-[0-9a-f]{4}-[0-9a-f]{4}-[0-9a-f]{4}-[0-9a-f]{12}$/i] *)
Definition uuid_test (s : string) : bool :=
  let g1 := dash (take_while_n is_hex 8 s) in
  let g2 := dash (g1 ≫= take_while_n is_hex 4) in
  let g3 := dash (g2 ≫= take_while_n is_hex 4) in
  let g4 := dash (g3 ≫= take_while_n is_hex 4) in
  match g4 ≫= take_while_n is_hex 12 with
  | Some EmptyString => true
  | _ => false
  end.

(** [/^\d{4}-\d{2}-\d{2}/] *)
Definition iso_date_test (s : string) : bool :=
  let y := dash (take_while_n is_digit 4 s) in
  let m := dash (y ≫= take_while_n is_digit 2) in
  match m ≫= take_while_n is_digit 2 with
  | Some _ => true
  | None => false
  end.

(** What [determineStrategy] returns. *)
Module Inferred.
Record t : Type := {
  strategy : GenerationStrategy;
  options : option FieldOptions.t;
  description : option string
}.
End Inferred.

Section Host.
(** What the engine leaves to the host: whether [Date.parse] of a text is
    truthy, and the text [String(v)] of a value that is neither a string,
    a boolean, [null] nor [undefined]. *)
Variable Date_parse : string -> bool.
Variable host_string : jsval -> string.

(** [String(v)], also what a template literal does to [v]. *)
Definition ToString (v : jsval) : string :=
  match v with
  | JStr s => s
  | JUndefined => "undefined"
  | JNull => "null"
  | JBool true => "true"
  | JBool false => "false"
  | _ => host_string v
  end.

(** [value * 2 || 100] *)
Definition double_or_100 (value : number) : number :=
  let d := mul value (Int 2) in
  if truthy d then d else Int 100.

Definition determineStrategy (key : string) (value : jsval) : Inferred.t :=
  let k := toLowerCase key in
  let plain s := {| Inferred.strategy := s; Inferred.options := None;
                    Inferred.description := None |} in
  let with_options s o := {| Inferred.strategy := s; Inferred.options := Some o;
                             Inferred.description := None |} in
  match value with
  | JNull =>
      with_options STATIC
        {| FieldOptions.min := None; FieldOptions.max := None;
           FieldOptions.step := None; FieldOptions.start := None;
           FieldOptions.precision := None; FieldOptions.values := None;
           FieldOptions.format := None; FieldOptions.pattern := None;
           FieldOptions.staticValue := Some (JStr "null");
           FieldOptions.groupingConfig := None |}
  | JNum n =>
      if (String.eqb k "id" || endsWith k "_id" || endsWith k "Id") && isInteger n then
        with_options INCREMENT
          {| FieldOptions.min := None; FieldOptions.max := None;
             FieldOptions.step := Some (Int 1); FieldOptions.start := Some n;
             FieldOptions.precision := None; FieldOptions.values := None;
             FieldOptions.format := None; FieldOptions.pattern := None;
             FieldOptions.staticValue := None;
             FieldOptions.groupingConfig := None |}
      else if isInteger n then
        with_options RANDOM_INT
          {| FieldOptions.min := Some (Int 0);
             FieldOptions.max := Some (double_or_100 n);
             FieldOptions.step := None; FieldOptions.start := None;
             FieldOptions.precision := None; FieldOptions.values := None;
             FieldOptions.format := None; FieldOptions.pattern := None;
             FieldOptions.staticValue := None;
             FieldOptions.groupingConfig := None |}
      else
        with_options RANDOM_FLOAT
          {| FieldOptions.min := Some (Int 0);
             FieldOptions.max := Some (double_or_100 n);
             FieldOptions.step := None; FieldOptions.start := None;
             FieldOptions.precision := Some (Int 2); FieldOptions.values := None;
             FieldOptions.format := None; FieldOptions.pattern := None;
             FieldOptions.staticValue := None;
             FieldOptions.groupingConfig := None |}
  | JBool _ =>
      with_options ENUM
        {| FieldOptions.min := None; FieldOptions.max := None;
           FieldOptions.step := None; FieldOptions.start := None;
           FieldOptions.precision := None;
           FieldOptions.values := Some ["true"; "false"];
           FieldOptions.format := None; FieldOptions.pattern := None;
           FieldOptions.staticValue := None;
           FieldOptions.groupingConfig := None |}
  | JStr s =>
      if uuid_test s then plain UUID
      else if iso_date_test s
              || (Date_parse s
                  && (includes k "date" || includes k "time" || includes k "_at")) then
        with_options DATE
          {| FieldOptions.min := None; FieldOptions.max := None;
             FieldOptions.step := None; FieldOptions.start := None;
             FieldOptions.precision := None; FieldOptions.values := None;
             FieldOptions.format := Some "YYYY-MM-DD"; FieldOptions.pattern := None;
             FieldOptions.staticValue := None;
             FieldOptions.groupingConfig := None |}
      else if includes k "email" then plain EMAIL
      else if includes k "name" || includes k "user" || includes k "author" then plain NAME
      else if includes k "phone" || includes k "tel" then plain PHONE
      else if includes k "address" || includes k "city" || includes k "street"
              || includes k "country" then plain ADDRESS
      else {| Inferred.strategy := AI_CONTEXT; Inferred.options := None;
              Inferred.description := Some "Local: Random String" |}
  | _ =>
      with_options STATIC
        {| FieldOptions.min := None; FieldOptions.max := None;
           FieldOptions.step := None; FieldOptions.start := None;
           FieldOptions.precision := None; FieldOptions.values := None;
           FieldOptions.format := None; FieldOptions.pattern := None;
           FieldOptions.staticValue := Some (JStr (ToString value));
           FieldOptions.groupingConfig := None |}
  end.

(** The body of the [Object.entries(flattened).map] callback. *)
Definition infer_field (key : string) (value : jsval) : FieldConfig :=
  let type := match value with
              | JNum _ => NUMBER
              | JBool _ => BOOLEAN
              | JArr _ => ARRAY
              | JNull => NULL
              | _ => STRING
              end in
  let d := determineStrategy key value in
  {| key := key;
     type := type;
     strategy := Inferred.strategy d;
     options := Inferred.options d;
     description := Some (match Inferred.description d with
                          | Some "" | None => "Detected locally"
                          | Some text => text
                          end);
     sampleValue := Some value |}.

(** [analyzeJsonStructureLocal], from the value [JSON.parse] returned. *)
Definition analyzeJsonStructureLocal (parsed : jsval) : AnalysisResult :=
  let sample := match parsed with
                | JArr [] => JObj []
                | JArr (first :: _) => first
                | _ => parsed
                end in
  let flattened := flattenObject sample "" in
  {| fields := map (fun kv => infer_field (fst kv) (snd kv)) flattened;
     originalSampleCount := match parsed with
                            | JArr elems => length elems
                            | _ => 1
                            end |}.
End Host.

(** ** Conversions of values *)

(** [Number(v)].  An array converts through its text, which reads as a
    number only when it has at most one element; an object is taken without
    own [toString] and [valueOf]. *)
Fixpoint ToNumber (v : jsval) : number :=
  match v with
  | JUndefined => NaN
  | JNull => Int 0
  | JBool b => Int (if b then 1 else 0)
  | JNum n => n
  | JStr s => StringToNumber s
  | JArr [] => Int 0
  | JArr [x] =>
      match x with
      | JUndefined | JNull => Int 0
      | JBool _ | JObj _ => NaN
      | _ => ToNumber x
      end
  | JArr _ => NaN
  | JObj _ => NaN
  end.

(** [Boolean(v)] *)
Definition ToBoolean (v : jsval) : bool :=
  match v with
  | JUndefined | JNull => false
  | JBool b => b
  | JNum n => truthy n
  | JStr EmptyString => false
  | _ => true
  end.

(** ** The generation engine *)

(** [n || 1] and [n ?? 1] on an optional number. *)
Definition or_1 (n : option number) : number :=
  match n with
  | Some x => if truthy x then x else Int 1
  | None => Int 1
  end.

Definition nullish_1 (n : option number) : number :=
  match n with
  | Some x => x
  | None => Int 1
  end.

(** [field.options || {}] *)
Definition options_or_empty (field : FieldConfig) : FieldOptions.t :=
  match options field with
  | Some o => o
  | None => FieldOptions.empty
  end.

(** [f.options?.start ?? 1] *)
Definition configured_start (f : FieldConfig) : number :=
  nullish_1 (options f ≫= FieldOptions.start).

(** One call of a generator: the row, the position of the field in the
    list, and the strategy whose generator ran. *)
Record Call : Type := {
  call_row : nat;
  call_field : nat;
  call_strategy : GenerationStrategy
}.

(** What a run carries from field to field and from row to row: the [state]
    object of [generateLocalData], and the generator calls made so far. *)
Record Run : Type := {
  state : gmap string number;
  calls : list Call
}.

(** [fields.find(f => f.key === k)] *)
Definition find_field (fields : list FieldConfig) (k : string) : option FieldConfig :=
  List.find (fun f => String.eqb (key f) k) fields.

(** [values[idx]] for an index computed in the integers. *)
Definition element_at (values : list string) (idx : Z) : jsval :=
  if idx <? 0 then JUndefined
  else match values !! Z.to_nat idx with
       | Some s => JStr s
       | None => JUndefined
       end.

(** The size of a group, as the grouping branch computes it. *)
Definition group_size (count : nat) (len : Z) (g : GroupingConfig.t) : Z :=
  match GroupingConfig.strategy g with
  | GroupingConfig.even => Z.max 1 (Z.of_nat count / len)
  | GroupingConfig.fixed =>
      match GroupingConfig.countPerGroup g with
      | Some c => if c =? 0 then 1 else c
      | None => 1
      end
  end.

(** [values.length || 1] *)
Definition length_or_1 (values : list string) : Z :=
  match values with
  | [] => 1
  | _ => Z.of_nat (length values)
  end.

(** The [resetFields.forEach] of a group boundary. *)
Definition reset_counters (fields : list FieldConfig) (resetFields : list string)
    (st : gmap string number) : gmap string number :=
  fold_left (fun st resetKey =>
               match find_field fields resetKey with
               | Some targetField =>
                   match strategy targetField with
                   | INCREMENT => <[resetKey := configured_start targetField]> st
                   | _ => st
                   end
               | None => st
               end)
            resetFields st.

(** The type enforcement applied to the value of a [static] field. *)
Definition enforce_type (field : FieldConfig) (val : jsval) : jsval :=
  match strategy field, val with
  | STATIC, JUndefined | STATIC, JNull => val
  | STATIC, _ =>
      match type field with
      | NUMBER => let num := ToNumber val in if isNaN num then val else JNum num
      | BOOLEAN =>
          match val with
          | JStr "true" => JBool true
          | JStr "false" => JBool false
          | _ => JBool (ToBoolean val)
          end
      | _ => val
      end
  | _, _ => val
  end.

Section Engine.
(** The generators that consult [Math.random], [crypto] or the clock take
    their result from the environment: [random_index i j] is a natural
    number that [Math.floor(Math.random() * n)] reduces below [n], and
    [ambient i j] is the whole result of a generator that only draws,
    for the call at row [i] and field position [j]. *)
Variable random_index : nat -> nat -> nat.
Variable ambient : nat -> nat -> jsval.

(** [generators[strategy](state, key, opts)] for a call that returns.  The
    generator of [random_float] ends in [toFixed], which throws for a
    precision it refuses: [generator_throws] below says when, and
    [rows_from] ends the run there. *)
Definition generator (strategy : GenerationStrategy) (i j : nat)
    (st : gmap string number) (key : string) (opts : FieldOptions.t)
    : jsval * gmap string number :=
  match strategy with
  | INCREMENT =>
      let val := match st !! key with
                 | None => or_1 (FieldOptions.start opts)
                 | Some current => current
                 end in
      (JNum val, <[key := add val (or_1 (FieldOptions.step opts))]> st)
  | ENUM =>
      match FieldOptions.values opts with
      | None | Some [] => (JStr "enum", st)
      | Some vals =>
          (element_at vals (Z.of_nat (random_index i j mod length vals)%nat), st)
      end
  | STATIC =>
      (match FieldOptions.staticValue opts with
       | Some v => v
       | None => JUndefined
       end, st)
  | AI_CONTEXT => (JStr "Lorem ipsum (Local generated string)", st)
  | REGEX =>
      (JStr ("regex_sim(" ++
             match FieldOptions.pattern opts with
             | None | Some EmptyString => "?"
             | Some p => p
             end ++ ")")%string, st)
  | SENTENCE => (JStr "The quick brown fox jumps over the lazy dog.", st)
  | RANDOM_INT | RANDOM_FLOAT | UUID | NAME | EMAIL | PHONE | DATE | ADDRESS =>
      (ambient i j, st)
  end.

(** Whether [x.toFixed(digits)] throws its [RangeError]: the digits, cut to
    an integer ([NaN] counting as 0), are infinite or not from 0 to 100. *)
Definition toFixed_refuses (digits : number) : bool :=
  match digits with
  | Int z => (z <? 0) || (100 <? z)
  | Dyad m p => (Z.quot m (2 ^ Z.pos p) <? 0) || (100 <? Z.quot m (2 ^ Z.pos p))
  | Inf _ => true
  | NaN => false
  end.

(** Whether the call [gen(state, field.key, opts)] for the field throws:
    the field reaches its generator, the generator is the one of
    [random_float], and [toFixed] refuses [Number(opts.precision ?? 2)].
    No other generator throws. *)
Definition generator_throws (field : FieldConfig) : bool :=
  let opts := options_or_empty field in
  match FieldOptions.groupingConfig opts, strategy field with
  | None, RANDOM_FLOAT =>
      toFixed_refuses (default (Int 2) (FieldOptions.precision opts))
  | _, _ => false
  end.

(** The body of the inner [fields.forEach] up to the store into [flatRow]:
    the value of the field at position [j] in row [i]. *)
Definition generate_field (count : nat) (fields : list FieldConfig) (i j : nat)
    (field : FieldConfig) (run : Run) : jsval * Run :=
  let opts := options_or_empty field in
  let '(val, run') :=
    match FieldOptions.groupingConfig opts with
    | Some g =>
        let values := default [] (FieldOptions.values opts) in
        let len := length_or_1 values in
        let size := group_size count len g in
        let idx := Z.rem (Z.of_nat i / size) len in
        let val := element_at values idx in
        let st := if (0 <? Z.of_nat i) && (Z.rem (Z.of_nat i) size =? 0)
                  then reset_counters fields (GroupingConfig.resetFields g) (state run)
                  else state run in
        (val, {| state := st; calls := calls run |})
    | None =>
        let '(val, st) := generator (strategy field) i j (state run) (key field) opts in
        (val, {| state := st;
                 calls := calls run ++ [{| call_row := i; call_field := j;
                                           call_strategy := strategy field |}] |})
    end in
  (enforce_type field val, run').

(** The inner [fields.forEach] of row [i], from position [j] on: the values
    in the order they are stored. *)
Fixpoint generate_fields (count : nat) (fields : list FieldConfig) (i j : nat)
    (rest : list FieldConfig) (run : Run) : list jsval * Run :=
  match rest with
  | [] => ([], run)
  | field :: rest' =>
      let '(val, run1) := generate_field count fields i j field run in
      let '(vals, run2) := generate_fields count fields i (S j) rest' run1 in
      (val :: vals, run2)
  end.

(** [flatRow] after the stores [flatRow[field.key] = val] of one row. *)
Definition flat_row (fields : list FieldConfig) (vals : list jsval) : Obj.t :=
  fold_left (fun flatRow fv => Obj.set flatRow (key (fst fv)) (snd fv))
            (combine fields vals) [].

(** [state] after the first [fields.forEach]. *)
Definition initial_state (fields : list FieldConfig) : gmap string number :=
  fold_left (fun st f =>
               match strategy f with
               | INCREMENT => <[key f := configured_start f]> st
               | _ => st
               end)
            fields ∅.

Definition initial_run (fields : list FieldConfig) : Run :=
  {| state := initial_state fields; calls := [] |}.

(** The values of the rows [i], [i+1], ..., [i+n-1], a list per row. *)
Fixpoint generate_rows (count : nat) (fields : list FieldConfig) (i n : nat)
    (run : Run) : list (list jsval) * Run :=
  match n with
  | O => ([], run)
  | S n' =>
      let '(vals, run1) := generate_fields count fields i 0 fields run in
      let '(rows, run2) := generate_rows count fields (S i) n' run1 in
      (vals :: rows, run2)
  end.

(** The value stored for the field at position [j] in row [i] of a run for
    [count] rows, if the run has such a row and field. *)
Definition generated (count : nat) (fields : list FieldConfig) (i j : nat)
    : option jsval :=
  row ← fst (generate_rows count fields 0 count (initial_run fields)) !! i;
  row !! j.

(** The generator calls of a run for [count] rows. *)
Definition generator_calls (count : nat) (fields : list FieldConfig) : list Call :=
  calls (snd (generate_rows count fields 0 count (initial_run fields))).

(** The field lists the model covers: no key is [__proto__], for which a
    store into [state] creates no counter, and every static value is a
    scalar, so that no row shares a container with the configuration. *)
Definition modelled (fields : list FieldConfig) : bool :=
  forallb (fun f =>
             negb (String.eqb (key f) "__proto__")
             && match options f ≫= FieldOptions.staticValue with
                | Some v => negb (is_object v)
                | None => true
                end)
          fields.

(** The main loop of [generateLocalData] from row [i], for [n] more rows:
    the values of the row, its flat form, its reconstruction.  A generator
    call that throws ends the run before the row is put together. *)
Fixpoint rows_from (count : nat) (fields : list FieldConfig) (i n : nat)
    (run : Run) : res (list jsval) :=
  match n with
  | O => Ok []
  | S n' =>
      if existsb generator_throws fields then Throws RangeError
      else
        let '(vals, run1) := generate_fields count fields i 0 fields run in
        let* row := unflatten (flat_row fields vals) in
        let* result := rows_from count fields (S i) n' run1 in
        Ok (row :: result)
  end.

Definition generateLocalData (count : nat) (fields : list FieldConfig)
    : res (list jsval) :=
  if modelled fields then rows_from count fields 0 count (initial_run fields)
  else Unmodelled.
End Engine.

(** ** The structural-change classifier: [isStructuralChange] *)

(** Whether an optional object is there: its truth value. *)
Definition present {A : Type} (o : option A) : bool :=
  match o with
  | Some _ => true
  | None => false
  end.

(** [!!f.options?.groupingConfig] *)
Definition hasGroup (f : FieldConfig) : bool :=
  present (options f ≫= FieldOptions.groupingConfig).

Definition isStructuralChange (f1 f2 : FieldConfig) : bool :=
  if negb (String.eqb (key f1) (key f2)) then true
  else if negb (FieldType_eqb (type f1) (type f2)) then true
  else if negb (GenerationStrategy_eqb (strategy f1) (strategy f2)) then true
  else
    let hasGroup1 := hasGroup f1 in
    let hasGroup2 := hasGroup f2 in
    if negb (Bool.eqb hasGroup1 hasGroup2) then true
    else if (negb (present (options f1)) && present (options f2))
            || (present (options f1) && negb (present (options f2))) then false
    else false.

(** ** The delegated-code executor: [executeGeneratedCode] *)

(** How the call [func(count, fields)] of the function built from the
    wrapped program ends: with a result, or with a thrown value (also when
    [new Function] rejects the text).  A thrown [Error] object is the object
    whose [message] property holds its message. *)
Inductive completion : Type :=
| Returns (result : jsval)
| Raises (thrown : jsval).

Definition error_object (message : string) : jsval := JObj [("message", JStr message)].

Section Executor.
Variable host_string : jsval -> string.

(** The host's evaluation of a program text on [(count, fields)]. *)
Variable run_program : string -> nat -> list FieldConfig -> completion.

(** [e.message] in the [catch] clause. *)
Definition message_of (e : jsval) : res jsval :=
  match e with
  | JUndefined | JNull => Throws TypeError
  | JObj o =>
      match Obj.own o "message" with
      | Some m => Ok m
      | None => Ok JUndefined
      end
  | JArr _ | JBool _ | JNum _ | JStr _ => Ok JUndefined
  end.

(** The [catch] clause: a new [Error] whose message wraps [e.message]. *)
Definition wrap (e : jsval) : res jsval :=
  let* m := message_of e in
  Throws (Error ("Failed to execute generation logic: "
                 ++ ToString host_string m)%string).

Definition executeGeneratedCode (code : string) (count : nat)
    (fields : list FieldConfig) : res jsval :=
  match run_program code count fields with
  | Returns result =>
      if isArray result then Ok result
      else wrap (error_object "Generated code did not return an Array.")
  | Raises e => wrap e
  end.
End Executor.

(** * Notions the properties are stated with *)

(** The same field with other options: an edit that touches the options
    only. *)
Definition with_options (f : FieldConfig) (o : option FieldOptions.t) : FieldConfig :=
  {| key := key f; type := type f; strategy := strategy f; options := o;
     description := description f; sampleValue := sampleValue f |}.

(** The presence of a [groupingConfig], in the words of the specification:
    the field has options, and they hold a grouping rule. *)
Definition carries_grouping (f : FieldConfig) : Prop :=
  exists o g, options f = Some o /\ FieldOptions.groupingConfig o = Some g.

(** A key that counts as the name of an identifier, by the test of the code
    (the lower-cased key is [id] or ends with [_id]) or by the literal
    suffix [Id]. *)
Definition id_like (key : string) : bool :=
  let k := toLowerCase key in
  String.eqb k "id" || endsWith k "_id" || endsWith key "Id".

(** The index the grouping branch looks up in row [i]. *)
Definition group_index (count : nat) (values : list string) (g : GroupingConfig.t)
    (i : nat) : Z :=
  Z.rem (Z.of_nat i / group_size count (length_or_1 values) g) (length_or_1 values).

(** A generator call is logged with the position of its field, and only for
    a field without [groupingConfig]. *)
Definition call_of_plain_field (fields : list FieldConfig) (c : Call) : Prop :=
  exists f, fields !! call_field c = Some f
            /\ FieldOptions.groupingConfig (options_or_empty f) = None
            /\ call_strategy c = strategy f.

(** Whether some grouping field of the list names [k] in its
    [resetFields]. *)
Definition targeted_by_reset (fields : list FieldConfig) (k : string) : bool :=
  existsb (fun f =>
             match FieldOptions.groupingConfig (options_or_empty f) with
             | Some g => existsb (String.eqb k) (GroupingConfig.resetFields g)
             | None => false
             end)
          fields.

Module Sample.

Definition no_draw : nat -> nat -> nat := fun _ _ => 0%nat.
Definition no_ambient : nat -> nat -> jsval := fun _ _ => JNull.

Definition field (k : string) (t : FieldType) (s : GenerationStrategy)
    (o : FieldOptions.t) : FieldConfig :=
  {| key := k; type := t; strategy := s; options := Some o;
     description := None; sampleValue := None |}.

(** [{ start, step }] *)
Definition counting (start step : Z) : FieldOptions.t :=
  {| FieldOptions.min := None; FieldOptions.max := None;
     FieldOptions.step := Some (Int step); FieldOptions.start := Some (Int start);
     FieldOptions.precision := None; FieldOptions.values := None;
     FieldOptions.format := None; FieldOptions.pattern := None;
     FieldOptions.staticValue := None; FieldOptions.groupingConfig := None |}.

Definition per_group (c : Z) (resets : list string) : GroupingConfig.t :=
  {| GroupingConfig.strategy := GroupingConfig.fixed;
     GroupingConfig.countPerGroup := Some c;
     GroupingConfig.resetFields := resets |}.

(** [{ values, staticValue, groupingConfig }] *)
Definition choosing (values : option (list string)) (staticValue : option jsval)
    (g : option GroupingConfig.t) : FieldOptions.t :=
  {| FieldOptions.min := None; FieldOptions.max := None;
     FieldOptions.step := None; FieldOptions.start := None;
     FieldOptions.precision := None; FieldOptions.values := values;
     FieldOptions.format := None; FieldOptions.pattern := None;
     FieldOptions.staticValue := staticValue; FieldOptions.groupingConfig := g |}.

Definition id : FieldConfig := field "id" NUMBER INCREMENT (counting 1001 1).
Definition team : FieldConfig :=
  field "team" STRING ENUM (choosing (Some ["A"; "B"]) None (Some (per_group 2 ["id"]))).

(** A counter from 1 before the grouping field that resets it. *)
Definition serial : FieldConfig := field "id" NUMBER INCREMENT (counting 1 1).

(** A counter with step 0. *)
Definition still : FieldConfig := field "id" NUMBER INCREMENT (counting 5 0).

(** A counter from 0 in steps of 0.1. *)
Definition tenths : FieldConfig :=
  field "x" NUMBER INCREMENT
    {| FieldOptions.min := None; FieldOptions.max := None;
       FieldOptions.step := Some (StringToNumber "0.1");
       FieldOptions.start := Some (Int 0);
       FieldOptions.precision := None; FieldOptions.values := None;
       FieldOptions.format := None; FieldOptions.pattern := None;
       FieldOptions.staticValue := None; FieldOptions.groupingConfig := None |}.

(** A counter that is itself a grouping field. *)
Definition grouped_serial : FieldConfig :=
  field "id" NUMBER INCREMENT
    {| FieldOptions.min := None; FieldOptions.max := None;
       FieldOptions.step := Some (Int 1); FieldOptions.start := Some (Int 5);
       FieldOptions.precision := None; FieldOptions.values := Some ["A"];
       FieldOptions.format := None; FieldOptions.pattern := None;
       FieldOptions.staticValue := None;
       FieldOptions.groupingConfig := Some (per_group 1 []) |}.

(** A static number field used as the grouping key. *)
Definition level : FieldConfig :=
  field "level" NUMBER STATIC
    (choosing (Some ["1"; "2"]) (Some (JStr "42")) (Some (per_group 2 []))).

Definition answer : FieldConfig :=
  field "answer" NUMBER STATIC (choosing None (Some (JStr "42")) None).

(** A static boolean field used as the grouping key, spread evenly. *)
Definition active : FieldConfig :=
  field "active" BOOLEAN STATIC
    (choosing (Some ["true"; "false"]) None
       (Some {| GroupingConfig.strategy := GroupingConfig.even;
                GroupingConfig.countPerGroup := None;
                GroupingConfig.resetFields := [] |})).

(** A static boolean field and a static number field whose text does not
    read as a number. *)
Definition agreed : FieldConfig :=
  field "agreed" BOOLEAN STATIC (choosing None (Some (JStr "true")) None).

Definition worded : FieldConfig :=
  field "amount" NUMBER STATIC (choosing None (Some (JStr "abc")) None).

(** A name field with a grouping rule and no values. *)
Definition unlabelled : FieldConfig :=
  field "owner" STRING NAME (choosing None None (Some (per_group 2 []))).

End Sample.

(** A key that survives the round trip: it has no dot, it does not read as a
    number, and it does not name a member of [Object.prototype]. *)
Definition plain_key (k : string) : bool :=
  negb (has_dot k) && negb (is_numeric k) && negb (Obj.inherited k).

Fixpoint distinct (ks : list string) : bool :=
  match ks with
  | [] => true
  | k :: ks' => negb (existsb (String.eqb k) ks') && distinct ks'
  end.

(** A nested value that survives the round trip: a scalar, an array of
    exactly one such value, or an object with at least one property, with
    distinct plain keys and such values. *)
Fixpoint sound (v : jsval) : bool :=
  match v with
  | JObj props =>
      match props with [] => false | _ => true end
      && distinct (map fst props)
      && forallb (fun kv => plain_key (fst kv) && sound (snd kv)) props
  | JArr [e] => sound e
  | JArr _ => false
  | _ => true
  end.

(** A record that survives the round trip: an object, possibly empty, with
    distinct plain keys and sound values. *)
Definition roundtrippable (x : jsval) : bool :=
  match x with
  | JObj props =>
      distinct (map fst props)
      && forallb (fun kv => plain_key (fst kv) && sound (snd kv)) props
  | _ => false
  end.

(** The leaves below the property [k] with value [c], each with its path
    from the container that holds [k]. *)
Definition leaves_below (leaves : jsval -> list (list string * jsval))
    (k : string) (c : jsval) : list (list string * jsval) :=
  if is_object c then map (fun qv => (k :: fst qv, snd qv)) (leaves c)
  else [([k], c)].

(** The leaves of a container whose arrays have one element, in the order
    [flattenObject] meets them. *)
Fixpoint leaves (v : jsval) : list (list string * jsval) :=
  match v with
  | JObj props => flat_map (fun kv => leaves_below leaves (fst kv) (snd kv)) props
  | JArr [e] => leaves_below leaves "0" e
  | _ => []
  end.

(** The container a walk creates for [c]: [[]] or [{}]. *)
Definition empty_like (c : jsval) : jsval :=
  match c with
  | JArr _ => JArr []
  | _ => JObj []
  end.

(** The reconstruction loop over entries whose keys are already split. *)
Fixpoint assign_all (row : jsval) (entries : list (list string * jsval)) : res jsval :=
  match entries with
  | [] => Ok row
  | (parts, value) :: entries' =>
      let* row' := assign_path row parts value in
      assign_all row' entries'
  end.

(** The flat key of the path [q] under the prefix [prefix]. *)
Definition join_path (prefix : string) (q : list string) : string :=
  fold_left newKey q prefix.

(** A path segment: not empty and without a dot. *)
Definition segment (s : string) : bool :=
  negb (String.eqb s "") && negb (has_dot s).

(** Whether the first path of a list of entries starts with a segment that
    reads as a number. *)
Definition head_numeric (entries : list (list string * jsval)) : option bool :=
  match entries with
  | (h :: _, _) :: _ => Some (is_numeric h)
  | _ => None
  end.

Fixpoint all_digits (s : string) : bool :=
  match s with
  | EmptyString => true
  | String c s' => is_digit c && all_digits s'
  end.

(** A sound container has leaves, its first path tells its kind, and the
    walks along its leaves rebuild it from the empty container of its
    kind. *)
Definition rebuilt (c : jsval) : Prop :=
  sound c = true ->
  is_object c = true ->
  head_numeric (leaves c) = Some (isArray c)
  /\ assign_all (empty_like c) (leaves c) = Ok c.

(** A key whose store appends a property: no array index, and not
    [__proto__]. *)
Definition storable (K : string) : Prop :=
  array_index K = None /\ String.eqb K "__proto__" = false.

(** The segments of a prefix, none for the empty prefix. *)
Definition prefix_path (prefix : string) : list string :=
  match prefix with
  | EmptyString => []
  | _ => split_dot prefix
  end.

(** The flat entry of a leaf under a prefix. *)
Definition keyed (prefix : string) (qv : list string * jsval) : string * jsval :=
  (join_path prefix (fst qv), snd qv).

Definition flat_ok (c : jsval) : Prop :=
  sound c = true ->
  is_object c = true ->
  forall prefix, prefix <> EmptyString ->
    flattenObject c prefix = map (keyed prefix) (leaves c).

(** [flat_ok] for a value and, if it is an array, for its element, which
    [flattenObject] visits without visiting the array. *)
Definition flattened (c : jsval) : Prop :=
  flat_ok c /\ match c with JArr [e] => flat_ok e | _ => True end.

Module Nested.

(** [{ id: 1, user: { name: "a", tags: ["x"] }, items: [{ count: 2 }] }] *)
Definition record : jsval :=
  JObj [("id", JNum (Int 1));
        ("user", JObj [("name", JStr "a"); ("tags", JArr [JStr "x"])]);
        ("items", JArr [JObj [("count", JNum (Int 2))]])].

(** [{ tags: [] }] *)
Definition with_empty_array : jsval := JObj [("tags", JArr [])].

End Nested.

Section Reach.
Variable random_index : nat -> nat -> nat.
Variable ambient : nat -> nat -> jsval.

(** The run as it stands when row [i] begins, and when the field at
    position [j] of row [i] is reached. *)
Definition run_before_row (count : nat) (fields : list FieldConfig) (i : nat) : Run :=
  snd (generate_rows random_index ambient count fields 0 i (initial_run fields)).

Definition run_before (count : nat) (fields : list FieldConfig) (i j : nat) : Run :=
  snd (generate_fields random_index ambient count fields i 0 (take j fields)
         (run_before_row count fields i)).
End Reach.

(** * The rest of the services and of the application *)

(** ** Reading a flat key back: [getNestedValue] *)

(** [acc[Number(part)]] on an array, for a part that reads as a number: the
    element at an index within the array, [undefined] for any other
    number. *)
Definition index_array (a : list jsval) (part : string) : jsval :=
  match StringToNumber part with
  | Int z => if (0 <=? z) && (z <? Z.of_nat (length a)) then Arr.get a (Z.to_nat z)
             else JUndefined
  | _ => JUndefined
  end.

(** The callback of the [reduce] of [getNestedValue]. *)
Definition nested_step (acc : jsval) (part : string) : res jsval :=
  match acc with
  | JArr a => if is_numeric part then Ok (index_array a part) else get_prop acc part
  | _ => if ToBoolean acc then get_prop acc part else Ok acc
  end.

Definition getNestedValue (obj : jsval) (path : string) : res jsval :=
  fold_left (fun acc part => let* a := acc in nested_step a part)
            (split_dot path) (Ok obj).

(** ** The program text the delegated path keeps: the clean-up in
    [generateDataGeneratorCode] *)

(** [s] without the prefix [p], if it starts with it. *)
Fixpoint strip_prefix (p s : string) : option string :=
  match p, s with
  | EmptyString, _ => Some s
  | String c p', String d s' => if Ascii.eqb c d then strip_prefix p' s' else None
  | String _ _, EmptyString => None
  end.

(** [code.replace(/^```lang\s*/, '')] *)
Definition drop_opening_fence (lang code : string) : string :=
  match strip_prefix ("```" ++ lang) code with
  | Some rest => trim_start rest
  | None => code
  end.

(** [code.replace(/```$/, '')]: the pattern has no flag, so [$] is the end
    of the text. *)
Fixpoint drop_closing_fence (code : string) : string :=
  match code with
  | EmptyString => EmptyString
  | String c code' => if String.eqb code "```" then EmptyString
                      else String c (drop_closing_fence code')
  end.

(** From [response.text] to the text [generateDataGeneratorCode] returns. *)
Definition clean_code (text : option string) : string :=
  let code := default "" text in
  drop_closing_fence (drop_opening_fence "js" (drop_opening_fence "javascript" code)).

(** ** The draws of the generators: [Math.floor(Math.random() * n)] *)

(** [-a], [a - b] and [Math.floor(a)] on numbers. *)
Definition neg (a : number) : number :=
  match a with
  | Int z => Int (- z)
  | Dyad m p => Dyad (- m) p
  | Inf s => Inf (negb s)
  | NaN => NaN
  end.

Definition sub (a b : number) : number := add a (neg b).

Definition floor (a : number) : number :=
  match a with
  | Dyad m p => Int (m / 2 ^ Z.pos p)
  | _ => a
  end.

(** What [Math.random()] returns: a double that is at least 0 and less than
    1, so 0 or [m / 2^p] below 1 with a mantissa of at most 53 bits. *)
Definition unit_double (r : number) : bool :=
  match r with
  | Int z => z =? 0
  | Dyad m p => (0 <? m) && (m <? 2 ^ Z.pos p) && (m <? 2 ^ 53) && (Z.pos p <=? 1074)
  | _ => false
  end.

(** [generators[RANDOM_INT]], for the draw [r] of its [Math.random()]. *)
Definition random_int (r : number) (opts : FieldOptions.t) : number :=
  let min := default (Int 0) (FieldOptions.min opts) in
  let max := default (Int 100) (FieldOptions.max opts) in
  add (floor (mul r (add (sub max min) (Int 1)))) min.

(** [xs[Math.floor(Math.random() * xs.length)]], for the draw [r]:
    nothing when the index is not one of the list. *)
Definition pick {A : Type} (r : number) (xs : list A) : option A :=
  match floor (mul r (Int (Z.of_nat (length xs)))) with
  | Int z => if 0 <=? z then xs !! Z.to_nat z else None
  | _ => None
  end.

(** [generators[ENUM]], for the draw [r]; nothing is drawn when there is no
    value to choose from. *)
Definition enum_value (r : number) (opts : FieldOptions.t) : jsval :=
  match FieldOptions.values opts with
  | None | Some [] => JStr "enum"
  | Some vals => match pick r vals with
                 | Some s => JStr s
                 | None => JUndefined
                 end
  end.

(** The text a template literal gives a list element that may be missing. *)
Definition element_text (x : option string) : string := default "undefined" x.

Definition firsts : list string :=
  ["James"; "Mary"; "John"; "Patricia"; "Robert"; "Jennifer"; "Michael"; "Linda";
   "David"; "Elizabeth"].

Definition lasts : list string :=
  ["Smith"; "Johnson"; "Williams"; "Brown"; "Jones"; "Garcia"; "Miller"; "Davis"].

(** [generators[NAME]], for its two draws in the order they are made. *)
Definition name_value (r1 r2 : number) : jsval :=
  JStr (element_text (pick r1 firsts) ++ " " ++ element_text (pick r2 lasts))%string.

(** The decimal text of an integer. *)
Definition decimal (z : Z) : string := NilZero.string_of_int (Z.to_int z).

Section Phone.
Variable host_string : jsval -> string.

(** The text a template literal gives a number: decimal digits for an
    integer below 10^21 in magnitude, the host's text otherwise. *)
Definition number_text (n : number) : string :=
  match n with
  | Int z => if Z.abs z <? 10 ^ 21 then decimal z else host_string (JNum n)
  | _ => host_string (JNum n)
  end.

(** [generators[PHONE]], for its three draws in the order they are made. *)
Definition phone_value (r1 r2 r3 : number) : jsval :=
  JStr ("+1-" ++ number_text (add (floor (mul r1 (Int 900))) (Int 100))
        ++ "-" ++ number_text (add (floor (mul r2 (Int 900))) (Int 100))
        ++ "-" ++ number_text (add (floor (mul r3 (Int 9000))) (Int 1000)))%string.
End Phone.

(** ** Further configurations the properties are shown on *)
Module Trial.

Definition evenly : GroupingConfig.t :=
  {| GroupingConfig.strategy := GroupingConfig.even;
     GroupingConfig.countPerGroup := None;
     GroupingConfig.resetFields := [] |}.

(** Three teams, spread evenly. *)
Definition league : FieldConfig :=
  Sample.field "team" STRING ENUM
    (Sample.choosing (Some ["A"; "B"; "C"]) None (Some evenly)).

End Trial.

(** ** The schema row: [handleStrategyChange] and [handleOptionChange] *)
Module SchemaRow.

(** [{ ...options, staticValue: v }] *)
Definition with_staticValue (o : FieldOptions.t) (v : jsval) : FieldOptions.t :=
  {| FieldOptions.min := FieldOptions.min o; FieldOptions.max := FieldOptions.max o;
     FieldOptions.step := FieldOptions.step o; FieldOptions.start := FieldOptions.start o;
     FieldOptions.precision := FieldOptions.precision o;
     FieldOptions.values := FieldOptions.values o;
     FieldOptions.format := FieldOptions.format o;
     FieldOptions.pattern := FieldOptions.pattern o;
     FieldOptions.staticValue := Some v;
     FieldOptions.groupingConfig := FieldOptions.groupingConfig o |}.

(** The field [handleStrategyChange] hands to [onChange] when the selector
    is set to [newStrategy]: the options are copied, and a static value that
    is missing or empty is filled from the sample when there is one. *)
Definition handleStrategyChange (field : FieldConfig) (newStrategy : GenerationStrategy)
    : FieldConfig :=
  let newOptions := options_or_empty field in
  let unset := match FieldOptions.staticValue newOptions with
               | None | Some JUndefined | Some (JStr EmptyString) => true
               | Some _ => false
               end in
  let newOptions :=
    match sampleValue field with
    | Some sample =>
        if GenerationStrategy_eqb newStrategy STATIC && unset && negb (is_undefined sample)
        then with_staticValue newOptions sample
        else newOptions
    | None => newOptions
    end in
  {| key := key field; type := type field; strategy := newStrategy;
     options := Some newOptions; description := description field;
     sampleValue := sampleValue field |}.

(** The calls [handleOptionChange(key, value)] the row makes: one per input
    of the row, with the value the input produces. *)
Inductive OptionEdit : Type :=
| set_values (values : list string)
| set_min (n : number)
| set_max (n : number)
| set_precision (n : number)
| set_start (n : number)
| set_step (n : number)
| set_staticValue (v : jsval)
| set_pattern (p : string)
| set_format (f : string).

(** [{ ...options, [key]: value }] *)
Definition edited (o : FieldOptions.t) (e : OptionEdit) : FieldOptions.t :=
  {| FieldOptions.min := match e with set_min n => Some n | _ => FieldOptions.min o end;
     FieldOptions.max := match e with set_max n => Some n | _ => FieldOptions.max o end;
     FieldOptions.step := match e with set_step n => Some n | _ => FieldOptions.step o end;
     FieldOptions.start :=
       match e with set_start n => Some n | _ => FieldOptions.start o end;
     FieldOptions.precision :=
       match e with set_precision n => Some n | _ => FieldOptions.precision o end;
     FieldOptions.values :=
       match e with set_values vs => Some vs | _ => FieldOptions.values o end;
     FieldOptions.format :=
       match e with set_format f => Some f | _ => FieldOptions.format o end;
     FieldOptions.pattern :=
       match e with set_pattern p => Some p | _ => FieldOptions.pattern o end;
     FieldOptions.staticValue :=
       match e with set_staticValue v => Some v | _ => FieldOptions.staticValue o end;
     FieldOptions.groupingConfig := FieldOptions.groupingConfig o |}.

(** The field [handleOptionChange] hands to [onChange]. *)
Definition handleOptionChange (field : FieldConfig) (e : OptionEdit) : FieldConfig :=
  {| key := key field; type := type field; strategy := strategy field;
     options := Some (edited (options_or_empty field) e);
     description := description field; sampleValue := sampleValue field |}.

End SchemaRow.

(** ** The application state and its handlers *)
Module App.

(** The text of a text box: its UTF-16 code units.  The values of a field
    are strings of code units below 256, as everywhere in this model; a
    text box can hold any. *)
Definition Text : Type := list N.

(** A string as a text. *)
Definition text_of (s : string) : Text := map N_of_ascii (list_ascii_of_string s).

(** A text as a string, if all its code units are below 256. *)
Fixpoint narrow (t : Text) : option string :=
  match t with
  | [] => Some EmptyString
  | u :: t' =>
      if (u <? 256)%N then option_map (String (ascii_of_N u)) (narrow t') else None
  end.

(** The part of the component state the handlers below read and write. *)
Record State : Type := {
  isLocalMode : bool;
  fields : list FieldConfig;
  generatedCode : string;
  generateCount : Z;
  showGroupingHelper : bool;
  groupField : string;
  groupValues : Text;
  groupStrategy : GroupingConfig.Strategy;
  countPerGroup : Z;
  resetFields : list string
}.

(** The state after [setFields(fs)] and [setGeneratedCode(code)]. *)
Definition with_fields (st : State) (fs : list FieldConfig) (code : string) : State :=
  {| isLocalMode := isLocalMode st; fields := fs; generatedCode := code;
     generateCount := generateCount st; showGroupingHelper := showGroupingHelper st;
     groupField := groupField st; groupValues := groupValues st;
     groupStrategy := groupStrategy st; countPerGroup := countPerGroup st;
     resetFields := resetFields st |}.

(** [handleFieldChange(index, updatedField)] for an index of the list; the
    row of a field calls it with the position of that field. *)
Definition handleFieldChange (index : nat) (updatedField : FieldConfig) (st : State)
    : res State :=
  match fields st !! index with
  | Some oldField =>
      let newFields := <[index := updatedField]> (fields st) in
      Ok (with_fields st newFields
            (if negb (isLocalMode st) && isStructuralChange oldField updatedField
             then "" else generatedCode st))
  | None => Unmodelled
  end.

(** [s.split(sep)] for a pattern that matches one code unit: never the
    empty list. *)
Fixpoint split_on (sep : N -> bool) (s : Text) : list Text :=
  match s with
  | [] => [[]]
  | u :: s' =>
      if sep u then [] :: split_on sep s'
      else match split_on sep s' with
           | p :: ps => (u :: p) :: ps
           | [] => [[u]]
           end
  end.

(** The pattern [/[,\uFF0C\n]/] of the grouping helper on one code unit: the
    comma, the full-width comma and the line feed. *)
Definition is_list_separator (u : N) : bool :=
  ((u =? 44) || (u =? 65292) || (u =? 10))%N.

(** The code units [trim] removes: white space (tab, vertical tab, form
    feed, the byte order mark and the space separators of Unicode) and the
    line terminators. *)
Definition is_white_space (u : N) : bool :=
  (((9 <=? u) && (u <=? 13)) || (u =? 32) || (u =? 160) || (u =? 5760)
   || ((8192 <=? u) && (u <=? 8202)) || (u =? 8232) || (u =? 8233) || (u =? 8239)
   || (u =? 8287) || (u =? 12288) || (u =? 65279))%N.

Fixpoint trim_text_start (s : Text) : Text :=
  match s with
  | u :: s' => if is_white_space u then trim_text_start s' else s
  | [] => []
  end.

Fixpoint trim_text_end (s : Text) : Text :=
  match s with
  | [] => []
  | u :: s' =>
      match trim_text_end s' with
      | [] => if is_white_space u then [] else [u]
      | t => u :: t
      end
  end.

(** [v.trim()] *)
Definition trim_text (s : Text) : Text := trim_text_end (trim_text_start s).

(** The pieces as values of a field, if each is a string of the model. *)
Fixpoint narrow_all (pieces : list Text) : res (list string) :=
  match pieces with
  | [] => Ok []
  | t :: pieces' =>
      match narrow t with
      | Some v => let* vs := narrow_all pieces' in Ok (v :: vs)
      | None => Unmodelled
      end
  end.

(** [groupValues.split(...).map(v => v.trim()).filter(v => v)] *)
Definition parse_values (text : Text) : res (list string) :=
  narrow_all
    (List.filter (fun v => match v with [] => false | _ => true end)
                 (map trim_text (split_on is_list_separator text))).

(** [xs.join(sep)] *)
Fixpoint join (sep : string) (xs : list string) : string :=
  match xs with
  | [] => EmptyString
  | [x] => x
  | x :: xs' => (x ++ sep ++ join sep xs')%string
  end.

(** [l.findIndex(p)], nothing standing for -1. *)
Fixpoint findIndex (p : FieldConfig -> bool) (l : list FieldConfig) : option nat :=
  match l with
  | [] => None
  | f :: l' => if p f then Some 0%nat else option_map S (findIndex p l')
  end.

(** [{ ...options, values, groupingConfig }] *)
Definition with_grouping (o : FieldOptions.t) (values : list string)
    (g : GroupingConfig.t) : FieldOptions.t :=
  {| FieldOptions.min := FieldOptions.min o; FieldOptions.max := FieldOptions.max o;
     FieldOptions.step := FieldOptions.step o; FieldOptions.start := FieldOptions.start o;
     FieldOptions.precision := FieldOptions.precision o;
     FieldOptions.values := Some values;
     FieldOptions.format := FieldOptions.format o;
     FieldOptions.pattern := FieldOptions.pattern o;
     FieldOptions.staticValue := FieldOptions.staticValue o;
     FieldOptions.groupingConfig := Some g |}.

(** The grouping rule the helper holds. *)
Definition rule (st : State) : GroupingConfig.t :=
  {| GroupingConfig.strategy := groupStrategy st;
     GroupingConfig.countPerGroup :=
       match groupStrategy st with
       | GroupingConfig.fixed => Some (countPerGroup st)
       | GroupingConfig.even => None
       end;
     GroupingConfig.resetFields := resetFields st |}.

(** The state after [setGenerateCount(n)] and after
    [setShowGroupingHelper(b)]. *)
Definition with_count (st : State) (n : Z) : State :=
  {| isLocalMode := isLocalMode st; fields := fields st;
     generatedCode := generatedCode st; generateCount := n;
     showGroupingHelper := showGroupingHelper st;
     groupField := groupField st; groupValues := groupValues st;
     groupStrategy := groupStrategy st; countPerGroup := countPerGroup st;
     resetFields := resetFields st |}.

Definition with_helper (st : State) (b : bool) : State :=
  {| isLocalMode := isLocalMode st; fields := fields st;
     generatedCode := generatedCode st; generateCount := generateCount st;
     showGroupingHelper := b;
     groupField := groupField st; groupValues := groupValues st;
     groupStrategy := groupStrategy st; countPerGroup := countPerGroup st;
     resetFields := resetFields st |}.

(** [applyGroupingRule()] *)
Definition applyGroupingRule (st : State) : res State :=
  if String.eqb (groupField st) "" then Ok st
  else
    match findIndex (fun f => String.eqb (key f) (groupField st)) (fields st) with
    | None => Ok st
    | Some fieldIndex =>
        match fields st !! fieldIndex with
        | None => Unmodelled
        | Some field =>
            let* valuesList := parse_values (groupValues st) in
            let updatedField :=
              {| key := key field; type := type field; strategy := strategy field;
                 options := Some (with_grouping (options_or_empty field) valuesList
                                                (rule st));
                 description := description field;
                 sampleValue := sampleValue field |} in
            let st1 :=
              match groupStrategy st with
              | GroupingConfig.fixed =>
                  with_count st (Z.of_nat (length valuesList) * countPerGroup st)
              | GroupingConfig.even => st
              end in
            let* st2 := handleFieldChange fieldIndex updatedField st1 in
            Ok (with_helper st2 false)
        end
    end.

(** The texts a [Set] keeps of a list: each once, in the order of the
    first occurrences. *)
Definition distinct_texts (xs : list string) : list string :=
  fold_left (fun seen x => if existsb (String.eqb x) seen then seen else seen ++ [x])
            xs [].

(** The state after [setGroupField(k)] and, when there is a text,
    [setGroupValues(text)]. *)
Definition with_group (st : State) (k : string) (text : option Text) : State :=
  {| isLocalMode := isLocalMode st; fields := fields st;
     generatedCode := generatedCode st; generateCount := generateCount st;
     showGroupingHelper := showGroupingHelper st;
     groupField := k; groupValues := default (groupValues st) text;
     groupStrategy := groupStrategy st; countPerGroup := countPerGroup st;
     resetFields := resetFields st |}.

(** The values of the configured [enum] the helper proposes, if the field
    is one with at least one value. *)
Definition proposed_values (fieldConfig : option FieldConfig) : option (list string) :=
  match fieldConfig with
  | Some f =>
      match strategy f, options f ≫= FieldOptions.values with
      | ENUM, Some (v :: vs) => Some (v :: vs)
      | _, _ => None
      end
  | None => None
  end.

(** The texts of the values the sample holds under a key: the body of the
    [dataArray.forEach]. *)
Fixpoint sample_texts (host_string : jsval -> string) (selectedKey : string)
    (items : list jsval) : res (list string) :=
  match items with
  | [] => Ok []
  | item :: items' =>
      let* val := getNestedValue item selectedKey in
      let* texts := sample_texts host_string selectedKey items' in
      Ok (match val with
          | JUndefined | JNull => texts
          | _ => ToString host_string val :: texts
          end)
  end.

(** [handleGroupFieldChange] for the key the select holds; [parsed] is what
    [JSON.parse(inputJson)] returns, nothing when it throws. *)
Definition handleGroupFieldChange (host_string : jsval -> string)
    (parsed : option jsval) (selectedKey : string) (st : State) : res State :=
  if String.eqb selectedKey "" then Ok (with_group st selectedKey (Some []))
  else
    match proposed_values (find_field (fields st) selectedKey) with
    | Some values =>
        Ok (with_group st selectedKey (Some (text_of (join ", " values))))
    | None =>
        match parsed with
        | None => Ok (with_group st selectedKey None)
        | Some p =>
            let dataArray := match p with JArr items => items | _ => [p] end in
            match sample_texts host_string selectedKey dataArray with
            | Ok texts =>
                Ok (with_group st selectedKey
                      (Some (text_of (join ", " (distinct_texts texts)))))
            | Throws _ => Ok (with_group st selectedKey None)
            | Unmodelled => Unmodelled
            end
        end
    end.

(** [toggleResetField(fieldKey)]: the next value of [resetFields]. *)
Definition toggleResetField (prev : list string) (fieldKey : string) : list string :=
  if existsb (String.eqb fieldKey) prev
  then List.filter (fun k => negb (String.eqb k fieldKey)) prev
  else prev ++ [fieldKey].

End App.

(** States of the application the properties are shown on. *)
(** A value the helper shows and reads back unchanged: not empty, without
    white space at either end, without a separator. *)
Definition shown_as_typed (v : string) : Prop :=
  v <> "" /\ trim v = v
  /\ forallb (fun u => negb (App.is_list_separator u)) (App.text_of v) = true.

Module Session.

Definition roles : FieldConfig :=
  Sample.field "role" STRING ENUM (Sample.choosing (Some ["admin"; "guest"]) None None).

(** The delegated mode with a cached program. *)
Definition editing : App.State :=
  {| App.isLocalMode := false;
     App.fields := [Sample.serial; roles];
     App.generatedCode := "function generateData(count, fields) { return []; }";
     App.generateCount := 50;
     App.showGroupingHelper := true;
     App.groupField := "";
     App.groupValues := [];
     App.groupStrategy := GroupingConfig.fixed;
     App.countPerGroup := 3;
     App.resetFields := ["id"] |}.


End Session.

(** A sequence of calls of [handleFieldChange], each on the state the one
    before left. *)
Fixpoint field_changes (edits : list (nat * FieldConfig)) (st : App.State)
    : res App.State :=
  match edits with
  | [] => Ok st
  | (index, updatedField) :: edits' =>
      let* st' := App.handleFieldChange index updatedField st in
      field_changes edits' st'
  end.

(** ** Records of the same shape *)

(** The value [c] under a property or in an array, with its leaves replaced,
    in the order [flattenObject] meets them, by the first of the values
    [vals]; and the values that are left. *)
Definition refill_below (refill : jsval -> list jsval -> jsval * list jsval)
    (c : jsval) (vals : list jsval) : jsval * list jsval :=
  if is_object c then refill c vals
  else match vals with
       | v :: vals' => (v, vals')
       | [] => (c, [])
       end.

(** One property more: the properties done so far and the values left. *)
Definition refill_step (refill : jsval -> list jsval -> jsval * list jsval)
    (st : list (string * jsval) * list jsval) (kv : string * jsval)
    : list (string * jsval) * list jsval :=
  (fst st ++ [(fst kv, fst (refill_below refill (snd kv) (snd st)))],
   snd (refill_below refill (snd kv) (snd st))).

Fixpoint refill (c : jsval) (vals : list jsval) {struct c} : jsval * list jsval :=
  match c with
  | JObj props =>
      (JObj (fst (fold_left (refill_step refill) props ([], vals))),
       snd (fold_left (refill_step refill) props ([], vals)))
  | JArr [e] => (JArr [fst (refill_below refill e vals)],
                 snd (refill_below refill e vals))
  | _ => (c, vals)
  end.

(** The paths of the leaves of a record. *)
Definition paths (c : jsval) : list (list string) := map fst (leaves c).

(** What [refill] returns for a sound container, or for the value under a
    key: a sound value of the same kind, with the same paths and the new
    leaves. *)
Definition refilled_below (c : jsval) : Prop :=
  sound c = true ->
  forall k vals,
    (length (leaves_below leaves k c) <= length vals)%nat ->
    Forall (fun v => is_object v = false) vals ->
    let c' := fst (refill_below refill c vals) in
    sound c' = true
    /\ is_object c' = is_object c
    /\ isArray c' = isArray c
    /\ leaves_below leaves k c' = combine (map fst (leaves_below leaves k c)) vals
    /\ snd (refill_below refill c vals) = drop (length (leaves_below leaves k c)) vals.

Definition refilled (c : jsval) : Prop :=
  sound c = true ->
  is_object c = true ->
  forall vals,
    (length (leaves c) <= length vals)%nat ->
    Forall (fun v => is_object v = false) vals ->
    let c' := fst (refill c vals) in
    sound c' = true
    /\ is_object c' = true
    /\ isArray c' = isArray c
    /\ leaves c' = combine (paths c) vals
    /\ snd (refill c vals) = drop (length (leaves c)) vals.

(** ** Sample values on a delegated analysis ([analyzeJsonStructure]) *)

(** [f.sampleValue = v] *)
Definition with_sampleValue (f : FieldConfig) (v : jsval) : FieldConfig :=
  {| key := key f; type := type f; strategy := strategy f; options := options f;
     description := description f; sampleValue := Some v |}.

(** One turn of the [forEach]: the field takes the value the flattened
    sample holds under its key, unless that is [undefined]. *)
Definition attach_sample (flattened : Obj.t) (f : FieldConfig) : res FieldConfig :=
  let* v := get_prop (JObj flattened) (key f) in
  Ok (if is_undefined v then f else with_sampleValue f v).

Fixpoint attach_each (flattened : Obj.t) (fs : list FieldConfig)
    : res (list FieldConfig) :=
  match fs with
  | [] => Ok []
  | f :: fs' =>
      let* g := attach_sample flattened f in
      let* gs := attach_each flattened fs' in
      Ok (g :: gs)
  end.

(** The post-processing of the fields a delegated analysis returned.
    [parsed] is what [JSON.parse] makes of the input, [None] when it throws:
    the exception is caught and the fields stay as they came. *)
Definition attach_samples (parsed : option jsval) (fs : list FieldConfig)
    : res (list FieldConfig) :=
  match parsed with
  | None => Ok fs
  | Some parsedInput =>
      let sample := match parsedInput with
                    | JArr [] => JObj []
                    | JArr (first :: _) => first
                    | _ => parsedInput
                    end in
      attach_each (flattenObject sample "") fs
  end.

(** What one turn does to the field [f], giving [g]. *)
Definition stamped (flattened : Obj.t) (f g : FieldConfig) : Prop :=
  key g = key f /\ type g = type f /\ strategy g = strategy f
  /\ options g = options f /\ description g = description f
  /\ (forall v, In (key f, v) flattened -> v <> JUndefined -> sampleValue g = Some v)
  /\ (~ In (key f) (map fst flattened) -> g = f).

(** ** Generation from the page: [handleGenerate] *)

Module Page.

(** The text [handleGenerate] stores as the program after a local
    generation. *)
Definition local_placeholder : string :=
  String.concat ""
    (map (fun line => (line ++ String "010" "")%string)
       [ "// Local Mode Logic";
         "// ----------------";
         "// Data is generated using the built-in deterministic engine.";
         "// No custom JavaScript code was generated by AI.";
         "// The engine supports:";
         "// - Increment, Random Int/Float, Enum";
         "// - UUID, Date, Name, Email, Phone";
         "// - Grouping & Reset logic" ]
     ++ ["        "]).

(** The state after [setIsLocalMode(b)]. *)
Definition with_mode (st : App.State) (b : bool) : App.State :=
  {| App.isLocalMode := b; App.fields := App.fields st;
     App.generatedCode := App.generatedCode st;
     App.generateCount := App.generateCount st;
     App.showGroupingHelper := App.showGroupingHelper st;
     App.groupField := App.groupField st; App.groupValues := App.groupValues st;
     App.groupStrategy := App.groupStrategy st;
     App.countPerGroup := App.countPerGroup st;
     App.resetFields := App.resetFields st |}.

(** The state after [setGeneratedCode(code)]. *)
Definition with_code (st : App.State) (code : string) : App.State :=
  App.with_fields st (App.fields st) code.

(** The button of the delegated mode: [HAS_API_KEY && setIsLocalMode(false)]. *)
Definition switch_to_delegated (HAS_API_KEY : bool) (st : App.State) : App.State :=
  if HAS_API_KEY then with_mode st false else st.

(** What a call of [handleGenerate] leaves: the state, whether a program was
    requested, and the data, or what was thrown and is shown as the error. *)
Record Generated : Type := {
  after : App.State;
  asked : bool;
  data : res jsval
}.

Section Generate.
Variable random_index : nat -> nat -> nat.
Variable ambient : nat -> nat -> jsval.
Variable host_string : jsval -> string.
Variable run_program : string -> nat -> list FieldConfig -> completion.

(** The request for a program: the text that comes back, or what is thrown. *)
Variable generateDataGeneratorCode : list FieldConfig -> string -> string -> res string.

(** [handleGenerate(forceRefresh)] with a count that is a natural number. *)
Definition handleGenerate (forceRefresh : bool) (inputJson customInstructions : string)
    (st : App.State) : Generated :=
  if App.generateCount st <? 0 then
    {| after := st; asked := false; data := Unmodelled |}
  else
    let count := Z.to_nat (App.generateCount st) in
    if App.isLocalMode st then
      match generateLocalData random_index ambient count (App.fields st) with
      | Ok rows =>
          {| after := with_code st local_placeholder; asked := false;
             data := Ok (JArr rows) |}
      | Throws e => {| after := st; asked := false; data := Throws e |}
      | Unmodelled => {| after := st; asked := false; data := Unmodelled |}
      end
    else
      let code := App.generatedCode st in
      if String.eqb code "" || forceRefresh then
        match generateDataGeneratorCode (App.fields st) inputJson customInstructions with
        | Ok code' =>
            {| after := with_code st code'; asked := true;
               data := executeGeneratedCode host_string run_program code' count
                         (App.fields st) |}
        | Throws e => {| after := st; asked := true; data := Throws e |}
        | Unmodelled => {| after := st; asked := true; data := Unmodelled |}
        end
      else
        {| after := st; asked := false;
           data := executeGeneratedCode host_string run_program code count
                     (App.fields st) |}.
End Generate.

End Page.

(** ** Templates: [handleSaveTemplate], [handleLoadTemplate],
    [handleDeleteTemplate] *)

Module Templates.

Inductive Step : Type := INPUT | CONFIGURE | RESULT.

(** [t.config] *)
Record Config : Type := {
  inputJson : string;
  fields : list FieldConfig;
  customInstructions : string;
  generateCount : Z;
  generatedCode : string
}.

Record Template : Type := {
  id : string;
  name : string;
  createdAt : Z;
  config : Config
}.

(** The part of the component state the template handlers read and write:
    the state of the field editor [app] and what lies beside it. *)
Record Workspace : Type := {
  app : App.State;
  step : Step;
  input : string;
  instructions : string;
  templates : list Template;
  newTemplateName : string;
  showTemplateModal : bool
}.

(** [handleSaveTemplate()]; [uuid] is what [crypto.randomUUID()] returns and
    [now] what [Date.now()] returns. *)
Definition handleSaveTemplate (uuid : string) (now : Z) (ws : Workspace) : Workspace :=
  if String.eqb (trim (newTemplateName ws)) "" then ws
  else
    let newTemplate :=
      {| id := uuid; name := newTemplateName ws; createdAt := now;
         config :=
           {| inputJson := input ws;
              fields := App.fields (app ws);
              customInstructions := instructions ws;
              generateCount := App.generateCount (app ws);
              generatedCode := if App.isLocalMode (app ws) then ""
                               else App.generatedCode (app ws) |} |} in
    {| app := app ws; step := step ws; input := input ws;
       instructions := instructions ws;
       templates := templates ws ++ [newTemplate];
       newTemplateName := ""; showTemplateModal := false |}.

(** The editor state after [setFields], [setGenerateCount],
    [setGeneratedCode] and [setIsLocalMode]. *)
Definition loaded (st : App.State) (fs : list FieldConfig) (count : Z) (code : string)
    (localMode : bool) : App.State :=
  {| App.isLocalMode := localMode; App.fields := fs; App.generatedCode := code;
     App.generateCount := count;
     App.showGroupingHelper := App.showGroupingHelper st;
     App.groupField := App.groupField st; App.groupValues := App.groupValues st;
     App.groupStrategy := App.groupStrategy st;
     App.countPerGroup := App.countPerGroup st;
     App.resetFields := App.resetFields st |}.

(** [handleLoadTemplate(t)] *)
Definition handleLoadTemplate (HAS_API_KEY : bool) (t : Template) (ws : Workspace)
    : Workspace :=
  let c := config t in
  let st := app ws in
  {| app := if negb (String.eqb (generatedCode c) "") then
              loaded st (fields c) (generateCount c) (generatedCode c)
                (if HAS_API_KEY then false else App.isLocalMode st)
            else loaded st (fields c) (generateCount c) "" (App.isLocalMode st);
     step := CONFIGURE;
     input := inputJson c;
     instructions := customInstructions c;
     templates := templates ws;
     newTemplateName := newTemplateName ws;
     showTemplateModal := showTemplateModal ws |}.

(** [handleDeleteTemplate(id, e)] *)
Definition handleDeleteTemplate (id' : string) (ws : Workspace) : Workspace :=
  {| app := app ws; step := step ws; input := input ws;
     instructions := instructions ws;
     templates := List.filter (fun t => negb (String.eqb (id t) id')) (templates ws);
     newTemplateName := newTemplateName ws;
     showTemplateModal := showTemplateModal ws |}.

(** The state after [setNewTemplateName(n)]. *)
Definition with_name (ws : Workspace) (n : string) : Workspace :=
  {| app := app ws; step := step ws; input := input ws;
     instructions := instructions ws; templates := templates ws;
     newTemplateName := n; showTemplateModal := showTemplateModal ws |}.

(** A page in the delegated mode, about to save a template. *)
Definition desk : Workspace :=
  {| app := Session.editing; step := CONFIGURE; input := "{}"; instructions := "";
     templates := []; newTemplateName := "crew"; showTemplateModal := true |}.

(** The same page in the local mode, the placeholder cached. *)
Definition bench : Workspace :=
  {| app := Page.with_code (Page.with_mode Session.editing true) Page.local_placeholder;
     step := RESULT; input := "{}"; instructions := "";
     templates := []; newTemplateName := "crew"; showTemplateModal := true |}.

(** The page [bench] after the switch to the delegated mode: the
    placeholder is still cached. *)
Definition counter : Workspace :=
  {| app := Page.switch_to_delegated true (app bench);
     step := RESULT; input := "{}"; instructions := "";
     templates := []; newTemplateName := "crew"; showTemplateModal := true |}.

(** The page [desk] after a save, about to save again. *)
Definition shelf : Workspace :=
  with_name (handleSaveTemplate "u-1" 1700000000000 desk) "spare".

End Templates.

(** * Properties *)

(** Boolean comparisons of integers, moved to the propositions [lia] reads. *)
Ltac zify_bool :=
  repeat match goal with
    | H : (_ <=? _) = true |- _ => apply Z.leb_le in H
    | H : (_ <=? _) = false |- _ => apply Z.leb_gt in H
    | H : (_ <? _) = true |- _ => apply Z.ltb_lt in H
    | H : (_ <? _) = false |- _ => apply Z.ltb_ge in H
    | H : (_ =? _) = true |- _ => apply Z.eqb_eq in H
    | H : (_ =? _) = false |- _ => apply Z.eqb_neq in H
    end.

(** ** Numbers *)

Lemma round_int_safe z : Z.abs z <= 2 ^ 53 -> round_int z = Int z.
Proof.
  intros H. unfold round_int.
  destruct (Z.abs z <=? 2 ^ 53) eqn:E; [reflexivity | zify_bool; lia].
Qed.

Lemma add_Int_safe a b : Z.abs (a + b) <= 2 ^ 53 -> add (Int a) (Int b) = Int (a + b).
Proof. intros H. unfold add. now apply round_int_safe. Qed.

Lemma nearest_integer_mantissa n :
  2 ^ 53 < n -> 0 < fst (nearest n 1) /\ 0 <= snd (nearest n 1).
Proof.
  intros Hn.
  assert (Hpos : 0 < n) by lia.
  pose proof (Z.log2_spec n Hpos) as [Hlo Hhi].
  assert (Hl : 53 <= Z.log2 n).
  { apply Z.log2_le_pow2; lia. }
  unfold nearest. change (Z.log2 1) with 0. rewrite Z.sub_0_r.
  destruct (0 <=? Z.log2 n) eqn:E0; [| zify_bool; lia].
  rewrite Z.mul_1_l.
  destruct (2 ^ Z.log2 n <=? n) eqn:E1; [| zify_bool; lia].
  rewrite Z.max_l by lia.
  destruct (0 <=? Z.log2 n - 52) eqn:E2; [| zify_bool; lia].
  rewrite Z.mul_1_l. cbn [fst snd]. split; [| lia].
  set (e := Z.log2 n - 52).
  assert (He : 0 < 2 ^ e) by (apply Z.pow_pos_nonneg; lia).
  assert (Hq : 0 < n / 2 ^ e).
  { apply Z.div_str_pos. split; [lia |].
    transitivity (2 ^ Z.log2 n); [| lia].
    apply Z.pow_le_mono_r; lia. }
  destruct (2 * (n mod 2 ^ e) <? 2 ^ e); [lia |].
  destruct (2 ^ e <? 2 * (n mod 2 ^ e)); [lia |].
  destruct (Z.even (n / 2 ^ e)); lia.
Qed.

Lemma of_ratio_integer_truthy z : 2 ^ 53 < Z.abs z -> truthy (of_ratio z 1) = true.
Proof.
  intros Hz. unfold of_ratio.
  destruct (z =? 0) eqn:E0; [zify_bool; lia |].
  pose proof (nearest_integer_mantissa (Z.abs z) Hz) as [Hm He].
  destruct (nearest (Z.abs z) 1) as [m e]. cbn [fst snd] in *.
  unfold of_mantissa.
  destruct (m =? 0) eqn:Em; [zify_bool; lia |].
  destruct (0 <=? e) eqn:Ee; [| zify_bool; lia].
  destruct (2 ^ 1024 <=? m * 2 ^ e); [reflexivity |].
  assert (0 < m * 2 ^ e).
  { apply Z.mul_pos_pos; [lia | apply Z.pow_pos_nonneg; lia]. }
  unfold signed. destruct (z <? 0); simpl.
  - destruct (- (m * 2 ^ e)) eqn:E; try reflexivity; lia.
  - destruct (m * 2 ^ e) eqn:E; try reflexivity; lia.
Qed.

Lemma mul_Int a b : mul (Int a) (Int b) = round_int (a * b).
Proof. destruct a, b; reflexivity. Qed.

Lemma truthy_Int z : truthy (Int z) = negb (z =? 0).
Proof. destruct z; reflexivity. Qed.

(** Twice an integer is falsy only for zero. *)
Lemma double_truthy z : truthy (mul (Int z) (Int 2)) = negb (z =? 0).
Proof.
  rewrite mul_Int. unfold round_int.
  destruct (Z.abs (z * 2) <=? 2 ^ 53) eqn:E.
  - rewrite truthy_Int.
    destruct (z * 2 =? 0) eqn:E1, (z =? 0) eqn:E0; try reflexivity; zify_bool; lia.
  - zify_bool. rewrite of_ratio_integer_truthy by lia.
    destruct (z =? 0) eqn:E0; [| reflexivity].
    zify_bool. subst z. simpl in E. lia.
Qed.

(** ** Strings *)

Lemma lower_char_not_upper_I c : Ascii.eqb (lower_char c) "I" = false.
Proof.
  destruct c as [[] [] [] [] [] [] [] []]; reflexivity.
Qed.

(** A lower-cased key never ends with [Id]. *)
Lemma lowered_never_ends_with_Id key : endsWith (toLowerCase key) "Id" = false.
Proof.
  induction key as [| c key IH]; [reflexivity |].
  cbn [toLowerCase endsWith]. rewrite IH, orb_false_r.
  cbn [String.eqb]. now rewrite lower_char_not_upper_I.
Qed.

(** ** The structural-change classifier *)

Lemma FieldType_eqb_eq a b : FieldType_eqb a b = true <-> a = b.
Proof. destruct a, b; simpl; split; congruence. Qed.

Lemma GenerationStrategy_eqb_eq a b : GenerationStrategy_eqb a b = true <-> a = b.
Proof. destruct a, b; simpl; split; congruence. Qed.

Lemma hasGroup_carries (f : FieldConfig) : hasGroup f = true <-> carries_grouping f.
Proof.
  unfold hasGroup, carries_grouping.
  destruct (options f) as [o |]; cbn.
  - destruct (FieldOptions.groupingConfig o) as [g |] eqn:Hg; cbn; split.
    + intros _. exists o, g. now split.
    + reflexivity.
    + discriminate.
    + intros (o' & g & Ho & Hg'). injection Ho as <-. congruence.
  - split; [discriminate |]. intros (o & g & Ho & _). discriminate Ho.
Qed.

(** C2.  [isStructuralChange f1 f2] is true exactly when the keys differ, or
    the types differ, or the strategies differ, or one of the two fields
    carries a [groupingConfig] and the other does not.  So an edit of the
    options alone (bounds, values, grouping counts and reset fields, pattern,
    static value, format) that keeps a [groupingConfig] present or absent is
    classified as not structural, and one that adds a [groupingConfig] or
    removes it is classified as structural. *)
Theorem isStructuralChange_classifies (f1 f2 : FieldConfig) :
  (isStructuralChange f1 f2 = true <->
     key f1 <> key f2 \/ type f1 <> type f2 \/ strategy f1 <> strategy f2
     \/ (carries_grouping f1 /\ ~ carries_grouping f2)
     \/ (~ carries_grouping f1 /\ carries_grouping f2))
  /\ (forall o1 o2 : option FieldOptions.t,
        (carries_grouping (with_options f1 o1)
         <-> carries_grouping (with_options f1 o2)) ->
        isStructuralChange (with_options f1 o1) (with_options f1 o2) = false)
  /\ (forall (o : FieldOptions.t) (g : GroupingConfig.t) (o' : option FieldOptions.t),
        FieldOptions.groupingConfig o = Some g ->
        ~ carries_grouping (with_options f1 o') ->
        isStructuralChange (with_options f1 o') (with_options f1 (Some o)) = true
        /\ isStructuralChange (with_options f1 (Some o)) (with_options f1 o') = true).
Proof.
  assert (Hcode : forall g1 g2,
             isStructuralChange g1 g2 = true <->
             key g1 <> key g2 \/ type g1 <> type g2 \/ strategy g1 <> strategy g2
             \/ hasGroup g1 <> hasGroup g2).
  { intros g1 g2. unfold isStructuralChange.
    destruct (String.eqb (key g1) (key g2)) eqn:Ek; simpl.
    2: { apply String.eqb_neq in Ek. tauto. }
    apply String.eqb_eq in Ek.
    destruct (FieldType_eqb (type g1) (type g2)) eqn:Et; simpl.
    2: { split; [intros _ | reflexivity]. right; left. intros E.
         apply FieldType_eqb_eq in E. congruence. }
    apply FieldType_eqb_eq in Et.
    destruct (GenerationStrategy_eqb (strategy g1) (strategy g2)) eqn:Es; simpl.
    2: { split; [intros _ | reflexivity]. right; right; left. intros E.
         apply GenerationStrategy_eqb_eq in E. congruence. }
    apply GenerationStrategy_eqb_eq in Es.
    destruct (Bool.eqb (hasGroup g1) (hasGroup g2)) eqn:Eg; simpl.
    2: { apply eqb_false_iff in Eg. tauto. }
    apply eqb_prop in Eg.
    destruct (negb (present (options g1)) && present (options g2)
              || present (options g1) && negb (present (options g2)));
      split; try discriminate; intros [H | [H | [H | H]]]; contradiction. }
  assert (Hgroup : forall g1 g2,
             hasGroup g1 <> hasGroup g2 <->
             (carries_grouping g1 /\ ~ carries_grouping g2)
             \/ (~ carries_grouping g1 /\ carries_grouping g2)).
  { intros g1 g2.
    assert (D : forall g, if hasGroup g then carries_grouping g
                          else ~ carries_grouping g).
    { intros g. pose proof (hasGroup_carries g) as Hg.
      destruct (hasGroup g); [now apply Hg |].
      intros C. apply Hg in C. discriminate C. }
    pose proof (D g1) as D1. pose proof (D g2) as D2.
    destruct (hasGroup g1), (hasGroup g2); split; intros H;
      try congruence; tauto. }
  assert (Hiff : forall g1 g2,
             isStructuralChange g1 g2 = true <->
             key g1 <> key g2 \/ type g1 <> type g2 \/ strategy g1 <> strategy g2
             \/ (carries_grouping g1 /\ ~ carries_grouping g2)
             \/ (~ carries_grouping g1 /\ carries_grouping g2)).
  { intros g1 g2. rewrite (Hcode g1 g2), (Hgroup g1 g2). tauto. }
  split; [apply Hiff |]. split.
  - intros o1 o2 Hsame.
    destruct (isStructuralChange (with_options f1 o1) (with_options f1 o2)) eqn:E;
      [| reflexivity].
    apply Hiff in E. cbn [with_options key type strategy] in E.
    destruct E as [H | [H | [H | [[H1 H2] | [H1 H2]]]]]; try congruence; tauto.
  - intros o g o' Hg Hnone.
    assert (Hsome : carries_grouping (with_options f1 (Some o))).
    { exists o, g. now split. }
    split; apply Hiff; tauto.
Qed.

(** ** Local inference *)

(** C3, at the input where the code departs from it: the key [userId] ends
    with [Id] and the value 7 is an integer, and the inferred strategy is
    [random_int] with bounds 0 and 14, not [increment]. *)
Theorem camelCase_Id_is_not_increment (Date_parse : string -> bool)
    (host_string : jsval -> string) :
  endsWith "userId" "Id" = true
  /\ determineStrategy Date_parse host_string "userId" (JNum (Int 7))
     = {| Inferred.strategy := RANDOM_INT;
          Inferred.options :=
            Some {| FieldOptions.min := Some (Int 0);
                    FieldOptions.max := Some (Int 14);
                    FieldOptions.step := None; FieldOptions.start := None;
                    FieldOptions.precision := None; FieldOptions.values := None;
                    FieldOptions.format := None; FieldOptions.pattern := None;
                    FieldOptions.staticValue := None;
                    FieldOptions.groupingConfig := None |};
          Inferred.description := None |}.
Proof. split; reflexivity. Qed.

(** The part of C3 the code does honour: an integer under a key that lower
    cases to [id], or to a text ending with [_id], is an [increment] that
    starts at the value and steps by 1. *)
Lemma determineStrategy_id (Date_parse : string -> bool) (host_string : jsval -> string)
    (key : string) (z : Z) :
  String.eqb (toLowerCase key) "id" || endsWith (toLowerCase key) "_id" = true ->
  let d := determineStrategy Date_parse host_string key (JNum (Int z)) in
  Inferred.strategy d = INCREMENT
  /\ Inferred.options d ≫= FieldOptions.start = Some (Int z)
  /\ Inferred.options d ≫= FieldOptions.step = Some (Int 1).
Proof.
  intros H. unfold determineStrategy.
  rewrite lowered_never_ends_with_Id, orb_false_r, H.
  repeat split; reflexivity.
Qed.

(** C4 as amended.  For an integer value [z] under a key that is not
    id-like, the inferred strategy is [random_int] with [min = 0] and
    [max = z * 2] when [z] is not 0 and [max = 100] when it is; [z * 2] is
    the integer [2 z] as long as that is exact. *)
Theorem determineStrategy_integer (Date_parse : string -> bool)
    (host_string : jsval -> string) (key : string) (z : Z) :
  id_like key = false ->
  let d := determineStrategy Date_parse host_string key (JNum (Int z)) in
  Inferred.strategy d = RANDOM_INT
  /\ Inferred.options d ≫= FieldOptions.min = Some (Int 0)
  /\ Inferred.options d ≫= FieldOptions.max
     = Some (if z =? 0 then Int 100 else mul (Int z) (Int 2))
  /\ (Z.abs z <= 2 ^ 52 -> mul (Int z) (Int 2) = Int (2 * z)).
Proof.
  intros Hid. unfold id_like in Hid.
  apply orb_false_elim in Hid as [Hid _].
  unfold determineStrategy.
  rewrite lowered_never_ends_with_Id, orb_false_r, Hid.
  split; [reflexivity |]. split; [reflexivity |]. split.
  - change (Some (double_or_100 (Int z))
            = Some (if z =? 0 then Int 100 else mul (Int z) (Int 2))).
    unfold double_or_100. rewrite double_truthy.
    now destruct (z =? 0).
  - intros Hz. rewrite mul_Int, round_int_safe by lia. f_equal. lia.
Qed.

Lemma determineStrategy_integer_witness :
  let d := determineStrategy (fun _ => false) (fun _ => "") "login_count" (JNum (Int 42)) in
  Inferred.strategy d = RANDOM_INT
  /\ Inferred.options d ≫= FieldOptions.min = Some (Int 0)
  /\ Inferred.options d ≫= FieldOptions.max
     = Some (if 42 =? 0 then Int 100 else mul (Int 42) (Int 2))
  /\ (Z.abs 42 <= 2 ^ 52 -> mul (Int 42) (Int 2) = Int (2 * 42)).
Proof.
  apply (determineStrategy_integer (fun _ => false) (fun _ => "") "login_count" 42).
  reflexivity.
Defined.

(** C4 as stated fails: [count] is not id-like and 10 is an integer, and
    the inferred maximum is 20, not [max(10 * 2, 100) = 100]. *)
Lemma determineStrategy_max_counterexample :
  id_like "count" = false
  /\ Inferred.options
       (determineStrategy (fun _ => false) (fun _ => "") "count" (JNum (Int 10)))
     ≫= FieldOptions.max <> Some (Int (Z.max (10 * 2) 100)).
Proof. split; [reflexivity | discriminate]. Qed.

(** ** The delegated-code executor *)

Section ExecutorFacts.
Variable host_string : jsval -> string.
Variable run_program : string -> nat -> list FieldConfig -> completion.

(** An array the program returns is handed back as it is. *)
Lemma executeGeneratedCode_array code count fields elems :
  run_program code count fields = Returns (JArr elems) ->
  executeGeneratedCode host_string run_program code count fields = Ok (JArr elems).
Proof. intros H. unfold executeGeneratedCode. now rewrite H. Qed.

(** Any other result is answered with the wrapped error. *)
Lemma executeGeneratedCode_not_array code count fields result :
  run_program code count fields = Returns result ->
  isArray result = false ->
  executeGeneratedCode host_string run_program code count fields
  = Throws (Error "Failed to execute generation logic: Generated code did not return an Array.").
Proof. intros H Ha. unfold executeGeneratedCode. now rewrite H, Ha. Qed.

(** A thrown [Error] is answered with the wrapped error, which carries
    its message. *)
Lemma executeGeneratedCode_error code count fields message :
  run_program code count fields = Raises (error_object message) ->
  executeGeneratedCode host_string run_program code count fields
  = Throws (Error ("Failed to execute generation logic: " ++ message)%string).
Proof. intros H. unfold executeGeneratedCode. now rewrite H. Qed.

(** The executor returns only arrays. *)
Lemma executeGeneratedCode_returns_array code count fields result :
  executeGeneratedCode host_string run_program code count fields = Ok result ->
  run_program code count fields = Returns result /\ isArray result = true.
Proof.
  unfold executeGeneratedCode, wrap.
  destruct (run_program code count fields) as [r | e].
  - destruct (isArray r) eqn:Ea; simpl; [| discriminate].
    intros [= <-]. auto.
  - destruct (message_of e); simpl; discriminate.
Qed.
End ExecutorFacts.

(** C9, at the input where the code departs from it: when the program
    throws [null], the [catch] clause fails reading [e.message], and the
    caller gets that [TypeError], not the wrapped error. *)
Theorem thrown_null_is_not_wrapped (host_string : jsval -> string)
    (code : string) (count : nat) (fields : list FieldConfig) :
  executeGeneratedCode host_string (fun _ _ _ => Raises JNull) code count fields
  = Throws TypeError.
Proof. reflexivity. Qed.

(** ** The generation engine: the shape of a run *)

Section EngineFacts.
Variable random_index : nat -> nat -> nat.
Variable ambient : nat -> nat -> jsval.

Local Abbreviation gen_field := (generate_field random_index ambient).
Local Abbreviation gen_fields := (generate_fields random_index ambient).
Local Abbreviation gen_rows := (generate_rows random_index ambient).
Local Abbreviation value_at := (generated random_index ambient).
Local Abbreviation calls_of := (generator_calls random_index ambient).
Local Abbreviation before_row := (run_before_row random_index ambient).
Local Abbreviation before := (run_before random_index ambient).

Lemma generate_fields_cons count fields i j f rest run :
  gen_fields count fields i j (f :: rest) run
  = (fst (gen_field count fields i j f run)
       :: fst (gen_fields count fields i (S j) rest
                 (snd (gen_field count fields i j f run))),
     snd (gen_fields count fields i (S j) rest
            (snd (gen_field count fields i j f run)))).
Proof.
  cbn [generate_fields].
  destruct (gen_field count fields i j f run) as [v run1]. cbn [fst snd].
  now destruct (gen_fields count fields i (S j) rest run1).
Qed.

Lemma generate_fields_app count fields i l1 : forall l2 j run,
  gen_fields count fields i j (l1 ++ l2) run
  = (fst (gen_fields count fields i j l1 run)
       ++ fst (gen_fields count fields i (j + length l1) l2
                 (snd (gen_fields count fields i j l1 run))),
     snd (gen_fields count fields i (j + length l1) l2
            (snd (gen_fields count fields i j l1 run)))).
Proof.
  induction l1 as [| f l1 IH]; intros l2 j run.
  - cbn [app length generate_fields fst snd].
    rewrite Nat.add_0_r. now destruct (gen_fields count fields i j l2 run).
  - rewrite <- app_comm_cons, !generate_fields_cons, IH. cbn [fst snd length].
    now rewrite Nat.add_succ_comm.
Qed.

Lemma generate_fields_length count fields i rest : forall j run,
  length (fst (gen_fields count fields i j rest run)) = length rest.
Proof.
  induction rest as [| f rest IH]; intros j run; [reflexivity |].
  rewrite generate_fields_cons. cbn [fst length]. now rewrite IH.
Qed.

Lemma generate_rows_succ count fields i n run :
  gen_rows count fields i (S n) run
  = (fst (gen_fields count fields i 0 fields run)
       :: fst (gen_rows count fields (S i) n
                 (snd (gen_fields count fields i 0 fields run))),
     snd (gen_rows count fields (S i) n
            (snd (gen_fields count fields i 0 fields run)))).
Proof.
  cbn [generate_rows].
  destruct (gen_fields count fields i 0 fields run) as [vals run1]. cbn [fst snd].
  now destruct (gen_rows count fields (S i) n run1).
Qed.

Lemma generate_rows_add count fields n : forall m i run,
  gen_rows count fields i (n + m) run
  = (fst (gen_rows count fields i n run)
       ++ fst (gen_rows count fields (i + n) m
                 (snd (gen_rows count fields i n run))),
     snd (gen_rows count fields (i + n) m
            (snd (gen_rows count fields i n run)))).
Proof.
  induction n as [| n IH]; intros m i run.
  - cbn [Nat.add generate_rows fst snd app].
    rewrite Nat.add_0_r. now destruct (gen_rows count fields i m run).
  - cbn [Nat.add]. rewrite !generate_rows_succ, IH. cbn [fst snd].
    now rewrite Nat.add_succ_comm.
Qed.

Lemma generate_rows_length count fields n : forall i run,
  length (fst (gen_rows count fields i n run)) = n.
Proof.
  induction n as [| n IH]; intros i run; [reflexivity |].
  rewrite generate_rows_succ. cbn [fst length]. now rewrite IH.
Qed.

Lemma run_before_row_succ count fields i :
  before_row count fields (S i)
  = snd (gen_fields count fields i 0 fields (before_row count fields i)).
Proof.
  unfold run_before_row. replace (S i) with (i + 1)%nat by lia.
  rewrite generate_rows_add. cbn [snd]. rewrite generate_rows_succ. reflexivity.
Qed.

(** The values of row [i] of a run for [count] rows. *)
Lemma generated_row count fields i :
  (i < count)%nat ->
  fst (gen_rows count fields 0 count (initial_run fields)) !! i
  = Some (fst (gen_fields count fields i 0 fields (before_row count fields i))).
Proof.
  intros Hi. replace count with (i + S (count - S i))%nat at 2 by lia.
  rewrite generate_rows_add. cbn [fst].
  rewrite lookup_app_r by (rewrite generate_rows_length; lia).
  rewrite generate_rows_length, Nat.sub_diag, generate_rows_succ.
  reflexivity.
Qed.

(** The value stored for a field is the one [generate_field] computes
    in the run as it stands when the field is reached. *)
Lemma generated_field count fields i j f :
  (i < count)%nat ->
  fields !! j = Some f ->
  value_at count fields i j
  = Some (fst (gen_field count fields i j f (before count fields i j))).
Proof.
  intros Hi Hj. unfold generated.
  rewrite generated_row by assumption. cbn [mbind option_bind].
  rewrite <- (take_drop_middle fields j f Hj) at 2.
  rewrite generate_fields_app. cbn [fst].
  assert (Hlen : length (take j fields) = j).
  { apply length_take_le. apply lookup_lt_Some in Hj. lia. }
  rewrite lookup_app_r by (rewrite generate_fields_length; lia).
  rewrite generate_fields_length, Hlen, Nat.sub_diag, generate_fields_cons.
  reflexivity.
Qed.

(** *** Fields that carry a [groupingConfig] *)

Lemma length_or_1_max values : length_or_1 values = Z.max (Z.of_nat (length values)) 1.
Proof. destruct values; simpl length_or_1; [reflexivity | simpl length; lia]. Qed.

(** The value of a grouping field does not depend on the run. *)
Lemma generate_field_grouped count fields i j field g run :
  FieldOptions.groupingConfig (options_or_empty field) = Some g ->
  fst (gen_field count fields i j field run)
  = enforce_type field
      (element_at (default [] (FieldOptions.values (options_or_empty field)))
         (group_index count (default [] (FieldOptions.values (options_or_empty field))) g i))
  /\ calls (snd (gen_field count fields i j field run)) = calls run.
Proof.
  intros Hg. unfold generate_field. rewrite Hg. split; reflexivity.
Qed.

Lemma generate_field_calls count fields i j f run :
  fields !! j = Some f ->
  Forall (call_of_plain_field fields) (calls run) ->
  Forall (call_of_plain_field fields) (calls (snd (gen_field count fields i j f run))).
Proof.
  intros Hj Hcalls. unfold generate_field.
  destruct (FieldOptions.groupingConfig (options_or_empty f)) as [g |] eqn:Hg.
  - exact Hcalls.
  - destruct (generator random_index ambient (strategy f) i j (state run) (key f)
                (options_or_empty f)) as [val st].
    cbn [snd calls]. apply Forall_app. split; [exact Hcalls |].
    apply Forall_singleton. exists f. auto.
Qed.

Lemma generate_fields_calls count fields i rest : forall j run,
  drop j fields = rest ->
  Forall (call_of_plain_field fields) (calls run) ->
  Forall (call_of_plain_field fields) (calls (snd (gen_fields count fields i j rest run))).
Proof.
  induction rest as [| f rest IH]; intros j run Hdrop Hcalls; [exact Hcalls |].
  rewrite generate_fields_cons. cbn [snd].
  assert (Hj : fields !! j = Some f).
  { rewrite <- (Nat.add_0_r j), <- lookup_drop, Hdrop. reflexivity. }
  apply IH.
  - rewrite (drop_S _ _ _ Hj) in Hdrop. congruence.
  - now apply generate_field_calls.
Qed.

Lemma generate_rows_calls count fields n : forall i run,
  Forall (call_of_plain_field fields) (calls run) ->
  Forall (call_of_plain_field fields) (calls (snd (gen_rows count fields i n run))).
Proof.
  induction n as [| n IH]; intros i run Hcalls; [exact Hcalls |].
  rewrite generate_rows_succ. cbn [snd]. apply IH.
  now apply generate_fields_calls.
Qed.

(** C10 as amended.  For a field that carries a [groupingConfig], at
    position [j] of the list: no generator call of the run is made for that
    position; the value stored in row [i] comes from the element of [values]
    at index [floor(i / size) % max(len(values), 1)] and from nothing else,
    where [size] is [max(1, floor(count / len))] for the strategy [even] and
    [countPerGroup], or 1 if that is 0 or missing, otherwise: it is that
    element after the type enforcement of static fields, so the element
    itself when the field is not static; and when [values] is empty or
    missing the stored value is [undefined] in every row, whatever the
    strategy of the field. *)
Theorem grouping_bypasses_generator (count : nat) (fields : list FieldConfig)
    (j : nat) (field : FieldConfig) (g : GroupingConfig.t) :
  fields !! j = Some field ->
  FieldOptions.groupingConfig (options_or_empty field) = Some g ->
  let values := default [] (FieldOptions.values (options_or_empty field)) in
  let len := Z.max (Z.of_nat (length values)) 1 in
  let size := match GroupingConfig.strategy g with
              | GroupingConfig.even => Z.max 1 (Z.of_nat count / len)
              | GroupingConfig.fixed =>
                  match GroupingConfig.countPerGroup g with
                  | Some c => if c =? 0 then 1 else c
                  | None => 1
                  end
              end in
  let looked_up i :=
    if Z.rem (Z.of_nat i / size) len <? 0 then None
    else values !! Z.to_nat (Z.rem (Z.of_nat i / size) len) in
  (forall c, c ∈ calls_of count fields -> call_field c <> j)
  /\ (forall i, (i < count)%nat ->
        value_at count fields i j
        = Some (match looked_up i with
                | Some v => enforce_type field (JStr v)
                | None => JUndefined
                end))
  /\ (strategy field <> STATIC ->
      forall i, (i < count)%nat ->
        value_at count fields i j
        = Some (match looked_up i with
                | Some v => JStr v
                | None => JUndefined
                end))
  /\ (values = [] ->
      forall i, (i < count)%nat -> value_at count fields i j = Some JUndefined).
Proof.
  intros Hj Hg values len size looked_up.
  assert (Hvalue : forall i, (i < count)%nat ->
            value_at count fields i j
            = Some (match looked_up i with
                    | Some v => enforce_type field (JStr v)
                    | None => JUndefined
                    end)).
  { intros i Hi. rewrite (generated_field count fields i j field Hi Hj).
    destruct (generate_field_grouped count fields i j field g
                (before count fields i j) Hg) as [-> _].
    unfold group_index, group_size. fold values. rewrite length_or_1_max.
    fold len. fold size. unfold element_at, looked_up.
    destruct (Z.rem (Z.of_nat i / size) len <? 0).
    - unfold enforce_type. now destruct (strategy field).
    - destruct (values !! Z.to_nat (Z.rem (Z.of_nat i / size) len)); [reflexivity |].
      unfold enforce_type. now destruct (strategy field). }
  split; [| split; [| split]].
  - intros c Hc Hcj.
    assert (Hall : Forall (call_of_plain_field fields) (calls_of count fields)).
    { unfold generator_calls. apply generate_rows_calls. constructor. }
    rewrite Forall_forall in Hall. destruct (Hall c Hc) as (f & Hf & Hnone & _).
    rewrite Hcj in Hf. congruence.
  - exact Hvalue.
  - intros Hstatic i Hi. rewrite (Hvalue i Hi).
    destruct (looked_up i); [| reflexivity]. unfold enforce_type.
    destruct (strategy field); congruence.
  - intros Hempty i Hi. rewrite (Hvalue i Hi). unfold looked_up. rewrite Hempty.
    destruct (_ <? 0); [reflexivity |]. now rewrite lookup_nil.
Qed.

Lemma element_at_lookup (values : list string) (n : nat) (v : string) :
  values !! n = Some v -> element_at values (Z.of_nat n) = JStr v.
Proof.
  intros H. unfold element_at.
  destruct (Z.of_nat n <? 0) eqn:E; [zify_bool; lia |].
  rewrite Nat2Z.id. now rewrite H.
Qed.

(** C6 as amended.  For a grouping field with strategy [fixed],
    [countPerGroup = c > 0] and a non-empty [values] of length [L], the
    value stored in row [i] is [values[floor(i / c) % L]] passed through the
    type enforcement of static fields; it is that element itself whenever the
    strategy of the field is not [static]. *)
Theorem fixed_grouping_value (count : nat) (fields : list FieldConfig) (j : nat)
    (field : FieldConfig) (g : GroupingConfig.t) (c : Z) (values : list string) :
  fields !! j = Some field ->
  FieldOptions.groupingConfig (options_or_empty field) = Some g ->
  GroupingConfig.strategy g = GroupingConfig.fixed ->
  GroupingConfig.countPerGroup g = Some c ->
  0 < c ->
  FieldOptions.values (options_or_empty field) = Some values ->
  values <> [] ->
  forall i, (i < count)%nat ->
    exists v,
      values !! Z.to_nat ((Z.of_nat i / c) mod Z.of_nat (length values)) = Some v
      /\ value_at count fields i j = Some (enforce_type field (JStr v))
      /\ (strategy field <> STATIC -> value_at count fields i j = Some (JStr v)).
Proof.
  intros Hj Hg Hfixed Hc Hpos Hvalues Hne i Hi.
  set (L := Z.of_nat (length values)).
  assert (HL : 0 < L).
  { unfold L. destruct values; [congruence | simpl length; lia]. }
  set (idx := (Z.of_nat i / c) mod L).
  assert (Hidx : 0 <= idx < L) by (apply Z.mod_pos_bound; lia).
  destruct (lookup_lt_is_Some_2 values (Z.to_nat idx)) as [v Hv]; [unfold L in *; lia |].
  exists v. split; [exact Hv |].
  assert (Hvalue : value_at count fields i j = Some (enforce_type field (JStr v))).
  { rewrite (generated_field count fields i j field Hi Hj).
    destruct (generate_field_grouped count fields i j field g
                (before count fields i j) Hg) as [-> _].
    rewrite Hvalues. change (default [] (Some values)) with values.
    unfold group_index, group_size.
    rewrite Hfixed, Hc.
    destruct (c =? 0) eqn:E0; [zify_bool; lia |].
    replace (length_or_1 values) with L
      by (unfold L; destruct values; [congruence | reflexivity]).
    rewrite Z.rem_mod_nonneg by (try apply Z.div_pos; lia).
    fold idx. rewrite <- (Z2Nat.id idx) by lia.
    now rewrite (element_at_lookup values _ v Hv). }
  split; [exact Hvalue |].
  intros Hstatic. rewrite Hvalue. unfold enforce_type.
  destruct (strategy field); congruence.
Qed.

(** *** Static fields *)

Lemma generate_field_static count fields i j field run :
  strategy field = STATIC ->
  FieldOptions.groupingConfig (options_or_empty field) = None ->
  fst (gen_field count fields i j field run)
  = enforce_type field
      (default JUndefined (FieldOptions.staticValue (options_or_empty field))).
Proof.
  intros Hs Hg. unfold generate_field. rewrite Hg, Hs. cbn [generator fst].
  now destruct (FieldOptions.staticValue (options_or_empty field)).
Qed.

(** C8 as amended.  For a field with strategy [static] and no
    [groupingConfig], in any row of a run: with type [number] and static
    value ["42"] the stored value is the number 42; with type [boolean] and
    static value ["true"] it is the boolean [true]; and with type [number]
    and a static text that does not read as a number the stored value is
    that text, unchanged (the store happens: the failed conversion raises
    nothing). *)
Theorem static_coercion (count : nat) (fields : list FieldConfig) (i j : nat)
    (field : FieldConfig) :
  fields !! j = Some field ->
  strategy field = STATIC ->
  FieldOptions.groupingConfig (options_or_empty field) = None ->
  (i < count)%nat ->
  (type field = NUMBER ->
   FieldOptions.staticValue (options_or_empty field) = Some (JStr "42") ->
   value_at count fields i j = Some (JNum (Int 42)))
  /\ (type field = BOOLEAN ->
      FieldOptions.staticValue (options_or_empty field) = Some (JStr "true") ->
      value_at count fields i j = Some (JBool true))
  /\ (forall text,
        type field = NUMBER ->
        FieldOptions.staticValue (options_or_empty field) = Some (JStr text) ->
        isNaN (StringToNumber text) = true ->
        value_at count fields i j = Some (JStr text)).
Proof.
  intros Hj Hs Hg Hi.
  rewrite (generated_field count fields i j field Hi Hj).
  rewrite (generate_field_static count fields i j field _ Hs Hg).
  unfold enforce_type. rewrite Hs.
  split; [| split].
  - intros -> ->. reflexivity.
  - intros -> ->. reflexivity.
  - intros text -> -> Hnan.
    change (default JUndefined (Some (JStr text))) with (JStr text).
    change (ToNumber (JStr text)) with (StringToNumber text).
    cbv zeta. now rewrite Hnan.
Qed.

(** *** Counters *)

Lemma reset_counters_cons fields r rf st :
  reset_counters fields (r :: rf) st
  = reset_counters fields rf
      (match find_field fields r with
       | Some targetField =>
           match strategy targetField with
           | INCREMENT => <[r := configured_start targetField]> st
           | _ => st
           end
       | None => st
       end).
Proof. reflexivity. Qed.

(** A reset leaves the counters it does not name as they are. *)
Lemma reset_counters_other fields k rf : forall st : gmap string number,
  existsb (String.eqb k) rf = false ->
  reset_counters fields rf st !! k = st !! k.
Proof.
  induction rf as [| r rf IH]; intros st Hk; [reflexivity |].
  cbn [existsb] in Hk. apply orb_false_elim in Hk as [Hr Hrf].
  apply String.eqb_neq in Hr.
  rewrite reset_counters_cons, IH by exact Hrf.
  destruct (find_field fields r) as [t |]; [| reflexivity].
  destruct (strategy t); try reflexivity.
  now apply lookup_insert_ne.
Qed.

(** A counter that stands at its start stays there through a reset. *)
Lemma reset_counters_stable fields k F rf : forall st : gmap string number,
  find_field fields k = Some F ->
  strategy F = INCREMENT ->
  st !! k = Some (configured_start F) ->
  reset_counters fields rf st !! k = Some (configured_start F).
Proof.
  induction rf as [| r rf IH]; intros st Hfind Hinc Hk; [exact Hk |].
  rewrite reset_counters_cons. apply IH; [assumption | assumption |].
  destruct (String.eqb_spec r k) as [-> | Hne].
  - rewrite Hfind, Hinc. apply lookup_insert_eq.
  - destruct (find_field fields r) as [t |]; [| exact Hk].
    destruct (strategy t); try exact Hk.
    now rewrite lookup_insert_ne.
Qed.

(** A reset that names an increment field puts its counter at its start. *)
Lemma reset_counters_hit fields k F rf : forall st : gmap string number,
  In k rf ->
  find_field fields k = Some F ->
  strategy F = INCREMENT ->
  reset_counters fields rf st !! k = Some (configured_start F).
Proof.
  induction rf as [| r rf IH]; intros st Hin Hfind Hinc; [destruct Hin |].
  rewrite reset_counters_cons.
  destruct (String.eqb_spec r k) as [-> | Hne].
  - rewrite Hfind, Hinc.
    apply (reset_counters_stable fields k F); [assumption | assumption |].
    apply lookup_insert_eq.
  - destruct Hin as [-> | Hin]; [contradiction |]. now apply IH.
Qed.

Lemma find_field_unique fields p F :
  NoDup (map key fields) ->
  fields !! p = Some F ->
  find_field fields (key F) = Some F.
Proof.
  revert p. induction fields as [| f fields IH]; intros p Hnd Hp; [discriminate |].
  cbn [map] in Hnd. apply NoDup_cons in Hnd as [Hnotin Hnd].
  unfold find_field. cbn [find].
  destruct p as [| p].
  - injection Hp as ->. now rewrite String.eqb_refl.
  - cbn in Hp.
    destruct (String.eqb_spec (key f) (key F)) as [E | _].
    + exfalso. apply Hnotin. rewrite E. apply list_elem_of_fmap.
      exists F. split; [reflexivity |]. now apply list_elem_of_lookup_2 in Hp.
    + now apply (IH p).
Qed.

(** The other fields of a list without duplicate keys have other keys. *)
Lemma other_keys fields p F :
  NoDup (map key fields) ->
  fields !! p = Some F ->
  Forall (fun f => key f <> key F) (take p fields)
  /\ Forall (fun f => key f <> key F) (drop (S p) fields).
Proof.
  intros Hnd Hp. rewrite <- (take_drop_middle fields p F Hp) in Hnd.
  rewrite map_app in Hnd. cbn [map] in Hnd.
  apply NoDup_app in Hnd as (_ & Hdisj & Hright).
  apply NoDup_cons in Hright as [Hnotin _].
  split; apply Forall_forall; intros f Hf E.
  - apply (Hdisj (key F)).
    + rewrite <- E. apply list_elem_of_fmap. now exists f.
    + left.
  - apply Hnotin. rewrite <- E. apply list_elem_of_fmap. now exists f.
Qed.

Lemma generator_other_key s i j (st : gmap string number) k' opts k :
  k' <> k ->
  snd (generator random_index ambient s i j st k' opts) !! k = st !! k.
Proof.
  intros Hne. destruct s; cbn [generator snd]; try reflexivity.
  - now apply lookup_insert_ne.
  - destruct (FieldOptions.values opts) as [[| ]|]; reflexivity.
Qed.

(** A field that is not reset-targeting [k] and has another key leaves the
    counter of [k] as it is. *)
Lemma generate_field_keeps count fields i j f run k :
  key f <> k ->
  match FieldOptions.groupingConfig (options_or_empty f) with
  | Some g => existsb (String.eqb k) (GroupingConfig.resetFields g)
  | None => false
  end = false ->
  state (snd (gen_field count fields i j f run)) !! k = state run !! k.
Proof.
  intros Hne Hreset. unfold generate_field.
  destruct (FieldOptions.groupingConfig (options_or_empty f)) as [g |].
  - cbn [snd state].
    destruct (_ && _); [| reflexivity].
    now apply reset_counters_other.
  - pose proof (generator_other_key (strategy f) i j (state run) (key f)
                  (options_or_empty f) k Hne) as H.
    destruct (generator random_index ambient (strategy f) i j (state run) (key f)
                (options_or_empty f)) as [val st].
    exact H.
Qed.

(** A field with another key leaves a counter that stands at its start
    there, whether it resets it or not. *)
Lemma generate_field_stable count fields i j f run k F :
  key f <> k ->
  find_field fields k = Some F ->
  strategy F = INCREMENT ->
  state run !! k = Some (configured_start F) ->
  state (snd (gen_field count fields i j f run)) !! k = Some (configured_start F).
Proof.
  intros Hne Hfind Hinc Hk. unfold generate_field.
  destruct (FieldOptions.groupingConfig (options_or_empty f)) as [g |].
  - cbn [snd state].
    destruct (_ && _); [| exact Hk].
    now apply (reset_counters_stable fields k F).
  - pose proof (generator_other_key (strategy f) i j (state run) (key f)
                  (options_or_empty f) k Hne) as H.
    destruct (generator random_index ambient (strategy f) i j (state run) (key f)
                (options_or_empty f)) as [val st].
    cbn [snd state] in *. now rewrite H.
Qed.

(** An increment field without [groupingConfig] emits its counter and adds
    the step to it. *)
Lemma generate_field_increment count fields i j F run v :
  strategy F = INCREMENT ->
  FieldOptions.groupingConfig (options_or_empty F) = None ->
  state run !! key F = Some v ->
  fst (gen_field count fields i j F run) = JNum v
  /\ state (snd (gen_field count fields i j F run)) !! key F
     = Some (add v (or_1 (FieldOptions.step (options_or_empty F)))).
Proof.
  intros Hinc Hg Hv. unfold generate_field.
  rewrite Hg, Hinc. cbn [generator]. rewrite Hv. cbn [fst snd state].
  split.
  - unfold enforce_type. now rewrite Hinc.
  - apply lookup_insert_eq.
Qed.

Lemma generate_fields_keeps count fields i k l : forall j run,
  Forall (fun f => key f <> k) l ->
  targeted_by_reset l k = false ->
  state (snd (gen_fields count fields i j l run)) !! k = state run !! k.
Proof.
  induction l as [| f l IH]; intros j run Hkeys Hreset; [reflexivity |].
  apply Forall_cons in Hkeys as [Hf Hkeys].
  unfold targeted_by_reset in Hreset. cbn [existsb] in Hreset.
  apply orb_false_elim in Hreset as [Hrf Hreset].
  rewrite generate_fields_cons. cbn [snd].
  rewrite IH by assumption.
  now apply generate_field_keeps.
Qed.

Lemma generate_fields_stable count fields i k F l : forall j run,
  Forall (fun f => key f <> k) l ->
  find_field fields k = Some F ->
  strategy F = INCREMENT ->
  state run !! k = Some (configured_start F) ->
  state (snd (gen_fields count fields i j l run)) !! k = Some (configured_start F).
Proof.
  induction l as [| f l IH]; intros j run Hkeys Hfind Hinc Hk; [exact Hk |].
  apply Forall_cons in Hkeys as [Hf Hkeys].
  rewrite generate_fields_cons. cbn [snd].
  apply IH; try assumption.
  now apply generate_field_stable.
Qed.

Lemma targeted_by_reset_app l1 l2 k :
  targeted_by_reset (l1 ++ l2) k = targeted_by_reset l1 k || targeted_by_reset l2 k.
Proof. unfold targeted_by_reset. apply existsb_app. Qed.

Lemma initial_state_keeps k l : forall st : gmap string number,
  Forall (fun f => key f <> k) l ->
  fold_left (fun st f =>
               match strategy f with
               | INCREMENT => <[key f := configured_start f]> st
               | _ => st
               end) l st !! k = st !! k.
Proof.
  induction l as [| f l IH]; intros st Hkeys; [reflexivity |].
  apply Forall_cons in Hkeys as [Hf Hkeys].
  cbn [fold_left]. rewrite IH by assumption.
  destruct (strategy f); try reflexivity.
  now apply lookup_insert_ne.
Qed.

(** The run starts with the counter of an increment field at its start. *)
Lemma initial_state_start fields p F :
  NoDup (map key fields) ->
  fields !! p = Some F ->
  strategy F = INCREMENT ->
  initial_state fields !! key F = Some (configured_start F).
Proof.
  intros Hnd Hp Hinc.
  destruct (other_keys fields p F Hnd Hp) as [Hleft Hright].
  unfold initial_state. rewrite <- (take_drop_middle fields p F Hp).
  rewrite fold_left_app. cbn [fold_left]. rewrite Hinc.
  rewrite initial_state_keeps by exact Hright.
  apply lookup_insert_eq.
Qed.

(** One row, seen from an increment field [F] between fields [l1] and [l2]
    that neither share its key nor reset it: the row stores the counter of
    [F] at the position of [F] and leaves it advanced by the step. *)
Lemma generate_fields_increment count fields i l1 F l2 j run v :
  Forall (fun f => key f <> key F) l1 ->
  Forall (fun f => key f <> key F) l2 ->
  targeted_by_reset l1 (key F) = false ->
  targeted_by_reset l2 (key F) = false ->
  strategy F = INCREMENT ->
  FieldOptions.groupingConfig (options_or_empty F) = None ->
  state run !! key F = Some v ->
  fst (gen_fields count fields i j (l1 ++ F :: l2) run) !! length l1 = Some (JNum v)
  /\ state (snd (gen_fields count fields i j (l1 ++ F :: l2) run)) !! key F
     = Some (add v (or_1 (FieldOptions.step (options_or_empty F)))).
Proof.
  intros Hk1 Hk2 Hr1 Hr2 Hinc Hg Hv.
  rewrite generate_fields_app, generate_fields_cons. cbn [fst snd].
  set (run1 := snd (gen_fields count fields i j l1 run)).
  assert (Hv1 : state run1 !! key F = Some v).
  { unfold run1. now rewrite generate_fields_keeps. }
  destruct (generate_field_increment count fields i (j + length l1) F run1 v Hinc Hg Hv1)
    as [Hval Hst].
  split.
  - rewrite lookup_app_r by (rewrite generate_fields_length; lia).
    rewrite generate_fields_length, Nat.sub_diag. cbn. now rewrite Hval.
  - now rewrite generate_fields_keeps.
Qed.

(** C7 as amended.  In a list the model covers, without duplicate keys, for
    a field with strategy [increment], no [groupingConfig] of its own,
    integer options [start = s] and [step = k] with [k] not 0, and whose key
    no grouping field names in its [resetFields], the value stored in row
    [i] is [s + i * k], as long as that and [s] are integers a double holds
    exactly. *)
Theorem increment_value (count : nat) (fields : list FieldConfig) (p : nat)
    (F : FieldConfig) (o : FieldOptions.t) (s k : Z) (i : nat) :
  modelled fields = true ->
  NoDup (map key fields) ->
  fields !! p = Some F ->
  strategy F = INCREMENT ->
  options F = Some o ->
  FieldOptions.start o = Some (Int s) ->
  FieldOptions.step o = Some (Int k) ->
  k <> 0 ->
  FieldOptions.groupingConfig o = None ->
  targeted_by_reset fields (key F) = false ->
  (i < count)%nat ->
  Z.abs s <= 2 ^ 53 ->
  Z.abs (s + Z.of_nat i * k) <= 2 ^ 53 ->
  value_at count fields i p = Some (JNum (Int (s + Z.of_nat i * k))).
Proof.
  intros _ Hnd Hp Hinc Ho Hstart Hstep Hk Hg Hreset Hi Hs Hsi.
  assert (Hopts : options_or_empty F = o) by (unfold options_or_empty; now rewrite Ho).
  assert (Hg' : FieldOptions.groupingConfig (options_or_empty F) = None) by now rewrite Hopts.
  assert (Hcfg : configured_start F = Int s).
  { unfold configured_start. rewrite Ho. cbn. now rewrite Hstart. }
  assert (Hor : or_1 (FieldOptions.step (options_or_empty F)) = Int k).
  { rewrite Hopts, Hstep. unfold or_1. rewrite truthy_Int.
    destruct (k =? 0) eqn:E; [zify_bool; contradiction | reflexivity]. }
  destruct (other_keys fields p F Hnd Hp) as [Hleft Hright].
  pose proof Hreset as Hparts.
  rewrite <- (take_drop_middle fields p F Hp) in Hparts.
  rewrite targeted_by_reset_app in Hparts.
  apply orb_false_elim in Hparts as [Hr1 Hr2].
  change (F :: drop (S p) fields) with ([F] ++ drop (S p) fields) in Hr2.
  rewrite targeted_by_reset_app in Hr2. apply orb_false_elim in Hr2 as [_ Hr2].
  assert (Hrow : forall i' run v,
             state run !! key F = Some v ->
             state (snd (gen_fields count fields i' 0 fields run)) !! key F
             = Some (add v (Int k))).
  { intros i' run v Hv.
    destruct (generate_fields_increment count fields i' (take p fields) F
                (drop (S p) fields) 0 run v Hleft Hright Hr1 Hr2 Hinc Hg' Hv) as [_ H].
    rewrite (take_drop_middle fields p F Hp), Hor in H. exact H. }
  assert (Hcounter : forall i', (i' <= i)%nat ->
             state (before_row count fields i') !! key F
             = Some (Int (s + Z.of_nat i' * k))).
  { induction i' as [| i' IH]; intros Hle.
    - unfold run_before_row. cbn [generate_rows snd initial_run state].
      rewrite (initial_state_start fields p F Hnd Hp Hinc), Hcfg.
      do 2 f_equal. lia.
    - rewrite run_before_row_succ, (Hrow i' _ _ (IH ltac:(lia))).
      rewrite add_Int_safe by nia. do 2 f_equal. lia. }
  rewrite (generated_field count fields i p F Hi Hp).
  assert (Hhere : state (before count fields i p) !! key F
                  = Some (Int (s + Z.of_nat i * k))).
  { unfold run_before. rewrite generate_fields_keeps by assumption.
    apply Hcounter. lia. }
  destruct (generate_field_increment count fields i p F _ _ Hinc Hg' Hhere) as [-> _].
  reflexivity.
Qed.

(** What holds of C5: a grouping field placed before an increment field it
    names in [resetFields] puts the counter back before the increment field
    is reached, so the increment field stores its start in every row that
    opens a group. *)
Lemma reset_reaches_later_field (count : nat) (fields : list FieldConfig)
    (q p : nat) (G F : FieldConfig) (g : GroupingConfig.t) (i : nat) :
  modelled fields = true ->
  NoDup (map key fields) ->
  fields !! q = Some G ->
  FieldOptions.groupingConfig (options_or_empty G) = Some g ->
  In (key F) (GroupingConfig.resetFields g) ->
  fields !! p = Some F ->
  (q < p)%nat ->
  strategy F = INCREMENT ->
  FieldOptions.groupingConfig (options_or_empty F) = None ->
  (0 < i < count)%nat ->
  Z.rem (Z.of_nat i)
    (group_size count
       (length_or_1 (default [] (FieldOptions.values (options_or_empty G)))) g) = 0 ->
  value_at count fields i p = Some (JNum (configured_start F)).
Proof.
  intros _ Hnd Hq Hg Hin Hp Hqp Hinc HgF Hi Hboundary.
  pose proof (find_field_unique fields p F Hnd Hp) as Hfind.
  destruct (other_keys fields p F Hnd Hp) as [Hleft _].
  rewrite (generated_field count fields i p F ltac:(lia) Hp).
  assert (Hq' : take p fields !! q = Some G) by (rewrite lookup_take_lt; assumption).
  assert (Hhere : state (before count fields i p) !! key F
                  = Some (configured_start F)).
  { unfold run_before.
    rewrite <- (take_drop_middle (take p fields) q G Hq') in Hleft |- *.
    apply Forall_app in Hleft as [_ Hleft].
    apply Forall_cons in Hleft as [_ Hleft].
    rewrite generate_fields_app, generate_fields_cons. cbn [snd].
    apply generate_fields_stable; try assumption.
    unfold generate_field. rewrite Hg. cbn [snd state].
    rewrite Hboundary.
    destruct (0 <? Z.of_nat i) eqn:E; [| zify_bool; lia].
    cbn [andb Z.eqb]. now apply (reset_counters_hit fields (key F) F). }
  destruct (generate_field_increment count fields i p F _ _ Hinc HgF Hhere) as [-> _].
  reflexivity.
Qed.

End EngineFacts.

(** ** The generation engine on sample configurations *)

Lemma grouping_bypasses_generator_witness :
  (forall c, c ∈ generator_calls Sample.no_draw Sample.no_ambient 4 [Sample.team; Sample.id] ->
             call_field c <> 0%nat)
  /\ map (fun i => generated Sample.no_draw Sample.no_ambient 4 [Sample.team; Sample.id] i 0)
         [0; 1; 2; 3]%nat
     = map (fun v => Some (JStr v)) ["A"; "A"; "B"; "B"]
  /\ generated Sample.no_draw Sample.no_ambient 4 [Sample.unlabelled] 3 0
     = Some JUndefined.
Proof.
  destruct (grouping_bypasses_generator Sample.no_draw Sample.no_ambient 4
              [Sample.team; Sample.id] 0 Sample.team (Sample.per_group 2 ["id"])
              eq_refl eq_refl) as (Hcalls & _ & Hvalue & _).
  split; [exact Hcalls |]. split.
  - cbn [map].
    rewrite (Hvalue ltac:(discriminate) 0%nat ltac:(lia)),
            (Hvalue ltac:(discriminate) 1%nat ltac:(lia)),
            (Hvalue ltac:(discriminate) 2%nat ltac:(lia)),
            (Hvalue ltac:(discriminate) 3%nat ltac:(lia)).
    reflexivity.
  - apply (grouping_bypasses_generator Sample.no_draw Sample.no_ambient 4
             [Sample.unlabelled] 0 Sample.unlabelled (Sample.per_group 2 [])
             eq_refl eq_refl).
    + reflexivity.
    + lia.
Defined.

(** C10 as stated fails where the field is static: the boolean field
    [active] is a grouping field with the values ["true", "false"] spread
    evenly over four rows; in row 0 the cyclic lookup gives the text
    ["true"], and the value stored is the boolean [true]. *)
Lemma grouped_static_counterexample :
  ["true"; "false"]
    !! Z.to_nat (Z.rem (Z.of_nat 0 / Z.max 1 (Z.of_nat 4 / Z.max (Z.of_nat 2) 1))
                       (Z.max (Z.of_nat 2) 1))
  = Some "true"
  /\ generated Sample.no_draw Sample.no_ambient 4 [Sample.active] 0 0 = Some (JBool true)
  /\ generated Sample.no_draw Sample.no_ambient 4 [Sample.active] 0 0 <> Some (JStr "true").
Proof. split; [reflexivity | split; [reflexivity | discriminate]]. Qed.

Lemma fixed_grouping_value_witness :
  exists v,
    ["A"; "B"] !! Z.to_nat ((Z.of_nat 2 / 2) mod Z.of_nat (length ["A"; "B"])) = Some v
    /\ generated Sample.no_draw Sample.no_ambient 4 [Sample.team; Sample.id] 2 0
       = Some (enforce_type Sample.team (JStr v))
    /\ (strategy Sample.team <> STATIC ->
        generated Sample.no_draw Sample.no_ambient 4 [Sample.team; Sample.id] 2 0
        = Some (JStr v)).
Proof.
  apply (fixed_grouping_value Sample.no_draw Sample.no_ambient 4
           [Sample.team; Sample.id] 0 Sample.team (Sample.per_group 2 ["id"]) 2 ["A"; "B"]);
    try reflexivity; try lia; discriminate.
Defined.

(** C6 as stated fails: the static number field [level] is a grouping field
    with [countPerGroup = 2] and [values = ["1", "2"]]; in row 0 the element
    looked up is the text ["1"], and the value stored is the number 1. *)
Lemma fixed_grouping_counterexample :
  ["1"; "2"] !! Z.to_nat ((Z.of_nat 0 / 2) mod Z.of_nat (length ["1"; "2"])) = Some "1"
  /\ generated Sample.no_draw Sample.no_ambient 4 [Sample.level] 0 0 = Some (JNum (Int 1))
  /\ generated Sample.no_draw Sample.no_ambient 4 [Sample.level] 0 0 <> Some (JStr "1").
Proof. split; [reflexivity | split; [reflexivity | discriminate]]. Qed.

Lemma increment_value_witness :
  generated Sample.no_draw Sample.no_ambient 3 [Sample.id] 2 0
  = Some (JNum (Int (1001 + Z.of_nat 2 * 1))).
Proof.
  apply (increment_value Sample.no_draw Sample.no_ambient 3 [Sample.id] 0 Sample.id
           (Sample.counting 1001 1) 1001 1 2);
    try reflexivity; try lia; try discriminate.
  apply NoDup_singleton.
Defined.

(** C7 as stated fails: with [start = 5] and [step = 0] the second row holds
    6, not [5 + 1 * 0]; and an increment field that carries a
    [groupingConfig] holds the element of its [values], not its counter. *)
Lemma increment_step_counterexample :
  generated Sample.no_draw Sample.no_ambient 3 [Sample.still] 1 0 = Some (JNum (Int 6))
  /\ generated Sample.no_draw Sample.no_ambient 3 [Sample.still] 1 0
     <> Some (JNum (Int (5 + Z.of_nat 1 * 0)))
  /\ generated Sample.no_draw Sample.no_ambient 3 [Sample.grouped_serial] 0 0
     = Some (JStr "A")
  /\ generated Sample.no_draw Sample.no_ambient 3 [Sample.grouped_serial] 0 0
     <> Some (JNum (Int (5 + Z.of_nat 0 * 1))).
Proof.
  split; [reflexivity |]. split; [discriminate |].
  split; [reflexivity | discriminate].
Qed.

(** With a step that is no integer the sum is rounded at every row: ten
    steps of 0.1 from 0 give 0.9999999999999999, and [0 + 10 * 0.1] is 1. *)
Lemma increment_fraction_rounds :
  generated Sample.no_draw Sample.no_ambient 11 [Sample.tenths] 10 0
  = Some (JNum (StringToNumber "0.9999999999999999"))
  /\ add (Int 0) (mul (Int 10) (StringToNumber "0.1")) = Int 1.
Proof. split; vm_compute; reflexivity. Qed.

Lemma static_coercion_witness :
  generated Sample.no_draw Sample.no_ambient 2 [Sample.answer] 1 0 = Some (JNum (Int 42))
  /\ generated Sample.no_draw Sample.no_ambient 2 [Sample.answer; Sample.agreed] 1 1
     = Some (JBool true)
  /\ generated Sample.no_draw Sample.no_ambient 2 [Sample.worded] 0 0 = Some (JStr "abc").
Proof.
  split; [| split].
  - apply (static_coercion Sample.no_draw Sample.no_ambient 2 [Sample.answer] 1 0
             Sample.answer); try reflexivity. lia.
  - apply (static_coercion Sample.no_draw Sample.no_ambient 2
             [Sample.answer; Sample.agreed] 1 1 Sample.agreed); try reflexivity. lia.
  - apply (static_coercion Sample.no_draw Sample.no_ambient 2 [Sample.worded] 0 0
             Sample.worded); try reflexivity. lia.
Defined.

(** C8 as stated fails: [level] is a static field of type [number] with
    static value ["42"], and being a grouping field it stores the element of
    [values] for the row, the number 1 in row 0, not 42. *)
Lemma static_grouped_counterexample :
  strategy Sample.level = STATIC
  /\ type Sample.level = NUMBER
  /\ FieldOptions.staticValue (options_or_empty Sample.level) = Some (JStr "42")
  /\ generated Sample.no_draw Sample.no_ambient 4 [Sample.level] 0 0 <> Some (JNum (Int 42)).
Proof. split; [reflexivity |]. split; [reflexivity |]. split; [reflexivity | discriminate]. Qed.

(** C5, at the input where the code departs from it: the counter [id]
    starts at 1 and comes before the grouping field [team], which has groups
    of 2 and resets [id].  Rows 2 and 4 open a group, and [id] holds 3 and 2
    there: the counter is put back only after [id] has been stored, so the
    start shows one row late. *)
Theorem reset_misses_earlier_field (random_index : nat -> nat -> nat)
    (ambient : nat -> nat -> jsval) :
  map (fun i => generated random_index ambient 6 [Sample.serial; Sample.team] i 0)
      [0; 1; 2; 3; 4; 5]%nat
  = map (fun z => Some (JNum (Int z))) [1; 2; 3; 1; 2; 1]
  /\ configured_start Sample.serial = Int 1
  /\ Z.rem 2 (group_size 6 (length_or_1 ["A"; "B"]) (Sample.per_group 2 ["id"])) = 0
  /\ Z.rem 4 (group_size 6 (length_or_1 ["A"; "B"]) (Sample.per_group 2 ["id"])) = 0.
Proof. repeat split; reflexivity. Qed.

Lemma isStructuralChange_classifies_witness :
  isStructuralChange (with_options Sample.team (Some (Sample.counting 1 1)))
                     (with_options Sample.team (Some (Sample.counting 7 3))) = false
  /\ isStructuralChange (with_options Sample.team None)
                        (with_options Sample.team (options Sample.team)) = true
  /\ isStructuralChange (with_options Sample.team (options Sample.team))
                        (with_options Sample.team None) = true.
Proof.
  split.
  - apply (proj1 (proj2 (isStructuralChange_classifies Sample.team Sample.team))
             (Some (Sample.counting 1 1)) (Some (Sample.counting 7 3))).
    split; intros (o & g & Ho & Hg); injection Ho as <-; discriminate Hg.
  - apply (proj2 (proj2 (isStructuralChange_classifies Sample.team Sample.team))
             (Sample.choosing (Some ["A"; "B"]) None (Some (Sample.per_group 2 ["id"])))
             (Sample.per_group 2 ["id"]) None eq_refl).
    intros (o & g & Ho & _). discriminate Ho.
Defined.

(** ** The path codec *)

(** *** Walks *)

Lemma bind_Ok {A B} (a : A) (k : A -> res B) : bind (Ok a) k = k a.
Proof. reflexivity. Qed.

Lemma assign_all_app row E1 : forall E2 row0,
  row0 = row ->
  assign_all row0 (E1 ++ E2) = let* r := assign_all row E1 in assign_all r E2.
Proof.
  revert row. induction E1 as [| [q v] E1 IH]; intros row E2 row0 ->; [reflexivity |].
  cbn [app assign_all].
  destruct (assign_path row q v) as [row' | e |]; cbn [bind]; [| reflexivity | reflexivity].
  now apply IH.
Qed.

Lemma set_prop_container cur part v r : set_prop cur part v = Ok r -> is_object r = true.
Proof.
  destruct cur; cbn [set_prop]; try discriminate.
  - destruct (array_index part); [| discriminate]. now intros [= <-].
  - destruct (String.eqb part "__proto__"); [discriminate |]. now intros [= <-].
Qed.

Lemma set_element_container a lastKey v r :
  set_element a lastKey v = Ok r -> is_object r = true.
Proof.
  unfold set_element. destruct (StringToNumber lastKey); try discriminate.
  destruct (_ && _); [| discriminate]. now intros [= <-].
Qed.

(** One step of a walk that has a segment ahead. *)
Lemma assign_path_step cur part nextPart rest v :
  assign_path cur (part :: nextPart :: rest) v
  = let* found := get_prop cur part in
    let* child' := assign_path (if is_undefined found
                                then (if is_numeric nextPart then JArr [] else JObj [])
                                else found)
                               (nextPart :: rest) v in
    set_prop cur part child'.
Proof. reflexivity. Qed.

(** What a walk returns is a container. *)
Lemma assign_path_container cur parts v r :
  assign_path cur parts v = Ok r -> is_object r = true.
Proof.
  destruct parts as [| part [| nextPart rest]].
  - apply set_prop_container.
  - cbn [assign_path]. destruct cur; try apply set_prop_container.
    destruct (is_numeric part); [apply set_element_container | apply set_prop_container].
  - rewrite assign_path_step.
    destruct (get_prop cur part) as [found | |]; cbn [bind]; try discriminate.
    match goal with
    | |- context [assign_path ?c (nextPart :: rest) v] =>
        destruct (assign_path c (nextPart :: rest) v) as [child' | |]
    end; cbn [bind]; try discriminate.
    apply set_prop_container.
Qed.

Section Slot.
(** A slot: a container [hole] without the property [part], and the same
    container with a value at [part]. *)
Variable part : string.
Variable hole : jsval.
Variable fill : jsval -> jsval.
Hypothesis get_hole : get_prop hole part = Ok JUndefined.
Hypothesis set_hole : forall c, set_prop hole part c = Ok (fill c).
Hypothesis get_fill : forall c, get_prop (fill c) part = Ok c.
Hypothesis set_fill : forall c c', set_prop (fill c) part c' = Ok (fill c').

Lemma walk_through_slot child q v :
  is_object child = true ->
  q <> [] ->
  assign_path (fill child) (part :: q) v
  = let* c := assign_path child q v in Ok (fill c).
Proof.
  intros Hchild Hq. destruct q as [| nextPart rest]; [contradiction |].
  rewrite assign_path_step, get_fill. cbn [bind].
  replace (is_undefined child) with false by now destruct child.
  destruct (assign_path child (nextPart :: rest) v) as [c | |]; cbn [bind];
    [apply set_fill | reflexivity | reflexivity].
Qed.

Lemma walks_through_slot E : forall child,
  is_object child = true ->
  Forall (fun qv => fst qv <> []) E ->
  assign_all (fill child) (map (fun qv => (part :: fst qv, snd qv)) E)
  = let* c := assign_all child E in Ok (fill c).
Proof.
  induction E as [| [q v] E IH]; intros child Hchild Hq; [reflexivity |].
  apply Forall_cons in Hq as [Hq HE]. cbn [fst] in Hq.
  cbn [map assign_all fst snd].
  rewrite walk_through_slot by assumption.
  destruct (assign_path child q v) as [c | |] eqn:Hc; cbn [bind];
    [| reflexivity | reflexivity].
  apply IH; [| assumption]. now apply assign_path_container in Hc.
Qed.

Lemma walks_into_hole E kind :
  head_numeric E = Some kind ->
  Forall (fun qv => fst qv <> []) E ->
  assign_all hole (map (fun qv => (part :: fst qv, snd qv)) E)
  = let* c := assign_all (if kind then JArr [] else JObj []) E in Ok (fill c).
Proof.
  destruct E as [| [[| h t] v] E]; try discriminate.
  intros [= <-] Hq. apply Forall_cons in Hq as [_ HE].
  cbn [map assign_all fst snd].
  rewrite assign_path_step, get_hole. cbn [bind is_undefined].
  destruct (assign_path (if is_numeric h then JArr [] else JObj []) (h :: t) v)
    as [c | |] eqn:Hc; cbn [bind]; [| reflexivity | reflexivity].
  rewrite set_hole. cbn [bind].
  apply walks_through_slot; [| assumption]. now apply assign_path_container in Hc.
Qed.
End Slot.

(** *** Keys that are array indices read as numbers *)

Lemma digit_is_no_other c :
  is_digit c = true ->
  is_space c = false
  /\ Ascii.eqb c "-" = false /\ Ascii.eqb c "+" = false /\ Ascii.eqb c "." = false
  /\ Ascii.eqb c "I" = false
  /\ Ascii.eqb c "x" || Ascii.eqb c "X" = false
  /\ Ascii.eqb c "o" || Ascii.eqb c "O" = false
  /\ Ascii.eqb c "b" || Ascii.eqb c "B" = false.
Proof.
  destruct c as [[] [] [] [] [] [] [] []]; intros H; try discriminate H;
    repeat split; reflexivity.
Qed.

Lemma digits_value_all_digits s : forall acc m,
  digits_value 10 acc s = Some m -> all_digits s = true.
Proof.
  induction s as [| c s IH]; intros acc m H; [reflexivity |].
  cbn [digits_value] in H. cbn [all_digits]. unfold is_digit.
  destruct (digit_value 10 c); [| discriminate]. now apply IH in H.
Qed.

Lemma all_digits_value s : forall acc,
  all_digits s = true -> exists m, digits_value 10 acc s = Some m.
Proof.
  induction s as [| c s IH]; intros acc H; [now exists acc |].
  cbn [all_digits] in H. apply andb_prop in H as [Hc Hs].
  unfold is_digit in Hc. cbn [digits_value].
  destruct (digit_value 10 c); [| discriminate]. now apply IH.
Qed.

Lemma all_digits_trim_end s : all_digits s = true -> trim_end s = s.
Proof.
  induction s as [| c s IH]; intros H; [reflexivity |].
  cbn [all_digits] in H. apply andb_prop in H as [Hc Hs].
  cbn [trim_end]. rewrite IH by assumption.
  destruct s; [| reflexivity].
  now destruct (digit_is_no_other c Hc) as [-> _].
Qed.

Lemma all_digits_trim s : all_digits s = true -> trim s = s.
Proof.
  intros H. unfold trim.
  destruct s as [| c s]; [reflexivity |].
  pose proof H as H'. cbn [all_digits] in H'. apply andb_prop in H' as [Hc _].
  cbn [trim_start]. destruct (digit_is_no_other c Hc) as [-> _].
  now apply all_digits_trim_end.
Qed.

Lemma all_digits_span s : all_digits s = true -> span_digits s = (s, EmptyString).
Proof.
  induction s as [| c s IH]; intros H; [reflexivity |].
  cbn [all_digits] in H. apply andb_prop in H as [Hc Hs].
  cbn [span_digits]. unfold is_digit in Hc.
  destruct (digit_value 10 c); [| discriminate]. now rewrite IH.
Qed.

Lemma of_mantissa_not_NaN negative m e : isNaN (of_mantissa negative m e) = false.
Proof.
  unfold of_mantissa.
  repeat match goal with |- context [if ?b then _ else _] => destruct b end; reflexivity.
Qed.

Lemma round_int_not_NaN z : isNaN (round_int z) = false.
Proof.
  unfold round_int, of_ratio.
  destruct (Z.abs z <=? 2 ^ 53); [reflexivity |].
  destruct (z =? 0); [reflexivity |].
  destruct (nearest (Z.abs z) 1). apply of_mantissa_not_NaN.
Qed.

Lemma append_empty (s : string) : (s ++ "")%string = s.
Proof.
  induction s as [| c s IH]; [reflexivity |].
  change (String c (s ++ "")%string = String c s). now rewrite IH.
Qed.

(** A text made of decimal digits reads as a number. *)
Lemma all_digits_numeric s :
  s <> EmptyString -> all_digits s = true -> is_numeric s = true.
Proof.
  intros Hne Hs. unfold is_numeric, StringToNumber.
  rewrite all_digits_trim by assumption. cbv zeta.
  destruct s as [| c0 s]; [contradiction |].
  pose proof Hs as H0. cbn [all_digits] in H0. apply andb_prop in H0 as [Hc0 Hs'].
  destruct (digit_is_no_other c0 Hc0) as (_ & Hminus & Hplus & _ & HI & _).
  assert (Hradix : radix_prefix (String c0 s) = None).
  { cbn [radix_prefix]. destruct s as [| c1 s]; [reflexivity |].
    cbn [all_digits] in Hs'. apply andb_prop in Hs' as [Hc1 _].
    destruct (digit_is_no_other c1 Hc1) as (_ & _ & _ & _ & _ & -> & -> & ->).
    now destruct (Ascii.eqb c0 "0"). }
  rewrite Hradix. cbn [strip_sign]. rewrite Hminus, Hplus.
  unfold unsigned_decimal.
  replace (String.eqb (String c0 s) "Infinity") with false
    by (cbn [String.eqb]; now rewrite HI).
  rewrite all_digits_span by assumption.
  rewrite append_empty.
  destruct (all_digits_value (String c0 s) 0 Hs) as [m Hm]. rewrite Hm.
  change (exponent "") with (Some 0). cbv beta iota.
  change (0 <=? 0 - Z.of_nat (String.length "")) with true.
  cbv beta iota. now rewrite round_int_not_NaN.
Qed.

Lemma array_index_numeric k n : array_index k = Some n -> is_numeric k = true.
Proof.
  unfold array_index. intros H.
  assert (Hd : exists m, digits_value 10 0 k = Some m /\ k <> EmptyString).
  { destruct k as [| c k]; [discriminate |].
    destruct (digits_value 10 0 (String c k)) as [m |] eqn:Hm.
    - exists m. split; [reflexivity | discriminate].
    - destruct c as [[] [] [] [] [] [] [] []]; try discriminate H;
        destruct k; discriminate H. }
  destruct Hd as (m & Hm & Hne).
  apply all_digits_numeric; [assumption |].
  now apply digits_value_all_digits in Hm.
Qed.

(** *** Plain keys *)

Lemma plain_key_facts k :
  plain_key k = true ->
  has_dot k = false /\ is_numeric k = false /\ Obj.inherited k = false
  /\ array_index k = None /\ String.eqb k "__proto__" = false.
Proof.
  unfold plain_key. intros H.
  apply andb_prop in H as [H Hin]. apply andb_prop in H as [Hdot Hnum].
  apply negb_true_iff in Hin, Hdot, Hnum.
  repeat split; try assumption.
  - destruct (array_index k) as [n |] eqn:E; [| reflexivity].
    apply array_index_numeric in E. congruence.
  - destruct (String.eqb_spec k "__proto__") as [-> | _]; [discriminate Hin | reflexivity].
Qed.

Lemma own_app_none (done l : Obj.t) k :
  Obj.own done k = None -> Obj.own (done ++ l) k = Obj.own l k.
Proof.
  induction done as [| [k' v'] done IH]; intros H; [reflexivity |].
  cbn [app Obj.own] in *. destruct (String.eqb k' k); [discriminate | now apply IH].
Qed.

Lemma replace_last (done : Obj.t) k c c' :
  Obj.own done k = None ->
  Obj.replace (done ++ [(k, c)]) k c' = done ++ [(k, c')].
Proof.
  induction done as [| [k' v'] done IH]; intros H; cbn [app Obj.replace Obj.own] in *.
  - now rewrite String.eqb_refl.
  - destruct (String.eqb k' k); [discriminate |]. now rewrite IH.
Qed.

(** The slot of a fresh plain key at the end of an object. *)
Lemma object_slot (done : Obj.t) k :
  Obj.own done k = None ->
  plain_key k = true ->
  get_prop (JObj done) k = Ok JUndefined
  /\ (forall c, set_prop (JObj done) k c = Ok (JObj (done ++ [(k, c)])))
  /\ (forall c, get_prop (JObj (done ++ [(k, c)])) k = Ok c)
  /\ (forall c c', set_prop (JObj (done ++ [(k, c)])) k c' = Ok (JObj (done ++ [(k, c')]))).
Proof.
  intros Hown Hplain.
  destruct (plain_key_facts k Hplain) as (_ & _ & Hin & Hidx & Hproto).
  assert (Hlast : forall c, Obj.own (done ++ [(k, c)]) k = Some c).
  { intros c. rewrite own_app_none by assumption. cbn. now rewrite String.eqb_refl. }
  repeat split.
  - cbn [get_prop]. now rewrite Hown, Hin.
  - intros c. cbn [set_prop]. rewrite Hproto. unfold Obj.set. now rewrite Hproto, Hown, Hidx.
  - intros c. cbn [get_prop]. now rewrite Hlast.
  - intros c c'. cbn [set_prop]. rewrite Hproto. unfold Obj.set.
    rewrite Hproto, Hlast. now rewrite replace_last.
Qed.

(** The slot of the first element of an array. *)
Lemma array_slot :
  get_prop (JArr []) "0" = Ok JUndefined
  /\ (forall c, set_prop (JArr []) "0" c = Ok (JArr [c]))
  /\ (forall c, get_prop (JArr [c]) "0" = Ok c)
  /\ (forall c c', set_prop (JArr [c]) "0" c' = Ok (JArr [c'])).
Proof. repeat split. Qed.

(** *** Rebuilding a container from its leaves *)

Lemma leaves_below_nonempty k c :
  Forall (fun qv : list string * jsval => fst qv <> []) (leaves_below leaves k c).
Proof.
  unfold leaves_below. destruct (is_object c).
  - apply Forall_forall. intros qv Hqv.
    apply list_elem_of_fmap in Hqv as (qv' & -> & _). discriminate.
  - apply Forall_singleton. discriminate.
Qed.

Lemma leaves_nonempty c :
  Forall (fun qv : list string * jsval => fst qv <> []) (leaves c).
Proof.
  destruct c as [| | | | | elems | props]; try apply Forall_nil_2.
  - destruct elems as [| e [|]]; try apply Forall_nil_2.
    apply leaves_below_nonempty.
  - cbn [leaves]. induction props as [| [k c] props IH]; [apply Forall_nil_2 |].
    cbn [flat_map]. apply Forall_app. split; [apply leaves_below_nonempty | exact IH].
Qed.

Lemma empty_like_kind c :
  is_object c = true -> (if isArray c then JArr [] else JObj []) = empty_like c.
Proof. destruct c; try discriminate; reflexivity. Qed.

Lemma head_numeric_below k c :
  (is_object c = true -> exists kind, head_numeric (leaves c) = Some kind) ->
  head_numeric (leaves_below leaves k c) = Some (is_numeric k).
Proof.
  intros H. unfold leaves_below. destruct (is_object c); [| reflexivity].
  destruct (H eq_refl) as [kind Hk].
  destruct (leaves c) as [| [[| h t] v] E]; try discriminate. reflexivity.
Qed.

Lemma head_numeric_app E1 E2 kind :
  head_numeric E1 = Some kind -> head_numeric (E1 ++ E2) = Some kind.
Proof. destruct E1 as [| [[| h t] v] E1]; try discriminate. auto. Qed.

(** The leaves below a fresh plain key, walked from an object, add the
    property at its end. *)
Lemma rebuild_property (done : Obj.t) k c :
  Obj.own done k = None ->
  plain_key k = true ->
  sound c = true ->
  rebuilt c ->
  assign_all (JObj done) (leaves_below leaves k c) = Ok (JObj (done ++ [(k, c)])).
Proof.
  intros Hown Hplain Hsound Hc.
  destruct (object_slot done k Hown Hplain) as (Hg0 & Hs0 & Hg & Hs).
  unfold leaves_below. destruct (is_object c) eqn:Hobj.
  - destruct (Hc Hsound Hobj) as [Hhead Hall].
    rewrite (walks_into_hole k (JObj done) (fun c => JObj (done ++ [(k, c)]))
               Hg0 Hs0 Hg Hs (leaves c) (isArray c) Hhead (leaves_nonempty c)).
    rewrite (empty_like_kind c Hobj), Hall. reflexivity.
  - cbn [assign_all assign_path]. rewrite Hs0. reflexivity.
Qed.

(** The leaves below the first index, walked from an empty array, give the
    array of one element. *)
Lemma rebuild_element e :
  sound e = true ->
  rebuilt e ->
  assign_all (JArr []) (leaves_below leaves "0" e) = Ok (JArr [e]).
Proof.
  intros Hsound He.
  destruct array_slot as (Hg0 & Hs0 & Hg & Hs).
  unfold leaves_below. destruct (is_object e) eqn:Hobj.
  - destruct (He Hsound Hobj) as [Hhead Hall].
    rewrite (walks_into_hole "0" (JArr []) (fun c => JArr [c])
               Hg0 Hs0 Hg Hs (leaves e) (isArray e) Hhead (leaves_nonempty e)).
    rewrite (empty_like_kind e Hobj), Hall. reflexivity.
  - reflexivity.
Qed.

Lemma distinct_cons k ks :
  distinct (k :: ks) = true -> existsb (String.eqb k) ks = false /\ distinct ks = true.
Proof.
  cbn [distinct]. intros H. apply andb_prop in H as [H1 H2].
  now apply negb_true_iff in H1.
Qed.

Lemma own_none_keys (o : Obj.t) k :
  Obj.own o k = None <-> existsb (String.eqb k) (map fst o) = false.
Proof.
  induction o as [| [k' v'] o IH]; [easy |].
  cbn [Obj.own map existsb fst]. rewrite (String.eqb_sym k k').
  destruct (String.eqb k' k); cbn [orb]; [easy | exact IH].
Qed.

(** The properties of an object, walked in order onto what is already
    there. *)
Lemma rebuild_properties rest : forall done : Obj.t,
  distinct (map fst (done ++ rest)) = true ->
  forallb (fun kv => plain_key (fst kv) && sound (snd kv)) rest = true ->
  Forall (fun kv => rebuilt (snd kv)) rest ->
  assign_all (JObj done) (flat_map (fun kv => leaves_below leaves (fst kv) (snd kv)) rest)
  = Ok (JObj (done ++ rest)).
Proof.
  induction rest as [| [k c] rest IH]; intros done Hdist Hall Hre.
  - now rewrite app_nil_r.
  - cbn [forallb fst snd] in Hall. apply andb_prop in Hall as [Hkc Hall].
    apply andb_prop in Hkc as [Hplain Hsound].
    apply Forall_cons in Hre as [Hc Hre]. cbn [snd] in Hc.
    assert (Hown : Obj.own done k = None).
    { apply own_none_keys. clear -Hdist.
      induction done as [| [k' v'] done IHd]; [reflexivity |].
      cbn [app map fst] in Hdist. apply distinct_cons in Hdist as [Hk' Hd].
      cbn [map existsb fst]. rewrite (IHd Hd), orb_false_r.
      rewrite map_app, existsb_app in Hk'. apply orb_false_elim in Hk' as [_ Hk'].
      cbn [map existsb fst] in Hk'. apply orb_false_elim in Hk' as [Hk' _].
      now rewrite String.eqb_sym. }
    cbn [flat_map fst snd].
    rewrite (assign_all_app (JObj done) _ _ _ eq_refl).
    rewrite (rebuild_property done k c Hown Hplain Hsound Hc). cbn [bind].
    rewrite IH; try assumption.
    + now rewrite <- app_assoc.
    + now rewrite <- app_assoc.
Qed.

Lemma rebuild_all c : rebuilt c.
Proof.
  induction c as [| | | | | elems IH | props IH] using jsval_ind;
    try (intros _ Hobj; discriminate Hobj).
  - intros Hsound _. destruct elems as [| e [|]]; try discriminate Hsound.
    apply Forall_cons in IH as [He _]. cbn [sound] in Hsound.
    split.
    + cbn [leaves]. apply (head_numeric_below "0" e).
      intros Hobj. destruct (He Hsound Hobj) as [Hh _]. eauto.
    + cbn [leaves empty_like]. now apply rebuild_element.
  - intros Hsound _. cbn [sound] in Hsound.
    apply andb_prop in Hsound as [Hsound Hall].
    apply andb_prop in Hsound as [Hne Hdist].
    split.
    + destruct props as [| [k c] props]; [discriminate Hne |].
      cbn [leaves flat_map fst snd].
      cbn [forallb fst snd] in Hall. apply andb_prop in Hall as [Hkc _].
      apply andb_prop in Hkc as [Hplain Hsound].
      apply Forall_cons in IH as [Hc _]. cbn [snd] in Hc.
      destruct (plain_key_facts k Hplain) as (_ & Hnum & _).
      change (isArray (JObj ((k, c) :: props))) with false. rewrite <- Hnum.
      apply head_numeric_app. apply head_numeric_below.
      intros Hobj. destruct (Hc Hsound Hobj) as [Hh _]. eauto.
    + cbn [leaves empty_like]. now apply (rebuild_properties props []).
Qed.

(** *** Flat keys and their segments *)

Lemma split_dot_not_nil s : split_dot s <> [].
Proof.
  destruct s as [| c s]; [discriminate |]. cbn [split_dot].
  destruct (Ascii.eqb c "."); [discriminate |].
  destruct (split_dot s); discriminate.
Qed.

Lemma has_dot_cons c s : has_dot (String c s) = Ascii.eqb c "." || has_dot s.
Proof.
  unfold has_dot. cbn [includes startsWith].
  replace (startsWith s "") with true by now destruct s.
  rewrite andb_true_r. now rewrite (Ascii.eqb_sym "." c).
Qed.

Lemma split_dot_plain s : has_dot s = false -> split_dot s = [s].
Proof.
  induction s as [| c s IH]; [reflexivity |].
  rewrite has_dot_cons. intros H. apply orb_false_elim in H as [Hc Hs].
  cbn [split_dot]. now rewrite Hc, IH.
Qed.

Lemma string_app_cons c (a b : string) :
  (String c a ++ b)%string = String c (a ++ b)%string.
Proof. reflexivity. Qed.

(** Splitting [a.b] gives the segments of [a], then those of [b]. *)
Lemma split_dot_append (a b : string) :
  split_dot (a ++ "." ++ b)%string = split_dot a ++ split_dot b.
Proof.
  induction a as [| c a IH].
  - reflexivity.
  - rewrite string_app_cons. cbn [split_dot]. rewrite IH.
    destruct (Ascii.eqb c "."); [reflexivity |].
    pose proof (split_dot_not_nil a) as Hne.
    destruct (split_dot a); [contradiction | reflexivity].
Qed.

Lemma segment_facts s : segment s = true -> s <> EmptyString /\ has_dot s = false.
Proof.
  unfold segment. intros H. apply andb_prop in H as [Hne Hdot].
  apply negb_true_iff in Hne, Hdot. split; [| assumption].
  intros ->. discriminate.
Qed.

Lemma newKey_nonempty prefix k : k <> EmptyString -> newKey prefix k <> EmptyString.
Proof. destruct prefix; [auto | discriminate]. Qed.

Lemma newKey_split prefix k :
  segment k = true -> split_dot (newKey prefix k) = prefix_path prefix ++ [k].
Proof.
  intros Hk. destruct (segment_facts k Hk) as [_ Hdot].
  destruct prefix as [| c p].
  - now apply split_dot_plain.
  - cbn [newKey prefix_path]. rewrite split_dot_append. now rewrite (split_dot_plain k).
Qed.

(** Splitting a flat key gives back the prefix and the path. *)
Lemma join_path_split q : forall prefix,
  forallb segment q = true ->
  q <> [] ->
  split_dot (join_path prefix q) = prefix_path prefix ++ q.
Proof.
  induction q as [| k q IH]; intros prefix Hq Hne; [contradiction |].
  cbn [forallb] in Hq. apply andb_prop in Hq as [Hk Hq].
  cbn [join_path fold_left]. fold (join_path (newKey prefix k) q).
  destruct q as [| k' q].
  - now apply newKey_split.
  - rewrite IH by (assumption || discriminate).
    destruct (segment_facts k Hk) as [Hkne _].
    pose proof (newKey_nonempty prefix k Hkne) as Hnk.
    replace (prefix_path (newKey prefix k)) with (split_dot (newKey prefix k))
      by (destruct (newKey prefix k); [contradiction | reflexivity]).
    rewrite newKey_split by assumption. now rewrite <- app_assoc.
Qed.

Lemma all_digits_no_dot s : all_digits s = true -> has_dot s = false.
Proof.
  induction s as [| c s IH]; [reflexivity |].
  cbn [all_digits]. intros H. apply andb_prop in H as [Hc Hs].
  rewrite has_dot_cons, IH by assumption.
  destruct (digit_is_no_other c Hc) as (_ & _ & _ & -> & _). reflexivity.
Qed.

(** A key with a dot is no array index. *)
Lemma array_index_no_dot K n : array_index K = Some n -> split_dot K = [K].
Proof.
  intros H. apply split_dot_plain, all_digits_no_dot.
  unfold array_index in H.
  destruct K as [| c K]; [discriminate |].
  destruct (digits_value 10 0 (String c K)) as [m |] eqn:Hm.
  - now apply digits_value_all_digits in Hm.
  - destruct c as [[] [] [] [] [] [] [] []]; try discriminate H; destruct K; discriminate H.
Qed.

(** *** Stores into a flat object *)

Lemma set_fresh (acc : Obj.t) K v :
  Obj.own acc K = None -> storable K -> Obj.set acc K v = acc ++ [(K, v)].
Proof. intros Hown [Hidx Hproto]. unfold Obj.set. now rewrite Hproto, Hown, Hidx. Qed.

Lemma own_snoc (acc : Obj.t) K v K' :
  Obj.own acc K' = None -> K <> K' -> Obj.own (acc ++ [(K, v)]) K' = None.
Proof.
  intros Hown Hne. rewrite own_app_none by assumption. cbn [Obj.own].
  now destruct (String.eqb_spec K K').
Qed.

(** [Object.assign] of fresh keys that are no array indices appends them. *)
Lemma assign_fresh (sub : Obj.t) : forall acc : Obj.t,
  NoDup (map fst sub) ->
  Forall (fun kv => Obj.own acc (fst kv) = None /\ storable (fst kv)) sub ->
  Obj.assign acc sub = acc ++ sub.
Proof.
  induction sub as [| [K v] sub IH]; intros acc Hnd Hfresh.
  - now rewrite app_nil_r.
  - cbn [map fst] in Hnd. apply NoDup_cons in Hnd as [Hnotin Hnd].
    apply Forall_cons in Hfresh as [[Hown Hidx] Hfresh]. cbn [fst] in *.
    unfold Obj.assign. cbn [fold_left fst snd]. fold (Obj.assign (Obj.set acc K v) sub).
    rewrite set_fresh by assumption.
    rewrite IH; [now rewrite <- app_assoc | assumption |].
    apply Forall_forall. intros [K' v'] HK'.
    rewrite Forall_forall in Hfresh. destruct (Hfresh (K', v') HK') as [Hown' Hidx'].
    cbn [fst] in *. split; [| assumption].
    apply own_snoc; [assumption |].
    intros ->. apply Hnotin. apply list_elem_of_fmap. now exists (K', v').
Qed.

Lemma replace_keys (o : Obj.t) k v : map fst (Obj.replace o k v) = map fst o.
Proof.
  induction o as [| [k' v'] o IH]; [reflexivity |].
  cbn [Obj.replace]. destruct (String.eqb_spec k' k) as [-> | _]; cbn [map fst];
    [reflexivity | now rewrite IH].
Qed.

Lemma insert_index_keys (o : Obj.t) n k v :
  map fst (Obj.insert_index o n k v) ≡ₚ k :: map fst o.
Proof.
  induction o as [| [k' v'] o IH]; [reflexivity |].
  cbn [Obj.insert_index]. destruct (array_index k') as [n' |]; [| reflexivity].
  destruct (n' <? n)%N; [| reflexivity].
  cbn [map fst]. rewrite IH. apply Permutation_swap.
Qed.

Lemma own_not_in (o : Obj.t) k : Obj.own o k = None -> k ∉ map fst o.
Proof.
  intros H Hin. apply own_none_keys in H.
  assert (Hex : existsb (String.eqb k) (map fst o) = true).
  { apply existsb_exists. exists k.
    split; [now apply list_elem_of_In | apply String.eqb_refl]. }
  congruence.
Qed.

(** A store keeps the keys of an object distinct. *)
Lemma set_keys_nodup (o : Obj.t) k v : NoDup (map fst o) -> NoDup (map fst (Obj.set o k v)).
Proof.
  intros Hnd. unfold Obj.set.
  destruct (String.eqb k "__proto__"); [assumption |].
  destruct (Obj.own o k) eqn:Hown.
  - now rewrite replace_keys.
  - apply own_not_in in Hown.
    destruct (array_index k).
    + rewrite insert_index_keys. now apply NoDup_cons.
    + rewrite map_app. cbn [map fst]. apply NoDup_app. repeat split.
      * assumption.
      * intros x Hx Hx'. apply list_elem_of_singleton in Hx'. now subst.
      * apply NoDup_singleton.
Qed.

Lemma assign_keys_nodup (sub : Obj.t) : forall o : Obj.t,
  NoDup (map fst o) -> NoDup (map fst (Obj.assign o sub)).
Proof.
  induction sub as [| [k v] sub IH]; intros o Hnd; [assumption |].
  unfold Obj.assign. cbn [fold_left fst snd]. apply IH. now apply set_keys_nodup.
Qed.

Lemma flatten_entry_nodup f prefix (acc : Obj.t) k v :
  NoDup (map fst acc) -> NoDup (map fst (flatten_entry f prefix acc k v)).
Proof.
  intros Hnd. unfold flatten_entry.
  destruct v as [| | | | | [| first elems] | props];
    try now apply set_keys_nodup.
  - assumption.
  - destruct (is_object first); [now apply assign_keys_nodup | now apply set_keys_nodup].
  - now apply assign_keys_nodup.
Qed.

(** The keys of a flattened value are distinct. *)
Lemma flatten_keys_nodup c prefix : NoDup (map fst (flattenObject c prefix)).
Proof.
  destruct c as [| | | | s | elems | props]; try apply NoDup_nil_2.
  - cbn [flattenObject].
    assert (H : forall l (st : nat * Obj.t),
               NoDup (map fst (snd st)) ->
               NoDup (map fst (snd (fold_left
                 (fun (st : nat * Obj.t) c =>
                    (S (fst st),
                     Obj.set (snd st) (newKey prefix (index_key (fst st)))
                             (JStr (String c EmptyString))))
                 l st)))).
    { induction l as [| c l IH]; intros st Hst; [assumption |].
      cbn [fold_left]. apply IH. cbn [snd]. now apply set_keys_nodup. }
    apply H. apply NoDup_nil_2.
  - cbn [flattenObject].
    assert (H : forall l (st : nat * Obj.t),
               NoDup (map fst (snd st)) ->
               NoDup (map fst (snd (fold_left
                 (fun (st : nat * Obj.t) value =>
                    (S (fst st),
                     flatten_entry flattenObject prefix (snd st)
                                   (index_key (fst st)) value))
                 l st)))).
    { induction l as [| c l IH]; intros st Hst; [assumption |].
      cbn [fold_left]. apply IH. cbn [snd]. now apply flatten_entry_nodup. }
    apply H. apply NoDup_nil_2.
  - cbn [flattenObject].
    assert (H : forall l (acc : Obj.t),
               NoDup (map fst acc) ->
               NoDup (map fst (fold_left
                 (fun result kv =>
                    flatten_entry flattenObject prefix result (fst kv) (snd kv))
                 l acc))).
    { induction l as [| kv l IH]; intros acc Hacc; [assumption |].
      cbn [fold_left]. apply IH. now apply flatten_entry_nodup. }
    apply H. apply NoDup_nil_2.
Qed.

(** *** The leaves of a sound value *)

Lemma plain_segment k : plain_key k = true -> segment k = true.
Proof.
  intros H. destruct (plain_key_facts k H) as (Hdot & Hnum & _).
  unfold segment. rewrite Hdot. destruct k; [discriminate Hnum | reflexivity].
Qed.

(** The paths below a property start with its key. *)
Lemma leaves_below_shape k c qv :
  Forall (fun qv => forallb segment (fst qv) = true) (leaves c) ->
  qv ∈ leaves_below leaves k c ->
  exists q, fst qv = k :: q /\ forallb segment q = true.
Proof.
  intros Hc Hqv. unfold leaves_below in Hqv. destruct (is_object c).
  - apply list_elem_of_fmap in Hqv as (qv' & -> & Hqv').
    rewrite Forall_forall in Hc. exists (fst qv'). split; [reflexivity | now apply Hc].
  - apply list_elem_of_singleton in Hqv as ->. now exists [].
Qed.

(** The paths to the leaves of a sound value are made of segments. *)
Lemma leaves_segments c :
  sound c = true -> Forall (fun qv => forallb segment (fst qv) = true) (leaves c).
Proof.
  induction c as [| | | | | elems IH | props IH] using jsval_ind; intros Hsound;
    try apply Forall_nil_2.
  - destruct elems as [| e [|]]; try discriminate Hsound.
    apply Forall_cons in IH as [He _]. cbn [sound] in Hsound. cbn [leaves].
    apply Forall_forall. intros qv Hqv.
    destruct (leaves_below_shape "0" e qv (He Hsound) Hqv) as (q & -> & Hq).
    exact Hq.
  - cbn [sound] in Hsound. apply andb_prop in Hsound as [_ Hall].
    cbn [leaves]. induction props as [| [k c] props IHp]; [apply Forall_nil_2 |].
    cbn [forallb fst snd] in Hall. apply andb_prop in Hall as [Hkc Hall].
    apply andb_prop in Hkc as [Hplain Hsound].
    apply Forall_cons in IH as [Hc IH]. cbn [snd] in Hc.
    cbn [flat_map fst snd]. apply Forall_app. split; [| now apply IHp].
    apply Forall_forall. intros qv Hqv.
    destruct (leaves_below_shape k c qv (Hc Hsound) Hqv) as (q & -> & Hq).
    cbn [forallb]. now rewrite (plain_segment k Hplain).
Qed.

(** *** What [flattenObject] returns for a sound value *)

Lemma newKey_dot0 nk : nk <> EmptyString -> newKey nk "0" = (nk ++ ".0")%string.
Proof. destruct nk; [contradiction | reflexivity]. Qed.

Lemma own_none_of_not_in (o : Obj.t) k : k ∉ map fst o -> Obj.own o k = None.
Proof.
  intros H. apply own_none_keys.
  destruct (existsb (String.eqb k) (map fst o)) eqn:E; [| reflexivity].
  apply existsb_exists in E as (x & Hx & Hkx). apply String.eqb_eq in Hkx. subst x.
  exfalso. apply H. now apply list_elem_of_In.
Qed.

(** Under a prefix, or with more than one segment, a flat key has a dot,
    and so is storable. *)
Lemma join_path_storable prefix q :
  forallb segment q = true ->
  (prefix <> EmptyString /\ q <> [] \/ (2 <= length q)%nat) ->
  storable (join_path prefix q).
Proof.
  intros Hq Hlong.
  assert (Hne : q <> []).
  { destruct Hlong as [[_ H] | H]; [exact H |]. destruct q; [cbn in H; lia | discriminate]. }
  assert (Hsplit : (2 <= length (split_dot (join_path prefix q)))%nat).
  { rewrite (join_path_split q prefix Hq Hne), length_app.
    destruct Hlong as [[Hp _] | Hl]; [| lia].
    assert (length (prefix_path prefix) <> 0)%nat.
    { destruct prefix as [| c p]; [contradiction |]. cbn [prefix_path].
      pose proof (split_dot_not_nil (String c p)).
      destruct (split_dot (String c p)); [contradiction | discriminate]. }
    destruct q; [contradiction | cbn [length]; lia]. }
  split.
  - destruct (array_index (join_path prefix q)) as [n |] eqn:E; [| reflexivity].
    apply array_index_no_dot in E. rewrite E in Hsplit. cbn [length] in Hsplit. lia.
  - destruct (String.eqb_spec (join_path prefix q) "__proto__") as [E | _]; [| reflexivity].
    rewrite E in Hsplit. vm_compute in Hsplit. lia.
Qed.

(** One turn of the loop of [flattenObject] on a sound value appends the
    entries of its leaves, when their keys are new and no array indices. *)
Lemma flatten_entry_spec prefix (acc : Obj.t) k c :
  segment k = true ->
  sound c = true ->
  flattened c ->
  (forall qv, qv ∈ leaves_below leaves k c ->
     Obj.own acc (join_path prefix (fst qv)) = None
     /\ storable (join_path prefix (fst qv))) ->
  flatten_entry flattenObject prefix acc k c
  = acc ++ map (keyed prefix) (leaves_below leaves k c).
Proof.
  intros Hk Hsound [Hc He] Hfresh.
  destruct (segment_facts k Hk) as [Hkne _].
  pose proof (newKey_nonempty prefix k Hkne) as Hnk.
  assert (Hscalar : is_object c = false ->
            Obj.set acc (newKey prefix k) c
            = acc ++ map (keyed prefix) (leaves_below leaves k c)).
  { intros Hobj. unfold leaves_below in *. rewrite Hobj in *.
    destruct (Hfresh ([k], c) ltac:(apply list_elem_of_singleton; reflexivity))
      as [Hown Hidx].
    now apply set_fresh. }
  destruct c as [| | | | | elems | props]; try (now apply Hscalar).
  - destruct elems as [| e [|]]; try discriminate Hsound.
    cbn [sound] in Hsound. cbn [flatten_entry].
    unfold leaves_below in Hfresh |- *. cbn [is_object leaves] in Hfresh |- *.
    unfold leaves_below in Hfresh |- *.
    destruct (is_object e) eqn:Hobj.
    + assert (Hp0 : (newKey prefix k ++ ".0")%string <> EmptyString)
        by (destruct (newKey prefix k); [contradiction | discriminate]).
      pose proof (flatten_keys_nodup e (newKey prefix k ++ ".0")%string) as Hnd.
      rewrite (He Hsound Hobj _ Hp0) in Hnd |- *.
      rewrite assign_fresh; [| assumption |].
      * f_equal. rewrite !map_map. apply map_ext. intros [q v].
        unfold keyed, join_path. cbn [fst snd fold_left].
        now rewrite (newKey_dot0 _ Hnk).
      * apply Forall_forall. intros [K v] HK.
        apply list_elem_of_fmap in HK as ([q v'] & [= -> ->] & Hqv).
        specialize (Hfresh (k :: "0" :: q, v')).
        unfold join_path in Hfresh. cbn [fst fold_left] in Hfresh.
        rewrite (newKey_dot0 _ Hnk) in Hfresh. apply Hfresh.
        apply list_elem_of_fmap. exists ("0" :: q, v'). split; [reflexivity |].
        apply list_elem_of_fmap. now exists (q, v').
    + specialize (Hfresh ([k; "0"], e)).
      unfold join_path in Hfresh. cbn [fst fold_left map] in Hfresh.
      rewrite (newKey_dot0 _ Hnk) in Hfresh.
      destruct Hfresh as [Hown Hidx]; [apply list_elem_of_singleton; reflexivity |].
      rewrite set_fresh by assumption. cbn [map]. unfold keyed, join_path.
      cbn [fst snd fold_left]. now rewrite (newKey_dot0 _ Hnk).
  - cbn [flatten_entry].
    unfold leaves_below in Hfresh |- *. cbn [is_object] in Hfresh |- *.
    pose proof (flatten_keys_nodup (JObj props) (newKey prefix k)) as Hnd.
    rewrite (Hc Hsound eq_refl _ Hnk) in Hnd |- *.
    rewrite assign_fresh; [| assumption |].
    + f_equal. rewrite !map_map. apply map_ext. now intros [q v].
    + apply Forall_forall. intros [K v] HK.
      apply list_elem_of_fmap in HK as ([q v'] & [= -> ->] & Hqv).
      apply (Hfresh (k :: q, v')).
      apply list_elem_of_fmap. now exists (q, v').
Qed.

(** Flat keys under different properties differ. *)
Lemma join_path_distinct prefix k q k' q' :
  forallb segment (k :: q) = true ->
  forallb segment (k' :: q') = true ->
  k <> k' ->
  join_path prefix (k :: q) <> join_path prefix (k' :: q').
Proof.
  intros Hq Hq' Hne E. apply (f_equal split_dot) in E.
  rewrite !join_path_split in E by (assumption || discriminate).
  apply app_inv_head in E. congruence.
Qed.

(** The loop of [flattenObject] over the properties of an object. *)
Lemma flatten_props prefix rest : forall done : Obj.t,
  distinct (map fst (done ++ rest)) = true ->
  forallb (fun kv => plain_key (fst kv) && sound (snd kv)) (done ++ rest) = true ->
  Forall (fun kv => flattened (snd kv)) rest ->
  fold_left (fun result kv => flatten_entry flattenObject prefix result (fst kv) (snd kv))
            rest
            (map (keyed prefix)
                 (flat_map (fun kv => leaves_below leaves (fst kv) (snd kv)) done))
  = map (keyed prefix)
        (flat_map (fun kv => leaves_below leaves (fst kv) (snd kv)) (done ++ rest)).
Proof.
  induction rest as [| [k c] rest IH]; intros done Hdist Hall Hflat.
  - now rewrite app_nil_r.
  - apply Forall_cons in Hflat as [Hc Hflat]. cbn [snd] in Hc.
    pose proof Hall as Hall'. rewrite forallb_app in Hall'.
    apply andb_prop in Hall' as [Hdone Hrest].
    cbn [forallb fst snd] in Hrest. apply andb_prop in Hrest as [Hkc _].
    apply andb_prop in Hkc as [Hplain Hsound].
    pose proof (plain_segment k Hplain) as Hk.
    cbn [fold_left fst snd].
    rewrite (flatten_entry_spec prefix _ k c Hk Hsound Hc).
    + replace (done ++ (k, c) :: rest) with ((done ++ [(k, c)]) ++ rest) in *
        by now rewrite <- app_assoc.
      rewrite <- IH by assumption.
      f_equal. rewrite flat_map_app, map_app. cbn [flat_map fst snd].
      now rewrite app_nil_r.
    + intros qv Hqv.
      destruct (leaves_below_shape k c qv (leaves_segments c Hsound) Hqv) as (q & Eq & Hq).
      rewrite Eq. split.
      * apply own_none_of_not_in. intros Hin.
        apply list_elem_of_fmap in Hin as ([K v] & HK & Hin). cbn [fst] in HK.
        apply list_elem_of_fmap in Hin as (qv' & [= -> ->] & Hin).
        apply list_elem_of_In, in_flat_map in Hin as ([k' c'] & Hkc' & Hin).
        cbn [fst snd] in Hin. apply list_elem_of_In in Hin.
        rewrite forallb_forall in Hdone. pose proof (Hdone _ Hkc') as Hkc''.
        cbn [fst snd] in Hkc''. apply andb_prop in Hkc'' as [Hplain' Hsound'].
        destruct (leaves_below_shape k' c' qv' (leaves_segments c' Hsound') Hin)
          as (q' & Eq' & Hq').
        rewrite Eq' in HK. revert HK. apply join_path_distinct.
        -- cbn [forallb]. now rewrite Hk.
        -- cbn [forallb]. now rewrite (plain_segment k' Hplain').
        -- intros ->. clear -Hdist Hkc'.
           induction done as [| [k0 c0] done IHd]; [destruct Hkc' |].
           cbn [app map fst] in Hdist. apply distinct_cons in Hdist as [Hk0 Hd].
           destruct Hkc' as [[= -> ->] | Hkc'].
           ++ rewrite map_app, existsb_app in Hk0.
              apply orb_false_elim in Hk0 as [_ Hk0].
              cbn [map existsb fst] in Hk0. now rewrite String.eqb_refl in Hk0.
           ++ now apply IHd.
      * destruct q as [| k2 q].
        -- destruct prefix as [| ch p].
           ++ now destruct (plain_key_facts k Hplain) as (_ & _ & _ & Hidx & Hproto).
           ++ apply join_path_storable; [cbn [forallb]; now rewrite Hk |].
              left. split; discriminate.
        -- apply join_path_storable; [cbn [forallb]; now rewrite Hk |].
           right. cbn [length]. lia.
Qed.

Lemma flatten_all c : flattened c.
Proof.
  induction c as [| | | | | elems IH | props IH] using jsval_ind;
    try (split; [intros _ Hobj; discriminate Hobj | exact I]).
  - assert (Hmatch : match elems with [e] => flat_ok e | _ => True end).
    { destruct elems as [| e [|]]; try exact I.
      apply Forall_cons in IH as [[He _] _]. exact He. }
    split; [| destruct elems as [| e [|]]; exact Hmatch].
    intros Hsound _ prefix Hprefix.
    destruct elems as [| e [|]]; try discriminate Hsound.
    apply Forall_cons in IH as [He _]. cbn [sound] in Hsound.
    cbn [flattenObject fold_left fst snd leaves].
    change (index_key 0) with "0".
    rewrite (flatten_entry_spec prefix [] "0" e eq_refl Hsound He); [reflexivity |].
    intros qv Hqv. split; [reflexivity |].
    destruct (leaves_below_shape "0" e qv (leaves_segments e Hsound) Hqv) as (q & -> & Hq).
    apply join_path_storable; [exact Hq |]. left. split; [assumption | discriminate].
  - split; [| exact I].
    intros Hsound _ prefix _. cbn [sound] in Hsound.
    apply andb_prop in Hsound as [Hsound Hall].
    apply andb_prop in Hsound as [_ Hdist].
    cbn [flattenObject leaves].
    now apply (flatten_props prefix props []).
Qed.

Lemma unflatten_into_split (flat : Obj.t) : forall row,
  unflatten_into row flat
  = assign_all row (map (fun kv => (split_dot (fst kv), snd kv)) flat).
Proof.
  induction flat as [| [K v] flat IH]; intros row; [reflexivity |].
  cbn [unflatten_into map assign_all fst snd].
  destruct (assign_path row (split_dot K) v); cbn [bind]; [apply IH | reflexivity | reflexivity].
Qed.

(** Splitting the flat keys of leaves under the empty prefix gives their
    paths back. *)
Lemma split_keyed (L : list (list string * jsval)) :
  Forall (fun qv => forallb segment (fst qv) = true) L ->
  Forall (fun qv => fst qv <> []) L ->
  map (fun kv => (split_dot (fst kv), snd kv)) (map (keyed "") L) = L.
Proof.
  induction L as [| [q v] L IH]; intros Hseg Hne; [reflexivity |].
  apply Forall_cons in Hseg as [Hq Hseg]. apply Forall_cons in Hne as [Hqne Hne].
  cbn [map keyed fst snd] in *.
  rewrite (join_path_split q "" Hq Hqne). cbn [prefix_path app].
  f_equal. now apply IH.
Qed.

(** C1 as amended.  For a record with distinct plain keys at every level
    (no dot, not reading as a number, no member of [Object.prototype]),
    whose nested objects have at least one property and whose arrays have
    exactly one element, reconstructing the flattened form gives the record
    back. *)
Theorem unflatten_flatten (x : jsval) :
  roundtrippable x = true -> unflatten (flattenObject x "") = Ok x.
Proof.
  intros Hx. destruct x as [| | | | | | props]; try discriminate Hx.
  cbn [roundtrippable] in Hx. apply andb_prop in Hx as [Hdist Hall].
  assert (Hflat : flattenObject (JObj props) ""
                  = map (keyed "") (leaves (JObj props))).
  { cbn [flattenObject leaves].
    apply (flatten_props "" props []); try assumption.
    apply Forall_forall. intros kv _. apply flatten_all. }
  assert (Hseg : Forall (fun qv => forallb segment (fst qv) = true) (leaves (JObj props))).
  { cbn [leaves]. clear -Hall.
    induction props as [| [k c] props IH]; [apply Forall_nil_2 |].
    cbn [forallb fst snd] in Hall. apply andb_prop in Hall as [Hkc Hall].
    apply andb_prop in Hkc as [Hplain Hsound].
    cbn [flat_map fst snd]. apply Forall_app. split; [| now apply IH].
    apply Forall_forall. intros qv Hqv.
    destruct (leaves_below_shape k c qv (leaves_segments c Hsound) Hqv) as (q & -> & Hq).
    cbn [forallb]. now rewrite (plain_segment k Hplain). }
  unfold unflatten. rewrite unflatten_into_split, Hflat.
  rewrite (split_keyed _ Hseg (leaves_nonempty (JObj props))).
  cbn [leaves]. apply (rebuild_properties props []); try assumption.
  apply Forall_forall. intros kv _. apply rebuild_all.
Qed.

Lemma unflatten_flatten_witness :
  unflatten (flattenObject Nested.record "") = Ok Nested.record.
Proof. apply (unflatten_flatten Nested.record). reflexivity. Defined.

(** C1 as stated fails: the array of [{ tags: [] }] has no element, the
    flattened form has no entry for it, and the reconstruction is [{}]. *)
Lemma empty_array_counterexample :
  flattenObject Nested.with_empty_array "" = []
  /\ unflatten (flattenObject Nested.with_empty_array "") = Ok (JObj [])
  /\ unflatten (flattenObject Nested.with_empty_array "") <> Ok Nested.with_empty_array.
Proof. split; [reflexivity | split; [reflexivity | discriminate]]. Qed.

(** Each further restriction of the amended C1 is needed: an array of two
    equal elements, an object without properties, a key with a dot and a
    key that reads as a number do not come back. *)
Lemma roundtrip_needs_each_restriction :
  unflatten (flattenObject (JObj [("tags", JArr [JStr "x"; JStr "x"])]) "")
  = Ok (JObj [("tags", JArr [JStr "x"])])
  /\ unflatten (flattenObject (JObj [("meta", JObj [])]) "") = Ok (JObj [])
  /\ unflatten (flattenObject (JObj [("a.b", JNull)]) "")
     = Ok (JObj [("a", JObj [("b", JNull)])])
  /\ unflatten (flattenObject (JObj [("byYear", JObj [("2024", JNull)])]) "")
     = Ok (JObj [("byYear",
                  JArr (repeat JUndefined 2024 ++ [JNull]))]).
Proof. repeat split; vm_compute; reflexivity. Qed.

(** ** [generateLocalData] and the values of its rows *)

Section Rows.
Variable random_index : nat -> nat -> nat.
Variable ambient : nat -> nat -> jsval.

(** The rows [generateLocalData] returns are the reconstructions of the
    flat rows made of the generated values. *)
Lemma rows_from_values count fields n : forall i run rows,
  rows_from random_index ambient count fields i n run = Ok rows ->
  Forall2 (fun vals row => unflatten (flat_row fields vals) = Ok row)
          (fst (generate_rows random_index ambient count fields i n run)) rows.
Proof.
  induction n as [| n IH]; intros i run rows H.
  - injection H as <-. constructor.
  - cbn [rows_from generate_rows] in *.
    destruct (existsb generator_throws fields); [discriminate H |].
    destruct (generate_fields random_index ambient count fields i 0 fields run)
      as [vals run1].
    destruct (unflatten (flat_row fields vals)) as [row | |] eqn:Hrow;
      cbn [bind] in H; try discriminate.
    destruct (rows_from random_index ambient count fields (S i) n run1)
      as [result | |] eqn:Hrest; cbn [bind] in H; try discriminate.
    injection H as <-. specialize (IH _ _ _ Hrest).
    destruct (generate_rows random_index ambient count fields (S i) n run1).
    cbn [fst] in *. now constructor.
Qed.

Lemma generateLocalData_rows count fields rows :
  generateLocalData random_index ambient count fields = Ok rows ->
  length rows = count
  /\ forall i row, rows !! i = Some row ->
       exists vals,
         (forall j, vals !! j = generated random_index ambient count fields i j)
         /\ unflatten (flat_row fields vals) = Ok row.
Proof.
  unfold generateLocalData. destruct (modelled fields); [| discriminate].
  intros H. apply rows_from_values in H.
  split.
  - rewrite <- (Forall2_length _ _ _ H). apply generate_rows_length.
  - intros i row Hrow.
    destruct (Forall2_lookup_r _ _ _ _ _ H Hrow) as (vals & Hvals & Hun).
    exists vals. split; [| assumption].
    intros j. unfold generated. now rewrite Hvals.
Qed.
End Rows.

(** The scenario of the specification: grouping on [team] with values A and
    B, two rows per group, four rows. *)
Example generateLocalData_teams (random_index : nat -> nat -> nat)
    (ambient : nat -> nat -> jsval) :
  generateLocalData random_index ambient 4 [Sample.team; Sample.id]
  = Ok [JObj [("team", JStr "A"); ("id", JNum (Int 1001))];
        JObj [("team", JStr "A"); ("id", JNum (Int 1002))];
        JObj [("team", JStr "B"); ("id", JNum (Int 1001))];
        JObj [("team", JStr "B"); ("id", JNum (Int 1002))]].
Proof. reflexivity. Qed.


(** * Further properties *)

(** ** What [flattenObject] stores *)

Lemma replace_values (Q : jsval -> Prop) (o : Obj.t) k v :
  Forall (fun kv => Q (snd kv)) o -> Q v ->
  Forall (fun kv => Q (snd kv)) (Obj.replace o k v).
Proof.
  intros Ho Hv. induction o as [| [k' v'] o IH]; [constructor |].
  apply Forall_cons in Ho as [Hv' Ho]. cbn [Obj.replace].
  destruct (String.eqb k' k); constructor; auto.
Qed.

Lemma insert_index_values (Q : jsval -> Prop) (o : Obj.t) n k v :
  Forall (fun kv => Q (snd kv)) o -> Q v ->
  Forall (fun kv => Q (snd kv)) (Obj.insert_index o n k v).
Proof.
  intros Ho Hv. induction o as [| [k' v'] o IH]; [repeat constructor; exact Hv |].
  pose proof Ho as Hall. apply Forall_cons in Ho as [Hv' Ho]. cbn [Obj.insert_index].
  destruct (array_index k') as [n' |]; [destruct (n' <? n)%N |];
    constructor; auto.
Qed.

Lemma set_values (Q : jsval -> Prop) (o : Obj.t) k v :
  Forall (fun kv => Q (snd kv)) o -> Q v ->
  Forall (fun kv => Q (snd kv)) (Obj.set o k v).
Proof.
  intros Ho Hv. unfold Obj.set.
  destruct (String.eqb k "__proto__"); [exact Ho |].
  destruct (Obj.own o k).
  - now apply replace_values.
  - destruct (array_index k).
    + now apply insert_index_values.
    + apply Forall_app. split; [exact Ho | repeat constructor; exact Hv].
Qed.

Lemma assign_values (Q : jsval -> Prop) (src : Obj.t) : forall o : Obj.t,
  Forall (fun kv => Q (snd kv)) o ->
  Forall (fun kv => Q (snd kv)) src ->
  Forall (fun kv => Q (snd kv)) (Obj.assign o src).
Proof.
  unfold Obj.assign. induction src as [| [k v] src IH]; intros o Ho Hsrc; [exact Ho |].
  apply Forall_cons in Hsrc as [Hv Hsrc]. cbn [fold_left fst snd].
  apply IH; [now apply set_values | exact Hsrc].
Qed.

(** A value is a leaf when it is neither an array nor an object. *)
Lemma flatten_entry_leaves (flatten : jsval -> string -> Obj.t) prefix
    (result : Obj.t) k value :
  Forall (fun kv => is_object (snd kv) = false) result ->
  (forall p, is_object value = true ->
     Forall (fun kv => is_object (snd kv) = false) (flatten value p)) ->
  (forall first rest p, value = JArr (first :: rest) ->
     Forall (fun kv => is_object (snd kv) = false) (flatten first p)) ->
  Forall (fun kv => is_object (snd kv) = false)
         (flatten_entry flatten prefix result k value).
Proof.
  intros Hres Hself Hfirst. unfold flatten_entry.
  destruct value as [| | b | n | s | [| first rest] | props];
    try (apply (set_values (fun v => is_object v = false)); [exact Hres | reflexivity]).
  - exact Hres.
  - destruct (is_object first) eqn:Hobj.
    + apply (assign_values (fun v => is_object v = false)); [exact Hres |].
      now apply (Hfirst first rest).
    + now apply (set_values (fun v => is_object v = false)).
  - apply (assign_values (fun v => is_object v = false)); [exact Hres |].
    now apply Hself.
Qed.

Lemma fold_left_invariant {S A : Type} (Inv : S -> Prop) (f : S -> A -> S)
    (l : list A) :
  (forall s a, In a l -> Inv s -> Inv (f s a)) ->
  forall s, Inv s -> Inv (fold_left f l s).
Proof.
  induction l as [| a l IH]; intros Hf s Hs; [exact Hs |].
  cbn [fold_left]. apply IH.
  - intros s' a' Hin. apply Hf. now right.
  - apply Hf; [now left | exact Hs].
Qed.

Lemma flattenObject_leaves_and_first (obj : jsval) :
  (forall prefix,
     Forall (fun kv => is_object (snd kv) = false) (flattenObject obj prefix))
  /\ match obj with
     | JArr (first :: _) =>
         forall prefix,
           Forall (fun kv => is_object (snd kv) = false) (flattenObject first prefix)
     | _ => True
     end.
Proof.
  induction obj as [| | b | n | s | elems IH | props IH] using jsval_ind;
    try (split; [intros prefix; constructor | exact I]).
  - split; [| exact I]. intros prefix. cbn [flattenObject].
    apply (fold_left_invariant
             (fun st : nat * Obj.t => Forall (fun kv => is_object (snd kv) = false) (snd st)));
      [| constructor].
    intros st c _ Hst. cbn [snd].
    now apply (set_values (fun v => is_object v = false)).
  - split.
    + intros prefix. cbn [flattenObject].
      apply (fold_left_invariant
               (fun st : nat * Obj.t =>
                  Forall (fun kv => is_object (snd kv) = false) (snd st)));
        [| constructor].
      intros st value Hin Hst. cbn [snd].
      rewrite List.Forall_forall in IH. destruct (IH value Hin) as [Hself Hfirst].
      apply flatten_entry_leaves; [exact Hst | intros p _; apply Hself |].
      intros first rest p ->. apply Hfirst.
    + destruct elems as [| first rest]; [exact I |].
      apply Forall_cons in IH as [[Hfirst _] _]. exact Hfirst.
  - split; [| exact I]. intros prefix. cbn [flattenObject].
    apply (fold_left_invariant (fun acc : Obj.t =>
             Forall (fun kv => is_object (snd kv) = false) acc)); [| constructor].
    intros acc kv Hin Hacc.
    rewrite List.Forall_forall in IH. destruct (IH kv Hin) as [Hself Hfirst].
    apply flatten_entry_leaves; [exact Hacc | intros p _; apply Hself |].
    intros first rest p Hv. rewrite Hv in Hfirst. apply Hfirst.
Qed.

(** X1.  Whatever value [flattenObject] is given, and under any prefix, no
    entry of the flat map it returns holds an array or an object: nesting is
    always resolved into keys, and what is stored is a number, a string, a
    boolean, [null] or [undefined]. *)
Theorem flattenObject_stores_leaves (obj : jsval) (prefix : string) :
  Forall (fun kv => is_object (snd kv) = false) (flattenObject obj prefix).
Proof. apply flattenObject_leaves_and_first. Qed.

(** ** What local analysis infers *)

Lemma infer_field_of_leaf (Date_parse : string -> bool) (host_string : jsval -> string)
    (k : string) (v : jsval) :
  is_object v = false ->
  let f := infer_field Date_parse host_string k v in
  type f <> ARRAY
  /\ sampleValue f = Some v
  /\ hasGroup f = false
  /\ (type f = NUMBER -> In (strategy f) [INCREMENT; RANDOM_INT; RANDOM_FLOAT])
  /\ (type f = BOOLEAN -> strategy f = ENUM)
  /\ (type f = NULL -> strategy f = STATIC).
Proof.
  intros Hleaf f. subst f.
  destruct v as [| | b | n | s | elems | props]; try discriminate Hleaf;
    unfold hasGroup, infer_field, determineStrategy;
    cbn [type sampleValue strategy options].
  - repeat split; try discriminate.
  - repeat split; try discriminate.
  - repeat split; try discriminate.
  - destruct ((String.eqb (toLowerCase k) "id" || endsWith (toLowerCase k) "_id"
               || endsWith (toLowerCase k) "Id") && isInteger n);
      [| destruct (isInteger n)];
      (split; [discriminate |]); (split; [reflexivity |]); (split; [reflexivity |]);
      (split; [intros _; cbn; tauto |]); split; discriminate.
  - split; [discriminate |]. split; [reflexivity |].
    split; [| repeat split; discriminate].
    destruct (uuid_test s); [reflexivity |].
    destruct (iso_date_test s
              || Date_parse s
                 && (includes (toLowerCase k) "date" || includes (toLowerCase k) "time"
                     || includes (toLowerCase k) "_at")); [reflexivity |].
    destruct (includes (toLowerCase k) "email"); [reflexivity |].
    destruct (includes (toLowerCase k) "name" || includes (toLowerCase k) "user"
              || includes (toLowerCase k) "author"); [reflexivity |].
    destruct (includes (toLowerCase k) "phone" || includes (toLowerCase k) "tel");
      [reflexivity |].
    destruct (includes (toLowerCase k) "address" || includes (toLowerCase k) "city"
              || includes (toLowerCase k) "street" || includes (toLowerCase k) "country");
      reflexivity.
Qed.

(** X2.  Every field local analysis returns is the field of a leaf of the
    sample: its [sampleValue] is a number, a string, a boolean or [null],
    never an array or an object, so its type is never [array]; it carries no
    [groupingConfig]; and its strategy agrees with its type: a number field
    is [increment], [random_int] or [random_float], a boolean field is
    [enum], a null field is [static]. *)
Theorem analysis_infers_leaf_fields (Date_parse : string -> bool)
    (host_string : jsval -> string) (parsed : jsval) (f : FieldConfig) :
  In f (fields (analyzeJsonStructureLocal Date_parse host_string parsed)) ->
  type f <> ARRAY
  /\ (exists v, sampleValue f = Some v /\ is_object v = false)
  /\ hasGroup f = false
  /\ (type f = NUMBER -> In (strategy f) [INCREMENT; RANDOM_INT; RANDOM_FLOAT])
  /\ (type f = BOOLEAN -> strategy f = ENUM)
  /\ (type f = NULL -> strategy f = STATIC).
Proof.
  unfold analyzeJsonStructureLocal. cbn [fields].
  intros Hin. apply in_map_iff in Hin as ([k v] & <- & Hkv). cbn [fst snd].
  assert (Hleaf : is_object v = false).
  { match type of Hkv with
    | In _ (flattenObject ?sample _) =>
        pose proof (proj1 (flattenObject_leaves_and_first sample) "") as Hall
    end.
    rewrite List.Forall_forall in Hall. exact (Hall (k, v) Hkv). }
  destruct (infer_field_of_leaf Date_parse host_string k v Hleaf)
    as (H1 & H2 & H3 & H4 & H5 & H6).
  repeat split; try assumption. now exists v.
Qed.

Lemma analysis_infers_leaf_fields_witness :
  let f := infer_field (fun _ => false) (fun _ => "") "tags.0" (JBool true) in
  type f <> ARRAY
  /\ (exists v, sampleValue f = Some v /\ is_object v = false)
  /\ hasGroup f = false
  /\ (type f = NUMBER -> In (strategy f) [INCREMENT; RANDOM_INT; RANDOM_FLOAT])
  /\ (type f = BOOLEAN -> strategy f = ENUM)
  /\ (type f = NULL -> strategy f = STATIC).
Proof.
  apply (analysis_infers_leaf_fields (fun _ => false) (fun _ => "")
           (JArr [JObj [("tags", JArr [JBool true; JBool false])]])).
  left. reflexivity.
Defined.

(** ** The message a failed program leaves *)

(** X3.  When the delegated program throws a value that is not an object (a
    string, a number, a boolean), [executeGeneratedCode] raises the wrapped
    error, and the text of that error ends in [undefined]: what was thrown
    has no [message], so its content is lost. *)
Theorem thrown_primitive_loses_its_text (host_string : jsval -> string)
    (run_program : string -> nat -> list FieldConfig -> completion)
    (code : string) (count : nat) (fields : list FieldConfig) (thrown : jsval) :
  run_program code count fields = Raises thrown ->
  is_object thrown = false ->
  thrown <> JNull ->
  thrown <> JUndefined ->
  executeGeneratedCode host_string run_program code count fields
  = Throws (Error "Failed to execute generation logic: undefined").
Proof.
  intros Hrun Hprim Hnull Hundef. unfold executeGeneratedCode. rewrite Hrun.
  destruct thrown; try discriminate Hprim; try contradiction; reflexivity.
Qed.

Lemma thrown_primitive_loses_its_text_witness :
  executeGeneratedCode (fun _ => "") (fun _ _ _ => Raises (JStr "quota exceeded"))
                       "throw 'quota exceeded'" 3 []
  = Throws (Error "Failed to execute generation logic: undefined").
Proof.
  apply (thrown_primitive_loses_its_text _ _ _ _ _ (JStr "quota exceeded"));
    [reflexivity | reflexivity | discriminate | discriminate].
Defined.

(** ** From the sample to the rows: what inferred fields generate *)

(** X4.  A field inferred from a boolean of the sample is an [enum] over the
    texts [true] and [false], and no type enforcement applies to an [enum]:
    every row holds the text ["true"] or the text ["false"] for it, never a
    boolean. *)
Theorem inferred_boolean_generates_text
    (random_index : nat -> nat -> nat) (ambient : nat -> nat -> jsval)
    (Date_parse : string -> bool) (host_string : jsval -> string)
    (count : nat) (fields : list FieldConfig) (i j : nat) (k : string) (b : bool) :
  (i < count)%nat ->
  fields !! j = Some (infer_field Date_parse host_string k (JBool b)) ->
  generated random_index ambient count fields i j = Some (JStr "true")
  \/ generated random_index ambient count fields i j = Some (JStr "false").
Proof.
  intros Hi Hj. rewrite (generated_field _ _ _ _ _ _ _ Hi Hj).
  unfold generate_field, infer_field, determineStrategy, options_or_empty.
  cbn [options strategy key FieldOptions.groupingConfig FieldOptions.values
       Inferred.options Inferred.strategy generator fst snd length].
  pose proof (Nat.mod_upper_bound (random_index i j) 2 ltac:(lia)) as Hlt.
  destruct (random_index i j mod 2)%nat as [| [| r]]; [left | right | lia];
    reflexivity.
Qed.

Lemma inferred_boolean_generates_text_witness :
  generated Sample.no_draw Sample.no_ambient 2
    [infer_field (fun _ => false) (fun _ => "") "is_active" (JBool true)] 1 0
  = Some (JStr "true")
  \/ generated Sample.no_draw Sample.no_ambient 2
       [infer_field (fun _ => false) (fun _ => "") "is_active" (JBool true)] 1 0
     = Some (JStr "false").
Proof.
  apply (inferred_boolean_generates_text Sample.no_draw Sample.no_ambient
           (fun _ => false) (fun _ => "") 2 _ 1 0 "is_active" true);
    [lia | reflexivity].
Defined.

(** X5.  A field inferred from a [null] of the sample is [static] with the
    text ["null"] and of type [null], a type the enforcement leaves alone:
    every row holds the text ["null"] for it, never [null]. *)
Theorem inferred_null_generates_text
    (random_index : nat -> nat -> nat) (ambient : nat -> nat -> jsval)
    (Date_parse : string -> bool) (host_string : jsval -> string)
    (count : nat) (fields : list FieldConfig) (i j : nat) (k : string) :
  (i < count)%nat ->
  fields !! j = Some (infer_field Date_parse host_string k JNull) ->
  generated random_index ambient count fields i j = Some (JStr "null").
Proof.
  intros Hi Hj. rewrite (generated_field _ _ _ _ _ _ _ Hi Hj). reflexivity.
Qed.

Lemma inferred_null_generates_text_witness :
  generated Sample.no_draw Sample.no_ambient 2
    [infer_field (fun _ => false) (fun _ => "") "deleted_at" JNull] 1 0
  = Some (JStr "null").
Proof.
  apply (inferred_null_generates_text Sample.no_draw Sample.no_ambient
           (fun _ => false) (fun _ => "") 2 _ 1 0 "deleted_at");
    [lia | reflexivity].
Defined.

(** ** Parameter edits *)

Lemma isStructuralChange_false (f1 f2 : FieldConfig) :
  isStructuralChange f1 f2 = false
  <-> key f1 = key f2 /\ type f1 = type f2 /\ strategy f1 = strategy f2
      /\ hasGroup f1 = hasGroup f2.
Proof.
  unfold isStructuralChange.
  destruct (String.eqb (key f1) (key f2)) eqn:Hk; cbn [negb].
  2: { apply String.eqb_neq in Hk. split; [discriminate | tauto]. }
  apply String.eqb_eq in Hk.
  destruct (FieldType_eqb (type f1) (type f2)) eqn:Ht; cbn [negb].
  2: { split; [discriminate |]. intros (_ & H & _). apply FieldType_eqb_eq in H.
       congruence. }
  apply FieldType_eqb_eq in Ht.
  destruct (GenerationStrategy_eqb (strategy f1) (strategy f2)) eqn:Hs; cbn [negb].
  2: { split; [discriminate |]. intros (_ & _ & H & _).
       apply GenerationStrategy_eqb_eq in H. congruence. }
  apply GenerationStrategy_eqb_eq in Hs.
  destruct (hasGroup f1), (hasGroup f2); cbn [Bool.eqb negb];
    (split; [intros H; try discriminate H; tauto | intros (_ & _ & _ & H)]);
    try discriminate H;
    now destruct (negb (present (options f1)) && present (options f2)
                  || present (options f1) && negb (present (options f2))).
Qed.

(** X6.  Being a parameter edit ([isStructuralChange] answers [false]) is an
    equivalence on fields: a field is a parameter edit of itself, the answer
    does not depend on the order of the two fields, and a parameter edit of
    a parameter edit is a parameter edit of the first field, so a cached
    program survives any chain of such edits. *)
Theorem parameter_edits_compose (f1 f2 f3 : FieldConfig) :
  isStructuralChange f1 f1 = false
  /\ isStructuralChange f1 f2 = isStructuralChange f2 f1
  /\ (isStructuralChange f1 f2 = false ->
      isStructuralChange f2 f3 = false ->
      isStructuralChange f1 f3 = false).
Proof.
  split; [now apply isStructuralChange_false |]. split.
  - destruct (isStructuralChange f2 f1) eqn:H21.
    + destruct (isStructuralChange f1 f2) eqn:H12; [reflexivity |].
      apply isStructuralChange_false in H12 as (Hk & Ht & Hs & Hg).
      assert (H : isStructuralChange f2 f1 = false)
        by (apply isStructuralChange_false; auto).
      congruence.
    + apply isStructuralChange_false in H21 as (Hk & Ht & Hs & Hg).
      apply isStructuralChange_false; auto.
  - intros H12 H23.
    apply isStructuralChange_false in H12 as (Hk & Ht & Hs & Hg).
    apply isStructuralChange_false in H23 as (Hk' & Ht' & Hs' & Hg').
    apply isStructuralChange_false. repeat split; congruence.
Qed.

(** ** Reading the flat keys back *)

(** The flat form of a record that survives the round trip, entry by entry:
    the leaves with their paths joined. *)
Lemma flatten_roundtrippable (x : jsval) :
  roundtrippable x = true ->
  flattenObject x "" = map (keyed "") (leaves x)
  /\ Forall (fun qv => forallb segment (fst qv) = true) (leaves x).
Proof.
  intros Hx. destruct x as [| | | | | | props]; try discriminate Hx.
  cbn [roundtrippable] in Hx. apply andb_prop in Hx as [Hdist Hall]. split.
  - cbn [flattenObject leaves].
    apply (flatten_props "" props []); try assumption.
    apply Forall_forall. intros kv _. apply flatten_all.
  - cbn [leaves]. clear -Hall.
    induction props as [| [k c] props IH]; [apply Forall_nil_2 |].
    cbn [forallb fst snd] in Hall. apply andb_prop in Hall as [Hkc Hall].
    apply andb_prop in Hkc as [Hplain Hsound].
    cbn [flat_map fst snd]. apply Forall_app. split; [| now apply IH].
    apply Forall_forall. intros qv Hqv.
    destruct (leaves_below_shape k c qv (leaves_segments c Hsound) Hqv) as (q & -> & Hq).
    cbn [forallb]. now rewrite (plain_segment k Hplain).
Qed.

Lemma own_of_distinct (props : Obj.t) k c :
  distinct (map fst props) = true -> In (k, c) props -> Obj.own props k = Some c.
Proof.
  induction props as [| [k' c'] props IH]; intros Hd Hin; [destruct Hin |].
  cbn [map fst] in Hd. apply distinct_cons in Hd as [Hfresh Hd].
  cbn [Obj.own]. destruct Hin as [Heq | Hin].
  - injection Heq as -> ->. now rewrite String.eqb_refl.
  - destruct (String.eqb k' k) eqn:Hk; [| now apply IH].
    apply String.eqb_eq in Hk. subst k'.
    assert (Hex : existsb (String.eqb k) (map fst props) = true).
    { apply existsb_exists. exists k. split; [| apply String.eqb_refl].
      apply in_map_iff. now exists (k, c). }
    congruence.
Qed.

(** The [reduce] of [getNestedValue] along the path of a leaf arrives at the
    leaf. *)
Lemma walk_to_leaf (c : jsval) :
  sound c = true ->
  forall q v, In (q, v) (leaves c) ->
    fold_left (fun acc part => let* a := acc in nested_step a part) q (Ok c) = Ok v.
Proof.
  induction c as [| | b | n | s | elems IH | props IH] using jsval_ind;
    intros Hsound q v Hin; try destruct Hin.
  - destruct elems as [| e [|]]; try discriminate Hsound.
    apply Forall_cons in IH as [IHe _]. cbn [sound] in Hsound.
    cbn [leaves] in Hin. unfold leaves_below in Hin.
    destruct (is_object e) eqn:Hobj.
    + apply in_map_iff in Hin as ([q' v'] & Heq & Hin). injection Heq as <- <-.
      cbn [fold_left fst snd bind]. now apply IHe.
    + destruct Hin as [Heq | []]. injection Heq as <- <-. reflexivity.
  - cbn [sound] in Hsound. apply andb_prop in Hsound as [Hsound Hall].
    apply andb_prop in Hsound as [_ Hdist].
    cbn [leaves] in Hin. apply in_flat_map in Hin as ([k c] & Hkc & Hin).
    cbn [fst snd] in Hin.
    pose proof (own_of_distinct props k c Hdist Hkc) as Hown.
    rewrite List.Forall_forall in IH. specialize (IH _ Hkc). cbn [snd] in IH.
    rewrite forallb_forall in Hall. specialize (Hall _ Hkc). cbn [fst snd] in Hall.
    apply andb_prop in Hall as [_ Hc].
    unfold leaves_below in Hin. destruct (is_object c) eqn:Hobj.
    + apply in_map_iff in Hin as ([q' v'] & Heq & Hin). injection Heq as <- <-.
      cbn [fold_left fst snd bind nested_step ToBoolean get_prop]. rewrite Hown.
      now apply IH.
    + destruct Hin as [Heq | []]. injection Heq as <- <-.
      cbn [fold_left bind nested_step ToBoolean get_prop]. now rewrite Hown.
Qed.

(** X7.  For a record that survives the round trip, [getNestedValue] reads
    back what [flattenObject] stored: for every entry [(k, v)] of the flat
    form of the record, [getNestedValue(record, k)] is [v]. *)
Theorem getNestedValue_reads_flat_keys (x : jsval) (k : string) (v : jsval) :
  roundtrippable x = true ->
  In (k, v) (flattenObject x "") ->
  getNestedValue x k = Ok v.
Proof.
  intros Hx Hin. destruct (flatten_roundtrippable x Hx) as [Hflat Hseg].
  rewrite Hflat in Hin. apply in_map_iff in Hin as ([q v'] & Heq & Hin).
  unfold keyed in Heq. cbn [fst snd] in Heq. injection Heq as <- <-.
  rewrite List.Forall_forall in Hseg. pose proof (Hseg _ Hin) as Hq. cbn [fst] in Hq.
  pose proof (leaves_nonempty x) as Hne. rewrite List.Forall_forall in Hne.
  specialize (Hne _ Hin). cbn [fst] in Hne.
  unfold getNestedValue. rewrite (join_path_split q "" Hq Hne). cbn [prefix_path app].
  destruct x as [| | | | | | props]; try discriminate Hx.
  destruct props as [| kv props]; [destruct Hin |].
  apply walk_to_leaf; [| exact Hin].
  cbn [roundtrippable] in Hx. cbn [sound]. exact Hx.
Qed.

Lemma getNestedValue_reads_flat_keys_witness :
  getNestedValue Nested.record "user.tags.0" = Ok (JStr "x").
Proof.
  apply (getNestedValue_reads_flat_keys Nested.record "user.tags.0" (JStr "x"));
    [reflexivity |].
  vm_compute. tauto.
Defined.

(** ** The clean-up of the generated program text *)

Lemma trim_start_spaces (ws : string) (c : ascii) (rest : string) :
  trim_start ws = "" ->
  is_space c = false ->
  trim_start (ws ++ String c rest) = String c rest.
Proof.
  intros Hws Hc. induction ws as [| d ws IH].
  - change (trim_start (String c rest) = String c rest).
    cbn [trim_start]. now rewrite Hc.
  - rewrite string_app_cons. cbn [trim_start] in *.
    destruct (is_space d); [now apply IH | discriminate Hws].
Qed.

Lemma longer_is_not_fence (s : string) :
  (3 < String.length s)%nat -> String.eqb s "```" = false.
Proof.
  intros Hlen. apply String.eqb_neq. intros ->. cbn in Hlen. lia.
Qed.

Lemma length_append (a b : string) :
  String.length (a ++ b) = (String.length a + String.length b)%nat.
Proof.
  induction a as [| c a IH]; [reflexivity |].
  rewrite string_app_cons. cbn [String.length]. now rewrite IH.
Qed.

Lemma drop_closing_fence_last (body : string) :
  drop_closing_fence (body ++ "```") = body.
Proof.
  induction body as [| c body IH]; [reflexivity |].
  rewrite string_app_cons. cbn [drop_closing_fence].
  rewrite <- string_app_cons, longer_is_not_fence.
  - now rewrite IH.
  - rewrite length_append. cbn [String.length]. lia.
Qed.

Lemma drop_closing_fence_none (s : string) :
  endsWith s "```" = false -> drop_closing_fence s = s.
Proof.
  induction s as [| c s IH]; intros H; [reflexivity |].
  cbn [endsWith] in H. apply orb_false_elim in H as [Heq Hend].
  cbn [drop_closing_fence]. rewrite Heq. now rewrite IH.
Qed.

Lemma spaces_end_no_fence (tail : string) :
  tail <> "" -> trim_start tail = "" -> endsWith tail "```" = false.
Proof.
  induction tail as [| c tail IH]; intros Hne Hsp; [contradiction |].
  cbn [trim_start] in Hsp. destruct (is_space c) eqn:Hc; [| discriminate Hsp].
  cbn [endsWith]. apply orb_false_intro.
  - apply String.eqb_neq. intros Heq. injection Heq as -> _. discriminate Hc.
  - destruct tail as [| d tail]; [reflexivity |]. apply IH; [discriminate | exact Hsp].
Qed.

Lemma endsWith_append (a b p : string) :
  (String.length p <= String.length b)%nat ->
  endsWith (a ++ b) p = endsWith b p.
Proof.
  intros Hlen. induction a as [| c a IH]; [reflexivity |].
  rewrite string_app_cons. cbn [endsWith]. rewrite IH.
  replace (String.eqb (String c (a ++ b)) p) with false; [reflexivity |].
  symmetry. apply String.eqb_neq. intros <-.
  cbn [String.length] in Hlen. rewrite length_append in Hlen. lia.
Qed.

Lemma drop_opening_fence_none (lang : string) (c : ascii) (s : string) :
  c <> "`"%char -> drop_opening_fence lang (String c s) = String c s.
Proof.
  intros Htick. unfold drop_opening_fence.
  change ("```" ++ lang)%string with (String "`" ("``" ++ lang)).
  cbn [strip_prefix].
  destruct (Ascii.eqb "`" c) eqn:Heq; [| reflexivity].
  apply Ascii.eqb_eq in Heq. congruence.
Qed.

(** X8.  The clean-up unwraps a fenced program: a text that opens with the
    fence [```javascript] or [```js], then white space, then a body that
    starts with a character that is neither white space nor a backtick, and
    that closes with [```] at its very end, is reduced to the body. *)
Theorem clean_code_unwraps (ws : string) (c : ascii) (rest : string) :
  trim_start ws = "" ->
  is_space c = false ->
  c <> "`"%char ->
  clean_code (Some ("```javascript" ++ ws ++ String c rest ++ "```")%string) = String c rest
  /\ clean_code (Some ("```js" ++ ws ++ String c rest ++ "```")%string) = String c rest.
Proof.
  intros Hws Hc Htick.
  assert (Htrim : trim_start (ws ++ String c rest ++ "```")
                  = (String c rest ++ "```")%string).
  { rewrite (string_app_cons c rest). now apply trim_start_spaces. }
  cbv beta iota zeta delta [clean_code default id]. split.
  - change (drop_opening_fence "javascript"
              ("```javascript" ++ ws ++ String c rest ++ "```")%string)
      with (trim_start (ws ++ String c rest ++ "```")).
    rewrite Htrim, (string_app_cons c rest), (drop_opening_fence_none "js" c _ Htick).
    rewrite <- string_app_cons. apply drop_closing_fence_last.
  - replace (drop_opening_fence "javascript"
               ("```js" ++ ws ++ String c rest ++ "```")%string)
      with ("```js" ++ ws ++ String c rest ++ "```")%string by reflexivity.
    change (drop_opening_fence "js" ("```js" ++ ws ++ String c rest ++ "```")%string)
      with (trim_start (ws ++ String c rest ++ "```")).
    rewrite Htrim. apply drop_closing_fence_last.
Qed.

Lemma clean_code_unwraps_witness :
  clean_code (Some ("```javascript" ++ String "010" "" ++ "function f() {}" ++ "```")%string)
  = "function f() {}"
  /\ clean_code (Some ("```js" ++ String "010" "" ++ "function f() {}" ++ "```")%string)
     = "function f() {}".
Proof.
  apply (clean_code_unwraps (String "010" "") "f" "unction f() {}");
    [reflexivity | reflexivity | discriminate].
Defined.

(** X9.  The closing fence is removed only at the very end of the text: when
    white space (a final line break) follows it, the clean-up removes the
    opening fence and leaves the closing fence and what follows in the
    program text. *)
Theorem clean_code_keeps_fence_before_newline (ws tail : string) (c : ascii)
    (rest : string) :
  trim_start ws = "" ->
  is_space c = false ->
  c <> "`"%char ->
  tail <> "" ->
  trim_start tail = "" ->
  clean_code (Some ("```javascript" ++ ws ++ String c rest ++ "```" ++ tail)%string)
  = (String c rest ++ "```" ++ tail)%string.
Proof.
  intros Hws Hc Htick Hne Htail.
  cbv beta iota zeta delta [clean_code default id].
  change (drop_opening_fence "javascript"
            ("```javascript" ++ ws ++ String c rest ++ "```" ++ tail)%string)
    with (trim_start (ws ++ String c rest ++ "```" ++ tail)).
  rewrite (string_app_cons c rest), (trim_start_spaces ws c _ Hws Hc).
  rewrite (drop_opening_fence_none "js" c _ Htick).
  apply drop_closing_fence_none.
  rewrite <- string_app_cons.
  destruct tail as [| d tail]; [contradiction |].
  pose proof (spaces_end_no_fence (String d tail) Hne Htail) as Hsp.
  destruct (Nat.le_gt_cases 3 (String.length (String d tail))) as [Hlong | Hshort].
  - rewrite (endsWith_append (String c rest) _ "```").
    2: { rewrite length_append. cbn [String.length] in *. lia. }
    rewrite (endsWith_append "```" _ "```"); [exact Hsp | exact Hlong].
  - assert (Hd : Ascii.eqb d "`" = false).
    { apply Ascii.eqb_neq. intros ->. discriminate Htail. }
    rewrite (endsWith_append (String c rest) _ "```").
    2: { rewrite length_append. cbn [String.length]. lia. }
    destruct tail as [| d2 [| d3 tail]]; cbn [String.length] in Hshort; try lia.
    + change ("```" ++ String d "")%string
        with (String "`" (String "`" (String "`" (String d "")))).
      cbn [endsWith String.eqb]. rewrite Hd. reflexivity.
    + assert (Hd2 : Ascii.eqb d2 "`" = false).
      { apply Ascii.eqb_neq. intros ->. cbn [trim_start] in Htail.
        destruct (is_space d); discriminate Htail. }
      change ("```" ++ String d (String d2 ""))%string
        with (String "`" (String "`" (String "`" (String d (String d2 ""))))).
      cbn [endsWith String.eqb]. rewrite Hd, Hd2. reflexivity.
Qed.

Lemma clean_code_keeps_fence_before_newline_witness :
  clean_code (Some ("```javascript" ++ String "010" "" ++ "function f() {}" ++ "```"
                    ++ String "010" "")%string)
  = ("function f() {}" ++ "```" ++ String "010" "")%string.
Proof.
  apply (clean_code_keeps_fence_before_newline
           (String "010" "") (String "010" "") "f" "unction f() {}");
    [reflexivity | reflexivity | discriminate | discriminate | reflexivity].
Defined.

(** ** The draws stay in range *)

Lemma nearest_rounds (n d : Z) :
  0 < n -> 0 < d ->
  let '(q, e) := nearest n d in
  let num := if 0 <=? e then n else n * 2 ^ (- e) in
  let den := if 0 <=? e then d * 2 ^ e else d in
  0 <= q /\ 2 * (q * den) <= 2 * num + den.
Proof.
  intros Hn Hd. unfold nearest.
  set (l := Z.log2 n - Z.log2 d).
  set (fl := if (if 0 <=? l then d * 2 ^ l <=? n else d <=? n * 2 ^ (- l)) then l else l - 1).
  set (e := Z.max (fl - 52) (-1074)).
  set (num := if 0 <=? e then n else n * 2 ^ (- e)).
  set (den := if 0 <=? e then d * 2 ^ e else d).
  cbv zeta.
  assert (Hden : 0 < den).
  { subst den. destruct (0 <=? e) eqn:He; [| lia].
    apply Z.leb_le in He. pose proof (Z.pow_pos_nonneg 2 e ltac:(lia) He). nia. }
  assert (Hnum : 0 < num).
  { subst num. destruct (0 <=? e) eqn:He; [lia |].
    apply Z.leb_gt in He. pose proof (Z.pow_pos_nonneg 2 (- e) ltac:(lia) ltac:(lia)). nia. }
  pose proof (Z.div_mod num den ltac:(lia)) as Hdm.
  pose proof (Z.mod_pos_bound num den Hden) as Hr.
  pose proof (Z.div_pos num den ltac:(lia) Hden) as Hq.
  set (q := num / den) in *. set (r := num mod den) in *.
  assert (Hqd : q * den = num - r) by lia.
  destruct (2 * r <? den) eqn:H1; [zify_bool; lia |].
  destruct (den <? 2 * r) eqn:H2; [zify_bool; lia |].
  destruct (Z.even q); zify_bool; lia.
Qed.

(** The exponent [nearest] chooses leaves a quotient of at least 2^52,
    unless it is the exponent of the subnormal doubles. *)
Lemma nearest_scales (n d : Z) :
  0 < n -> 0 < d ->
  let e := snd (nearest n d) in
  let num := if 0 <=? e then n else n * 2 ^ (- e) in
  let den := if 0 <=? e then d * 2 ^ e else d in
  -1074 <= e /\ (e = -1074 \/ 2 ^ 52 * den <= num).
Proof.
  intros Hn Hd. unfold nearest.
  set (l := Z.log2 n - Z.log2 d).
  set (above := if 0 <=? l then d * 2 ^ l <=? n else d <=? n * 2 ^ (- l)).
  set (fl := if above then l else l - 1).
  cbv zeta. cbn [snd].
  set (e := Z.max (fl - 52) (-1074)).
  split; [lia |].
  destruct (Z.max_spec (fl - 52) (-1074)) as [[Hlt He] | [Hge He]]; [left; exact He |].
  right. fold e in He.
  destruct (Z.log2_spec n Hn) as [Hn1 Hn2]. destruct (Z.log2_spec d Hd) as [Hd1 Hd2].
  pose proof (Z.log2_nonneg n) as Ha. pose proof (Z.log2_nonneg d) as Hb.
  set (a := Z.log2 n) in *. set (b := Z.log2 d) in *.
  (* 2^fl <= n / d *)
  assert (Hfl : if 0 <=? fl then d * 2 ^ fl <= n else d <= n * 2 ^ (- fl)).
  { subst fl. destruct above eqn:Habove.
    - subst above. destruct (0 <=? l); zify_bool; exact Habove.
    - clear Habove. destruct (0 <=? l - 1) eqn:Hl; zify_bool.
      + assert (H : 2 ^ a = 2 ^ (b + 1) * 2 ^ (l - 1)).
        { rewrite <- Z.pow_add_r by lia. f_equal. lia. }
        pose proof (Z.pow_pos_nonneg 2 (l - 1) ltac:(lia) ltac:(lia)).
        change (Z.succ b) with (b + 1) in Hd2. nia.
      + assert (H : 2 ^ (b + 1) = 2 ^ a * 2 ^ (- (l - 1))).
        { rewrite <- Z.pow_add_r by lia. f_equal. lia. }
        pose proof (Z.pow_pos_nonneg 2 (- (l - 1)) ltac:(lia) ltac:(lia)).
        change (Z.succ b) with (b + 1) in Hd2. nia. }
  destruct (0 <=? e) eqn:Hsign; zify_bool.
  - assert (H0 : (0 <=? fl) = true) by (apply Z.leb_le; lia). rewrite H0 in Hfl.
    replace fl with (52 + e) in Hfl by lia.
    rewrite Z.pow_add_r in Hfl by lia. lia.
  - destruct (0 <=? fl) eqn:H0; zify_bool.
    + assert (H : 2 ^ 52 = 2 ^ fl * 2 ^ (- e)).
      { rewrite <- Z.pow_add_r by lia. f_equal. lia. }
      pose proof (Z.pow_pos_nonneg 2 (- e) ltac:(lia) ltac:(lia)).
      rewrite H. nia.
    + assert (H : 2 ^ (- e) = 2 ^ (- fl) * 2 ^ 52).
      { rewrite <- Z.pow_add_r by lia. f_equal. lia. }
      rewrite H. nia.
Qed.

(** The double nearest to a ratio that is at most [N (1 - 2^-53)] is below
    [N]: its integer part is one of 0, ..., [N - 1]. *)
Lemma floor_of_ratio_below (x d N : Z) :
  0 < x -> 0 < d -> 1 <= N <= 2 ^ 53 ->
  x * 2 ^ 53 <= N * d * (2 ^ 53 - 1) ->
  exists k, floor (of_ratio x d) = Int k /\ 0 <= k < N.
Proof.
  intros Hx Hd HN Hbelow. unfold of_ratio.
  replace (x =? 0) with false by (symmetry; apply Z.eqb_neq; lia).
  rewrite (Z.abs_eq x) by lia.
  replace (x <? 0) with false by (symmetry; apply Z.ltb_ge; lia).
  pose proof (nearest_rounds x d Hx Hd) as Hround.
  pose proof (nearest_scales x d Hx Hd) as Hscale.
  destruct (nearest x d) as [q e]. cbn [snd] in Hscale. cbv zeta in Hscale.
  destruct Hround as [Hq Hround]. destruct Hscale as [He Hscale].
  unfold of_mantissa.
  destruct (q =? 0) eqn:Hq0; [exists 0; split; [reflexivity | lia] |].
  apply Z.eqb_neq in Hq0.
  destruct (0 <=? e) eqn:Hsign; zify_bool.
  - destruct Hscale as [-> | Hscale]; [lia |].
    pose proof (Z.pow_pos_nonneg 2 e ltac:(lia) Hsign) as HP.
    set (P := 2 ^ e) in *.
    assert (Hlt : q * P < N).
    { apply Z.nle_gt. intros Hge.
      assert (H1 : N * d <= q * P * d) by nia.
      assert (H2 : q * (d * P) = q * P * d) by ring.
      nia. }
    replace (2 ^ 1024 <=? q * P) with false.
    2: { symmetry. apply Z.leb_gt. assert (2 ^ 53 < 2 ^ 1024) by reflexivity. lia. }
    exists (q * P). split; [reflexivity | nia].
  - pose proof (Z.pow_pos_nonneg 2 (- e) ltac:(lia) ltac:(lia)) as HQ.
    assert (Hlt : q < N * 2 ^ (- e)).
    { apply Z.nle_gt. intros Hge. set (Q := 2 ^ (- e)) in *.
      assert (H1 : N * Q * d <= q * d) by nia.
      destruct Hscale as [-> | Hscale].
      - assert (HQbig : 2 ^ 53 <= Q) by (subst Q; apply Z.pow_le_mono_r; lia).
        assert (H3 : N * d <= N * Q * d - 2 ^ 52 * N * d) by nia.
        nia.
      - nia. }
    assert (Hdiv : 0 <= q / 2 ^ (- e) < N).
    { split; [apply Z.div_pos; lia |].
      apply Z.div_lt_upper_bound; lia. }
    pose proof (Z.log2_nonneg (Z.land q (- q))) as Htz. fold (trailing_zeros q) in Htz.
    set (s := Z.min (trailing_zeros q) (- e)).
    assert (Hs : 0 <= s <= - e) by lia.
    destruct (e + s =? 0) eqn:Hes; zify_bool.
    + exists (q / 2 ^ s). cbn [signed floor]. split; [reflexivity |].
      replace s with (- e) by lia. exact Hdiv.
    + exists (q / 2 ^ s / 2 ^ Z.pos (Z.to_pos (- (e + s)))).
      cbn [signed floor]. split; [reflexivity |].
      rewrite Z2Pos.id by lia.
      rewrite Z.div_div by (try apply Z.pow_nonzero; try apply Z.pow_pos_nonneg; lia).
      rewrite <- Z.pow_add_r by lia.
      replace (s + - (e + s)) with (- e) by lia. exact Hdiv.
Qed.

Lemma mul_unit_double (m : Z) (p : positive) (n : Z) :
  mul (Dyad m p) (Int n) = of_ratio (m * n) (2 ^ Z.pos p * 1).
Proof. destruct n; reflexivity. Qed.

(** [Math.floor(Math.random() * n)] is one of 0, ..., [n - 1]. *)
Lemma floor_draw (r : number) (n : Z) :
  unit_double r = true -> 1 <= n <= 2 ^ 53 ->
  exists k, floor (mul r (Int n)) = Int k /\ 0 <= k < n.
Proof.
  intros Hr Hn. destruct r as [z | m p | |]; try discriminate Hr.
  - cbn [unit_double] in Hr. apply Z.eqb_eq in Hr. subst z.
    exists 0. split; [| lia]. rewrite mul_Int, Z.mul_0_l. reflexivity.
  - cbn [unit_double] in Hr.
    apply andb_prop in Hr as [Hr Hp]. apply andb_prop in Hr as [Hr H53].
    apply andb_prop in Hr as [H0 H1]. zify_bool.
    rewrite mul_unit_double, Z.mul_1_r.
    pose proof (Z.pow_pos_nonneg 2 (Z.pos p) ltac:(lia) ltac:(lia)) as HP.
    assert (Hm : m * 2 ^ 53 <= 2 ^ Z.pos p * (2 ^ 53 - 1)).
    { destruct (Z.le_gt_cases (Z.pos p) 53) as [Hle | Hgt].
      - assert (2 ^ Z.pos p <= 2 ^ 53) by (apply Z.pow_le_mono_r; lia). nia.
      - assert (2 ^ 54 <= 2 ^ Z.pos p) by (apply Z.pow_le_mono_r; lia). nia. }
    apply floor_of_ratio_below; [nia | lia | lia | nia].
Qed.

(** X10.  For integer bounds [min <= max] below 2^52 in magnitude (a missing
    [min] counting as 0 and a missing [max] as 100), and whatever
    [Math.random()] returns, the [random_int] generator returns an integer
    between [min] and [max], both included. *)
Theorem random_int_within_bounds (r : number) (opts : FieldOptions.t) (a b : Z) :
  unit_double r = true ->
  default (Int 0) (FieldOptions.min opts) = Int a ->
  default (Int 100) (FieldOptions.max opts) = Int b ->
  a <= b ->
  Z.abs a < 2 ^ 52 ->
  Z.abs b < 2 ^ 52 ->
  exists v, random_int r opts = Int v /\ a <= v <= b.
Proof.
  intros Hr Hmin Hmax Hab Ha Hb. unfold random_int. rewrite Hmin, Hmax.
  unfold sub. cbn [neg].
  assert (H53 : 2 ^ 53 = 2 * 2 ^ 52) by reflexivity.
  rewrite (add_Int_safe b (- a)) by lia.
  rewrite (add_Int_safe (b + - a) 1) by lia.
  destruct (floor_draw r (b + - a + 1) Hr ltac:(lia)) as (k & -> & Hk).
  rewrite (add_Int_safe k a) by lia.
  exists (k + a). split; [reflexivity | lia].
Qed.

Lemma random_int_within_bounds_witness :
  exists v,
    random_int (Dyad 3 2)
      {| FieldOptions.min := Some (Int 1); FieldOptions.max := Some (Int 6);
         FieldOptions.step := None; FieldOptions.start := None;
         FieldOptions.precision := None; FieldOptions.values := None;
         FieldOptions.format := None; FieldOptions.pattern := None;
         FieldOptions.staticValue := None; FieldOptions.groupingConfig := None |}
    = Int v /\ 1 <= v <= 6.
Proof.
  apply (random_int_within_bounds (Dyad 3 2) _ 1 6);
    [reflexivity | reflexivity | reflexivity | lia | reflexivity | reflexivity].
Defined.

Lemma pick_member {A : Type} (r : number) (xs : list A) :
  unit_double r = true ->
  xs <> [] ->
  Z.of_nat (length xs) < 2 ^ 32 ->
  exists x, pick r xs = Some x /\ In x xs.
Proof.
  intros Hr Hne Hlen. unfold pick.
  assert (Hpos : 1 <= Z.of_nat (length xs)).
  { destruct xs; [contradiction | cbn [length]; lia]. }
  assert (H32 : 2 ^ 32 <= 2 ^ 53) by (apply Z.pow_le_mono_r; lia).
  destruct (floor_draw r (Z.of_nat (length xs)) Hr ltac:(lia)) as (k & -> & Hk).
  replace (0 <=? k) with true by (symmetry; apply Z.leb_le; lia).
  destruct (lookup_lt_is_Some_2 xs (Z.to_nat k) ltac:(lia)) as [x Hx].
  exists x. split; [exact Hx |].
  apply list_elem_of_In. now apply (list_elem_of_lookup_2 xs (Z.to_nat k)).
Qed.

(** X11.  When [values] holds at least one value, the [enum] generator
    returns one of them, whatever [Math.random()] returns: the index it
    computes is never past the end of the list. *)
Theorem enum_value_is_a_value (r : number) (opts : FieldOptions.t)
    (vals : list string) :
  unit_double r = true ->
  FieldOptions.values opts = Some vals ->
  vals <> [] ->
  Z.of_nat (length vals) < 2 ^ 32 ->
  exists s, In s vals /\ enum_value r opts = JStr s.
Proof.
  intros Hr Hvals Hne Hlen. unfold enum_value. rewrite Hvals.
  destruct (pick_member r vals Hr Hne Hlen) as (s & Hpick & Hin).
  exists s. split; [exact Hin |].
  destruct vals; [contradiction |]. now rewrite Hpick.
Qed.

Lemma enum_value_is_a_value_witness :
  exists s, In s ["admin"; "guest"; "dev"]
            /\ enum_value (Dyad 3 2) (Sample.choosing (Some ["admin"; "guest"; "dev"]) None None)
               = JStr s.
Proof.
  apply (enum_value_is_a_value (Dyad 3 2) _ ["admin"; "guest"; "dev"]);
    [reflexivity | reflexivity | discriminate | reflexivity].
Defined.

(** X12.  Whatever its two draws, the [name] generator returns a first name
    of its list, a space, and a last name of its list: no draw indexes past
    the end of a list. *)
Theorem name_value_is_first_and_last (r1 r2 : number) :
  unit_double r1 = true ->
  unit_double r2 = true ->
  exists f l, In f firsts /\ In l lasts /\ name_value r1 r2 = JStr (f ++ " " ++ l)%string.
Proof.
  intros H1 H2. unfold name_value.
  destruct (pick_member r1 firsts H1 ltac:(discriminate) ltac:(reflexivity))
    as (f & -> & Hf).
  destruct (pick_member r2 lasts H2 ltac:(discriminate) ltac:(reflexivity))
    as (l & -> & Hl).
  now exists f, l.
Qed.

Lemma name_value_is_first_and_last_witness :
  exists f l, In f firsts /\ In l lasts
              /\ name_value (Int 0) (Dyad 1 1) = JStr (f ++ " " ++ l)%string.
Proof.
  apply (name_value_is_first_and_last (Int 0) (Dyad 1 1)); reflexivity.
Defined.

Lemma digits_in_range (lo n : Z) (len : nat) (k : Z) :
  forallb (fun i => (String.length (decimal (Z.of_nat i)) =? len)%nat
                    && all_digits (decimal (Z.of_nat i)))
          (seq (Z.to_nat lo) (Z.to_nat n)) = true ->
  0 <= lo -> 0 <= n ->
  lo <= k < lo + n ->
  String.length (decimal k) = len /\ all_digits (decimal k) = true.
Proof.
  intros Hall Hlo Hn Hk. rewrite forallb_forall in Hall.
  specialize (Hall (Z.to_nat k)). rewrite Z2Nat.id in Hall by lia.
  destruct (andb_prop _ _ (Hall ltac:(apply in_seq; lia))) as [Hlen Hdig].
  split; [now apply Nat.eqb_eq | exact Hdig].
Qed.

Lemma draw_plus_offset (host_string : jsval -> string) (r : number) (n lo : Z)
    (len : nat) :
  unit_double r = true ->
  0 <= lo -> 1 <= n -> lo + n < 2 ^ 53 ->
  forallb (fun i => (String.length (decimal (Z.of_nat i)) =? len)%nat
                    && all_digits (decimal (Z.of_nat i)))
          (seq (Z.to_nat lo) (Z.to_nat n)) = true ->
  exists t, number_text host_string (add (floor (mul r (Int n))) (Int lo)) = t
            /\ String.length t = len /\ all_digits t = true.
Proof.
  intros Hr Hlo Hn Hbig Hall.
  destruct (floor_draw r n Hr ltac:(lia)) as (k & -> & Hk).
  rewrite (add_Int_safe k lo) by lia.
  exists (decimal (k + lo)). split.
  - unfold number_text.
    assert (H21 : 2 ^ 53 < 10 ^ 21) by reflexivity.
    replace (Z.abs (k + lo) <? 10 ^ 21) with true; [reflexivity |].
    symmetry. apply Z.ltb_lt. lia.
  - apply (digits_in_range lo n len); [exact Hall | lia | lia | lia].
Qed.

(** X13.  Whatever its three draws, the [phone] generator returns [+1-],
    three digits, a dash, three digits, a dash and four digits. *)
Theorem phone_value_format (host_string : jsval -> string) (r1 r2 r3 : number) :
  unit_double r1 = true ->
  unit_double r2 = true ->
  unit_double r3 = true ->
  exists a b c,
    phone_value host_string r1 r2 r3 = JStr ("+1-" ++ a ++ "-" ++ b ++ "-" ++ c)%string
    /\ String.length a = 3%nat /\ all_digits a = true
    /\ String.length b = 3%nat /\ all_digits b = true
    /\ String.length c = 4%nat /\ all_digits c = true.
Proof.
  intros H1 H2 H3. unfold phone_value.
  assert (Hthree : forallb (fun i => (String.length (decimal (Z.of_nat i)) =? 3)%nat
                                     && all_digits (decimal (Z.of_nat i)))
                           (seq (Z.to_nat 100) (Z.to_nat 900)) = true)
    by (vm_compute; reflexivity).
  assert (Hfour : forallb (fun i => (String.length (decimal (Z.of_nat i)) =? 4)%nat
                                    && all_digits (decimal (Z.of_nat i)))
                          (seq (Z.to_nat 1000) (Z.to_nat 9000)) = true)
    by (vm_compute; reflexivity).
  assert (Hsmall : 100 + 900 < 2 ^ 53 /\ 1000 + 9000 < 2 ^ 53) by (split; reflexivity).
  destruct (draw_plus_offset host_string r1 900 100 3 H1
              ltac:(lia) ltac:(lia) ltac:(lia) Hthree) as (a & -> & Ha).
  destruct (draw_plus_offset host_string r2 900 100 3 H2
              ltac:(lia) ltac:(lia) ltac:(lia) Hthree) as (b & -> & Hb).
  destruct (draw_plus_offset host_string r3 9000 1000 4 H3
              ltac:(lia) ltac:(lia) ltac:(lia) Hfour) as (c & -> & Hc).
  exists a, b, c. tauto.
Qed.

Lemma phone_value_format_witness :
  exists a b c,
    phone_value (fun _ => "") (Int 0) (Dyad 1 1) (Dyad 3 2)
    = JStr ("+1-" ++ a ++ "-" ++ b ++ "-" ++ c)%string
    /\ String.length a = 3%nat /\ all_digits a = true
    /\ String.length b = 3%nat /\ all_digits b = true
    /\ String.length c = 4%nat /\ all_digits c = true.
Proof.
  apply (phone_value_format (fun _ => "") (Int 0) (Dyad 1 1) (Dyad 3 2)); reflexivity.
Defined.

(** ** Counters that restart with each group *)

Section GroupedCounters.
Variable random_index : nat -> nat -> nat.
Variable ambient : nat -> nat -> jsval.

Local Abbreviation gen_field := (generate_field random_index ambient).
Local Abbreviation gen_fields := (generate_fields random_index ambient).
Local Abbreviation value_at := (generated random_index ambient).
Local Abbreviation before_row := (run_before_row random_index ambient).
Local Abbreviation before := (run_before random_index ambient).

(** The counter of [F] after the grouping field [G], which resets it, has
    had its turn in row [i]. *)
Lemma grouping_field_resets count fields i j G g F size run v :
  FieldOptions.groupingConfig (options_or_empty G) = Some g ->
  group_size count
    (length_or_1 (default [] (FieldOptions.values (options_or_empty G)))) g = size ->
  In (key F) (GroupingConfig.resetFields g) ->
  find_field fields (key F) = Some F ->
  strategy F = INCREMENT ->
  state run !! key F = Some v ->
  state (snd (gen_field count fields i j G run)) !! key F
  = Some (if (0 <? Z.of_nat i) && (Z.rem (Z.of_nat i) size =? 0)
          then configured_start F else v).
Proof.
  intros Hg Hsize Hin Hfind Hinc Hv. unfold generate_field. rewrite Hg, Hsize.
  cbn [snd state].
  destruct ((0 <? Z.of_nat i) && (Z.rem (Z.of_nat i) size =? 0)); [| exact Hv].
  now apply (reset_counters_hit fields (key F) F).
Qed.

Lemma targeted_by_reset_parts l n k :
  targeted_by_reset l k = false ->
  targeted_by_reset (take n l) k = false /\ targeted_by_reset (drop n l) k = false.
Proof.
  intros H. rewrite <- (take_drop n l), targeted_by_reset_app in H.
  now apply orb_false_elim in H.
Qed.

Lemma targeted_by_reset_tail f l k :
  targeted_by_reset (f :: l) k = false -> targeted_by_reset l k = false.
Proof.
  intros H. change (f :: l) with ([f] ++ l) in H.
  rewrite targeted_by_reset_app in H. now apply orb_false_elim in H.
Qed.

Lemma restart_arithmetic (n size : Z) :
  0 < n -> 0 < size -> n mod size <> 0 -> (n - 1) mod size + 1 = n mod size.
Proof.
  intros Hn Hsize Hne.
  pose proof (Z.div_mod n size ltac:(lia)) as Hdm.
  pose proof (Z.mod_pos_bound n size Hsize) as Hb.
  assert (H : (n - 1) mod size = n mod size - 1); [| lia].
  symmetry. apply (Z.mod_unique_pos (n - 1) size (n / size)); lia.
Qed.

(** The counter a field finds in row [n], from the one the row before left
    and the reset of a boundary. *)
Lemma restart_value (s k size : Z) (n : nat) :
  0 < size ->
  (if (0 <? Z.of_nat n) && (Z.of_nat n mod size =? 0)
   then Int s
   else Int (match n with
             | O => s
             | S m => s + (Z.of_nat m mod size + 1) * k
             end))
  = Int (s + (Z.of_nat n mod size) * k).
Proof.
  intros Hpos. destruct n as [| m].
  - cbn [Z.of_nat Z.ltb andb]. rewrite Z.mod_0_l by lia. f_equal. lia.
  - replace (0 <? Z.of_nat (S m)) with true by (symmetry; apply Z.ltb_lt; lia).
    cbn [andb]. destruct (Z.of_nat (S m) mod size =? 0) eqn:E; zify_bool.
    + rewrite E. f_equal. lia.
    + rewrite <- (restart_arithmetic (Z.of_nat (S m)) size) by lia.
      replace (Z.of_nat (S m) - 1) with (Z.of_nat m) by lia. reflexivity.
Qed.

(** X14.  The feature the resets are for.  When the grouping field comes
    before the increment field it names in [resetFields], and no other
    grouping field resets that one, the counter restarts with each group:
    with integer [start = s], [step = k] (not 0) and groups of [size] rows,
    the value generated for the counter in row [i] is
    [s + (i mod size) * k]. *)
Theorem counter_restarts_in_each_group (count : nat) (fields : list FieldConfig)
    (q p : nat) (G F : FieldConfig) (g : GroupingConfig.t) (o : FieldOptions.t)
    (s k size : Z) (i : nat) :
  modelled fields = true ->
  NoDup (map key fields) ->
  fields !! q = Some G ->
  FieldOptions.groupingConfig (options_or_empty G) = Some g ->
  group_size count
    (length_or_1 (default [] (FieldOptions.values (options_or_empty G)))) g = size ->
  0 < size ->
  In (key F) (GroupingConfig.resetFields g) ->
  targeted_by_reset (take q fields) (key F) = false ->
  targeted_by_reset (drop (S q) fields) (key F) = false ->
  fields !! p = Some F ->
  (q < p)%nat ->
  strategy F = INCREMENT ->
  options F = Some o ->
  FieldOptions.start o = Some (Int s) ->
  FieldOptions.step o = Some (Int k) ->
  k <> 0 ->
  FieldOptions.groupingConfig o = None ->
  (i < count)%nat ->
  (forall t, 0 <= t <= size -> Z.abs (s + t * k) <= 2 ^ 53) ->
  value_at count fields i p = Some (JNum (Int (s + (Z.of_nat i mod size) * k))).
Proof.
  intros _ Hnd Hq Hg Hsize Hpos Hin Hbefore Hafter Hp Hqp Hinc Ho Hstart Hstep Hk HgF
         Hi Hexact.
  assert (Hopts : options_or_empty F = o) by (unfold options_or_empty; now rewrite Ho).
  assert (Hg' : FieldOptions.groupingConfig (options_or_empty F) = None) by now rewrite Hopts.
  assert (Hcfg : configured_start F = Int s).
  { unfold configured_start. rewrite Ho. cbn. now rewrite Hstart. }
  assert (Hor : or_1 (FieldOptions.step (options_or_empty F)) = Int k).
  { rewrite Hopts, Hstep. unfold or_1. rewrite truthy_Int.
    destruct (k =? 0) eqn:E; [zify_bool; contradiction | reflexivity]. }
  pose proof (find_field_unique fields p F Hnd Hp) as Hfind.
  destruct (other_keys fields p F Hnd Hp) as [Hleft Hright].
  (* the fields before [F]: those before [G], [G], those between *)
  assert (Hq' : take p fields !! q = Some G) by (rewrite lookup_take_lt; assumption).
  pose proof (take_drop_middle (take p fields) q G Hq') as Hsplit.
  assert (HA : take q (take p fields) = take q fields).
  { rewrite take_take. f_equal. lia. }
  assert (HB : drop (S q) (take p fields) = take (p - S q) (drop (S q) fields)).
  { rewrite take_drop_commute. do 2 f_equal. lia. }
  assert (HC : drop (S p) fields = drop (p - q) (drop (S q) fields)).
  { rewrite drop_drop. f_equal. lia. }
  assert (HtB : targeted_by_reset (drop (S q) (take p fields)) (key F) = false).
  { rewrite HB. now apply targeted_by_reset_parts. }
  assert (HtC : targeted_by_reset (drop (S p) fields) (key F) = false).
  { rewrite HC. now apply targeted_by_reset_parts. }
  rewrite HA in Hsplit. rewrite <- Hsplit in Hleft.
  apply Forall_app in Hleft as [HkA Hleft]. apply Forall_cons in Hleft as [_ HkB].
  (* the counter when [F] is reached in a row *)
  assert (Hreach : forall i' run v,
             state run !! key F = Some v ->
             state (snd (gen_fields count fields i' 0 (take p fields) run)) !! key F
             = Some (if (0 <? Z.of_nat i') && (Z.rem (Z.of_nat i') size =? 0)
                     then Int s else v)).
  { intros i' run v Hv. rewrite <- Hsplit.
    rewrite generate_fields_app, generate_fields_cons. cbn [snd].
    rewrite generate_fields_keeps by assumption.
    rewrite <- Hcfg. apply (grouping_field_resets count fields i' _ G g F size);
      try assumption.
    now rewrite generate_fields_keeps. }
  (* the counter when the row is over *)
  assert (Hrow : forall i' run v,
             state run !! key F = Some v ->
             state (snd (gen_fields count fields i' 0 fields run)) !! key F
             = Some (add (if (0 <? Z.of_nat i') && (Z.rem (Z.of_nat i') size =? 0)
                          then Int s else v) (Int k))).
  { intros i' run v Hv.
    rewrite <- (take_drop_middle fields p F Hp) at 2.
    rewrite generate_fields_app, generate_fields_cons. cbn [snd].
    rewrite generate_fields_keeps by assumption.
    destruct (generate_field_increment random_index ambient count fields i'
                (0 + length (take p fields)) F _ _ Hinc Hg' (Hreach i' run v Hv))
      as [_ Hst].
    now rewrite Hst, Hor. }
  assert (Hmod : forall n : nat, Z.rem (Z.of_nat n) size = Z.of_nat n mod size).
  { intros n. apply Z.rem_mod_nonneg; lia. }
  assert (Hcounter : forall i', (i' <= i)%nat ->
             state (before_row count fields i') !! key F
             = Some (Int (match i' with
                          | O => s
                          | S n => s + (Z.of_nat n mod size + 1) * k
                          end))).
  { induction i' as [| n IH]; intros Hle.
    - unfold run_before_row. cbn [generate_rows snd initial_run state].
      now rewrite (initial_state_start fields p F Hnd Hp Hinc), Hcfg.
    - rewrite run_before_row_succ, (Hrow n _ _ (IH ltac:(lia))), Hmod.
      pose proof (Z.mod_pos_bound (Z.of_nat n) size Hpos) as Hb.
      rewrite (restart_value s k size n Hpos), add_Int_safe.
      + do 2 f_equal. lia.
      + replace (s + Z.of_nat n mod size * k + k)
          with (s + (Z.of_nat n mod size + 1) * k) by lia.
        apply Hexact. lia. }
  rewrite (generated_field random_index ambient count fields i p F Hi Hp).
  assert (Hhere : state (before count fields i p) !! key F
                  = Some (Int (s + (Z.of_nat i mod size) * k))).
  { unfold run_before. rewrite (Hreach i _ _ (Hcounter i ltac:(lia))), Hmod.
    now rewrite (restart_value s k size i Hpos). }
  destruct (generate_field_increment random_index ambient count fields i p F _ _
              Hinc Hg' Hhere) as [-> _].
  reflexivity.
Qed.
End GroupedCounters.

Lemma counter_restarts_in_each_group_witness :
  generated Sample.no_draw Sample.no_ambient 6 [Sample.team; Sample.id] 3 1
  = Some (JNum (Int (1001 + (Z.of_nat 3 mod 2) * 1))).
Proof.
  apply (counter_restarts_in_each_group Sample.no_draw Sample.no_ambient 6
           [Sample.team; Sample.id] 0 1 Sample.team Sample.id
           (Sample.per_group 2 ["id"]) (Sample.counting 1001 1) 1001 1 2 3);
    try reflexivity; try lia; try (now left).
  apply NoDup_cons. split; [| apply NoDup_singleton].
  intros H. apply list_elem_of_In in H. destruct H as [H | []]. discriminate H.
Defined.

(** ** Groups of even size *)

Lemma enforce_type_not_static (field : FieldConfig) (val : jsval) :
  strategy field <> STATIC -> enforce_type field val = val.
Proof. intros H. unfold enforce_type. destruct (strategy field); congruence. Qed.

Lemma wrapped_block (i q L r : Z) :
  1 <= q -> 0 <= r < L -> 0 <= i < q * L + r ->
  (i / q) mod L = (if i <? q * L then i / q else (i - q * L) / q)
  /\ 0 <= (i / q) mod L < L.
Proof.
  intros Hq Hr Hi.
  pose proof (Z.div_mod i q ltac:(lia)) as Hdm.
  pose proof (Z.mod_pos_bound i q ltac:(lia)) as Hb.
  assert (Hdiv : 0 <= i / q) by (apply Z.div_pos; lia).
  split; [| apply Z.mod_pos_bound; lia].
  destruct (i <? q * L) eqn:E; zify_bool.
  - apply Z.mod_small. split; [exact Hdiv |].
    apply Z.div_lt_upper_bound; lia.
  - assert (Hshift : i / q = (i - q * L) / q + L).
    { replace i with ((i - q * L) + L * q) at 1 by lia.
      rewrite Z.div_add by lia. reflexivity. }
    assert (Ht : 0 <= (i - q * L) / q < L).
    { split; [apply Z.div_pos; lia |].
      apply Z.div_lt_upper_bound; [lia |]. nia. }
    rewrite Hshift.
    replace ((i - q * L) / q + L) with ((i - q * L) / q + 1 * L) by lia.
    rewrite Z.mod_add by lia. now apply Z.mod_small.
Qed.

(** X15.  With the [even] strategy a group has [floor(count / L)] rows, [L]
    being the number of values.  For [count = q * L + r] with [q >= 1] and
    [r < L], the value generated in row [i] for a grouping field that is
    not [static] is [values[floor(i / q)]] as long as [i < q * L]; the [r]
    rows that are left start over at the first value: in row [i >= q * L]
    it is [values[floor((i - q * L) / q)]]. *)
Theorem even_grouping_blocks (random_index : nat -> nat -> nat)
    (ambient : nat -> nat -> jsval) (count : nat) (fields : list FieldConfig)
    (j : nat) (field : FieldConfig) (g : GroupingConfig.t) (values : list string)
    (q r i : nat) :
  fields !! j = Some field ->
  FieldOptions.groupingConfig (options_or_empty field) = Some g ->
  GroupingConfig.strategy g = GroupingConfig.even ->
  FieldOptions.values (options_or_empty field) = Some values ->
  strategy field <> STATIC ->
  (1 <= q)%nat ->
  (r < length values)%nat ->
  count = (q * length values + r)%nat ->
  (i < count)%nat ->
  exists v,
    values !! (if (i <? q * length values)%nat then i / q
               else (i - q * length values) / q)%nat = Some v
    /\ generated random_index ambient count fields i j = Some (JStr v).
Proof.
  intros Hj Hg Heven Hvalues Hstatic Hq Hr Hcount Hi.
  rewrite (generated_field random_index ambient count fields i j field Hi Hj).
  destruct (generate_field_grouped random_index ambient count fields i j field g
              (run_before random_index ambient count fields i j) Hg) as [-> _].
  rewrite (enforce_type_not_static field _ Hstatic), Hvalues.
  change (default [] (Some values)) with values.
  set (L := length values) in *.
  assert (Hlen : length_or_1 values = Z.of_nat L).
  { subst L. destruct values; [cbn [length] in Hr; lia | reflexivity]. }
  assert (Hsize : group_size count (Z.of_nat L) g = Z.of_nat q).
  { unfold group_size. rewrite Heven, Hcount.
    replace (Z.of_nat (q * L + r)) with (Z.of_nat r + Z.of_nat q * Z.of_nat L) by lia.
    rewrite Z.div_add by lia. rewrite Z.div_small by lia. lia. }
  unfold group_index. rewrite Hlen, Hsize.
  destruct (wrapped_block (Z.of_nat i) (Z.of_nat q) (Z.of_nat L) (Z.of_nat r))
    as [Hidx Hrange]; try lia.
  rewrite Z.rem_mod_nonneg by (try apply Z.div_pos; lia).
  set (n := (if (i <? q * L)%nat then i / q else (i - q * L) / q)%nat).
  assert (Hn : (Z.of_nat i / Z.of_nat q) mod Z.of_nat L = Z.of_nat n).
  { rewrite Hidx. subst n.
    destruct (i <? q * L)%nat eqn:E.
    - apply Nat.ltb_lt in E.
      replace (Z.of_nat i <? Z.of_nat q * Z.of_nat L) with true
        by (symmetry; apply Z.ltb_lt; lia).
      now rewrite Nat2Z.inj_div.
    - apply Nat.ltb_ge in E.
      replace (Z.of_nat i <? Z.of_nat q * Z.of_nat L) with false
        by (symmetry; apply Z.ltb_ge; lia).
      rewrite Nat2Z.inj_div. do 2 f_equal. lia. }
  rewrite Hn.
  destruct (lookup_lt_is_Some_2 values n ltac:(fold L; lia)) as [v Hv].
  exists v. split; [exact Hv |]. f_equal. now apply element_at_lookup.
Qed.

Lemma even_grouping_blocks_witness :
  exists v,
    ["A"; "B"; "C"] !! (if (6 <? 2 * length ["A"; "B"; "C"])%nat then 6 / 2
                        else (6 - 2 * length ["A"; "B"; "C"]) / 2)%nat = Some v
    /\ generated Sample.no_draw Sample.no_ambient 7 [Trial.league] 6 0 = Some (JStr v).
Proof.
  apply (even_grouping_blocks Sample.no_draw Sample.no_ambient 7 [Trial.league] 0
           Trial.league Trial.evenly ["A"; "B"; "C"] 2 1 6);
    try reflexivity; try discriminate; cbn [length]; lia.
Defined.

(** ** Edits of the schema row and the cached program *)

Lemma handleOptionChange_is_parameter_edit (field : FieldConfig)
    (e : SchemaRow.OptionEdit) :
  isStructuralChange field (SchemaRow.handleOptionChange field e) = false.
Proof.
  apply isStructuralChange_false. repeat split.
  unfold hasGroup, SchemaRow.handleOptionChange, options_or_empty. cbn [options].
  destruct (options field); reflexivity.
Qed.

Lemma handleStrategyChange_grouping (field : FieldConfig) (s : GenerationStrategy) :
  hasGroup (SchemaRow.handleStrategyChange field s) = hasGroup field.
Proof.
  unfold hasGroup, SchemaRow.handleStrategyChange, options_or_empty. cbn [options].
  destruct (sampleValue field) as [sample |];
    [destruct (GenerationStrategy_eqb s STATIC && _ && negb (is_undefined sample)) |];
    destruct (options field); reflexivity.
Qed.

(** X16.  What the edits of a schema row do to the cached program.  An edit
    of any option input of the row (values, bounds, precision, start, step,
    static value, pattern, format) replaces the field and keeps the program,
    in both modes.  A change of the strategy selector, in the delegated
    mode, keeps the program when the strategy chosen is the one the field
    has, and clears it otherwise. *)
Theorem row_edits_and_cached_program (st : App.State) (index : nat)
    (field : FieldConfig) :
  App.fields st !! index = Some field ->
  (forall e,
     exists st',
       App.handleFieldChange index (SchemaRow.handleOptionChange field e) st = Ok st'
       /\ App.generatedCode st' = App.generatedCode st
       /\ App.fields st' !! index = Some (SchemaRow.handleOptionChange field e))
  /\ (forall s,
        App.isLocalMode st = false ->
        exists st',
          App.handleFieldChange index (SchemaRow.handleStrategyChange field s) st = Ok st'
          /\ App.generatedCode st'
             = (if GenerationStrategy_eqb s (strategy field)
                then App.generatedCode st else "")).
Proof.
  intros Hfield. split.
  - intros e. unfold App.handleFieldChange. rewrite Hfield.
    rewrite handleOptionChange_is_parameter_edit, andb_false_r.
    eexists. split; [reflexivity |]. split; [reflexivity |].
    cbn [App.with_fields App.fields].
    apply list_lookup_insert_eq. now apply (lookup_lt_Some _ _ field).
  - intros s Hmode. unfold App.handleFieldChange. rewrite Hfield, Hmode.
    eexists. split; [reflexivity |]. cbn [negb andb App.with_fields App.generatedCode].
    destruct (GenerationStrategy_eqb s (strategy field)) eqn:Hs.
    + apply GenerationStrategy_eqb_eq in Hs.
      replace (isStructuralChange field (SchemaRow.handleStrategyChange field s))
        with false; [reflexivity |].
      symmetry. apply isStructuralChange_false. repeat split; try reflexivity.
      * cbn. now symmetry.
      * symmetry. apply handleStrategyChange_grouping.
    + destruct (isStructuralChange field (SchemaRow.handleStrategyChange field s))
        eqn:Hch; [reflexivity |].
      apply isStructuralChange_false in Hch as (_ & _ & Hstrat & _).
      cbn [SchemaRow.handleStrategyChange strategy] in Hstrat.
      assert (GenerationStrategy_eqb s (strategy field) = true)
        by (apply GenerationStrategy_eqb_eq; congruence).
      congruence.
Qed.

Lemma row_edits_and_cached_program_witness :
  (forall e,
     exists st',
       App.handleFieldChange 1 (SchemaRow.handleOptionChange Session.roles e)
         Session.editing = Ok st'
       /\ App.generatedCode st' = App.generatedCode Session.editing
       /\ App.fields st' !! 1%nat = Some (SchemaRow.handleOptionChange Session.roles e))
  /\ (forall s,
        App.isLocalMode Session.editing = false ->
        exists st',
          App.handleFieldChange 1 (SchemaRow.handleStrategyChange Session.roles s)
            Session.editing = Ok st'
          /\ App.generatedCode st'
             = (if GenerationStrategy_eqb s (strategy Session.roles)
                then App.generatedCode Session.editing else "")).
Proof.
  apply (row_edits_and_cached_program Session.editing 1 Session.roles). reflexivity.
Defined.

(** ** Switching an analysed field to [static] *)

(** X17.  A field that local analysis inferred from a number, a string or a
    boolean of the sample, once its strategy selector is set to [static],
    generates the value of the sample in every row: the selector fills the
    missing static value from the sample, and the type enforcement leaves
    it as it is. *)
Theorem static_switch_reproduces_sample
    (random_index : nat -> nat -> nat) (ambient : nat -> nat -> jsval)
    (Date_parse : string -> bool) (host_string : jsval -> string)
    (count : nat) (fields : list FieldConfig) (i j : nat) (k : string) (v : jsval) :
  (i < count)%nat ->
  is_object v = false ->
  v <> JNull ->
  v <> JUndefined ->
  fields !! j
  = Some (SchemaRow.handleStrategyChange (infer_field Date_parse host_string k v) STATIC) ->
  generated random_index ambient count fields i j = Some v.
Proof.
  intros Hi Hleaf Hnull Hundef Hj.
  rewrite (generated_field random_index ambient count fields i j _ Hi Hj).
  set (f := infer_field Date_parse host_string k v) in *.
  assert (Hsample : sampleValue f = Some v) by reflexivity.
  assert (Hstatic : FieldOptions.staticValue (options_or_empty f) = None
                    /\ FieldOptions.groupingConfig (options_or_empty f) = None
                    /\ type f = match v with
                                | JNum _ => NUMBER
                                | JBool _ => BOOLEAN
                                | _ => STRING
                                end).
  { subst f. unfold infer_field, determineStrategy, options_or_empty.
    cbn [options type].
    destruct v as [| | b | n | s | |]; try discriminate Hleaf; try contradiction.
    - repeat split.
    - destruct ((String.eqb (toLowerCase k) "id" || endsWith (toLowerCase k) "_id"
                 || endsWith (toLowerCase k) "Id") && isInteger n);
        [| destruct (isInteger n)]; repeat split.
    - repeat match goal with
             | |- context [if ?c then _ else _] => destruct c
             end; repeat split. }
  destruct Hstatic as (Hsv & Hgc & Htype).
  assert (Hopts : options_or_empty (SchemaRow.handleStrategyChange f STATIC)
                  = SchemaRow.with_staticValue (options_or_empty f) v).
  { unfold SchemaRow.handleStrategyChange, options_or_empty at 1. cbn [options].
    rewrite Hsample, Hsv. cbn [GenerationStrategy_eqb andb].
    destruct v; try discriminate Hleaf; try contradiction; reflexivity. }
  rewrite generate_field_static; [| reflexivity | now rewrite Hopts].
  rewrite Hopts. cbn [SchemaRow.with_staticValue FieldOptions.staticValue].
  change (default JUndefined (Some v)) with v.
  unfold enforce_type. cbn [SchemaRow.handleStrategyChange strategy type]. rewrite Htype.
  destruct v as [| | b | n | s | |]; try discriminate Hleaf; try contradiction.
  - reflexivity.
  - cbn [ToNumber]. now destruct (isNaN n).
  - reflexivity.
Qed.

Lemma static_switch_reproduces_sample_witness :
  generated Sample.no_draw Sample.no_ambient 3
    [SchemaRow.handleStrategyChange
       (infer_field (fun _ => false) (fun _ => "") "is_active" (JBool true)) STATIC] 2 0
  = Some (JBool true).
Proof.
  apply (static_switch_reproduces_sample Sample.no_draw Sample.no_ambient
           (fun _ => false) (fun _ => "") 3 _ 2 0 "is_active" (JBool true));
    [lia | reflexivity | discriminate | discriminate | reflexivity].
Defined.

(** ** The reset fields of the grouping helper *)

(** X18.  [toggleResetField] flips the membership of the key it is given
    and of no other key, and a list without duplicates stays without
    duplicates. *)
Theorem toggleResetField_flips (prev : list string) (fieldKey : string) :
  (In fieldKey (App.toggleResetField prev fieldKey) <-> ~ In fieldKey prev)
  /\ (forall k, k <> fieldKey ->
        (In k (App.toggleResetField prev fieldKey) <-> In k prev))
  /\ (NoDup prev -> NoDup (App.toggleResetField prev fieldKey)).
Proof.
  unfold App.toggleResetField.
  destruct (existsb (String.eqb fieldKey) prev) eqn:Hmem.
  - apply existsb_exists in Hmem as (k & Hin & Hk). apply String.eqb_eq in Hk. subst k.
    split; [| split].
    + rewrite filter_In, String.eqb_refl. cbn [negb]. split; [intros [_ H] | tauto].
      discriminate H.
    + intros k Hne. rewrite filter_In.
      replace (String.eqb k fieldKey) with false
        by (symmetry; now apply String.eqb_neq).
      cbn [negb]. tauto.
    + intros Hnd. apply NoDup_ListNoDup. apply List.NoDup_filter.
      now apply NoDup_ListNoDup.
  - assert (Hout : ~ In fieldKey prev).
    { intros Hin. assert (existsb (String.eqb fieldKey) prev = true); [| congruence].
      apply existsb_exists. exists fieldKey. split; [exact Hin | apply String.eqb_refl]. }
    split; [| split].
    + rewrite in_app_iff. cbn [In]. tauto.
    + intros k Hne. rewrite in_app_iff. cbn [In]. split; [| tauto].
      intros [H | [H | []]]; [exact H | congruence].
    + intros Hnd. apply NoDup_app. split; [exact Hnd |]. split.
      * intros x Hx Hx'. apply list_elem_of_In in Hx.
        apply list_elem_of_In in Hx'. destruct Hx' as [<- | []]. contradiction.
      * apply NoDup_singleton.
Qed.

(** ** The grouping helper *)

Lemma split_on_not_nil sep s : App.split_on sep s <> [].
Proof.
  destruct s as [| c s]; [discriminate |]. cbn [App.split_on].
  destruct (sep c); [discriminate |]. destruct (App.split_on sep s); discriminate.
Qed.

(** A text without separator is one piece, and a piece ends where the first
    separator stands. *)
Lemma split_on_piece sep (v : App.Text) :
  forallb (fun u => negb (sep u)) v = true ->
  App.split_on sep v = [v]
  /\ forall u rest, sep u = true ->
       App.split_on sep (v ++ u :: rest) = v :: App.split_on sep rest.
Proof.
  induction v as [| d v IH]; intros Hclean.
  - split; [reflexivity |]. intros u rest Hu.
    cbn [app App.split_on]. now rewrite Hu.
  - cbn [forallb] in Hclean.
    apply andb_prop in Hclean as [Hd Hv]. apply negb_true_iff in Hd.
    destruct (IH Hv) as [Hone Hcut]. split.
    + cbn [App.split_on]. now rewrite Hd, Hone.
    + intros u rest Hu. cbn [app App.split_on].
      now rewrite Hd, (Hcut u rest Hu).
Qed.

Lemma text_of_cons (c : ascii) (s : string) :
  App.text_of (String c s) = N_of_ascii c :: App.text_of s.
Proof. reflexivity. Qed.

Lemma text_of_append (a b : string) :
  App.text_of (a ++ b) = App.text_of a ++ App.text_of b.
Proof.
  induction a as [| c a IH]; [reflexivity |].
  rewrite string_app_cons, !text_of_cons, IH. reflexivity.
Qed.

(** Below 256, the code units [trim] removes from a text are those it
    removes from a string of the model. *)
Lemma white_space_of_ascii (c : ascii) :
  App.is_white_space (N_of_ascii c) = is_space c.
Proof. destruct c as [[] [] [] [] [] [] [] []]; reflexivity. Qed.

Lemma trim_text_start_of (s : string) :
  App.trim_text_start (App.text_of s) = App.text_of (trim_start s).
Proof.
  induction s as [| c s IH]; [reflexivity |].
  rewrite text_of_cons. cbn [App.trim_text_start trim_start].
  rewrite white_space_of_ascii. destruct (is_space c); [exact IH |].
  now rewrite text_of_cons.
Qed.

Lemma trim_text_end_of (s : string) :
  App.trim_text_end (App.text_of s) = App.text_of (trim_end s).
Proof.
  induction s as [| c s IH]; [reflexivity |].
  rewrite text_of_cons. cbn [App.trim_text_end trim_end].
  rewrite IH, white_space_of_ascii.
  destruct (trim_end s) as [| d t]; [now destruct (is_space c) |].
  now rewrite !text_of_cons.
Qed.

Lemma trim_text_of (s : string) : App.trim_text (App.text_of s) = App.text_of (trim s).
Proof. unfold App.trim_text, trim. now rewrite trim_text_start_of, trim_text_end_of. Qed.

Lemma narrow_text_of (s : string) : App.narrow (App.text_of s) = Some s.
Proof.
  induction s as [| c s IH]; [reflexivity |].
  rewrite text_of_cons. cbn [App.narrow]. rewrite IH.
  assert (Hlt : (N_of_ascii c <? 256)%N = true).
  { apply N.ltb_lt. apply N_ascii_bounded. }
  rewrite Hlt. cbn [option_map]. now rewrite ascii_N_embedding.
Qed.

Lemma narrow_all_texts (vs : list string) :
  App.narrow_all (map App.text_of vs) = Ok vs.
Proof.
  induction vs as [| v vs IH]; [reflexivity |].
  cbn [map App.narrow_all]. now rewrite narrow_text_of, IH.
Qed.

(** The pieces of the text the helper shows for values. *)
Lemma pieces_of_join (v : string) (vs : list string) :
  Forall shown_as_typed (v :: vs) ->
  map App.trim_text
      (App.split_on App.is_list_separator (App.text_of (App.join ", " (v :: vs))))
  = map App.text_of (v :: vs).
Proof.
  revert v. induction vs as [| w vs IH]; intros v Hall;
    apply Forall_cons in Hall as [(Hne & Htrim & Hsep) Hall];
    destruct (split_on_piece App.is_list_separator (App.text_of v) Hsep) as [Hone Hcut].
  - cbn [App.join]. rewrite Hone. cbn [map]. now rewrite trim_text_of, Htrim.
  - change (App.join ", " (v :: w :: vs))
      with (v ++ String "," (String " " (App.join ", " (w :: vs))))%string.
    rewrite text_of_append, !text_of_cons.
    change (N_of_ascii ",") with 44%N. change (N_of_ascii " ") with 32%N.
    rewrite (Hcut 44%N _ eq_refl). cbn [map]. rewrite trim_text_of, Htrim.
    f_equal. specialize (IH w Hall). revert IH.
    generalize (App.text_of (App.join ", " (w :: vs))). intros text IH.
    cbn [App.split_on]. change (App.is_list_separator 32) with false. cbv iota.
    destruct (App.split_on App.is_list_separator text) as [| p ps] eqn:Hsplit;
      [now destruct (split_on_not_nil App.is_list_separator text) |].
    cbn [map] in IH |- *. exact IH.
Qed.

(** The full-width comma separates as the comma and the line feed do. *)
Example full_width_comma_separates :
  App.parse_values [97; 65292; 32; 98; 10; 99; 44; 100]%N = Ok ["a"; "b"; "c"; "d"].
Proof. reflexivity. Qed.

Lemma filter_texts (keep : App.Text -> bool) (vs : list string) :
  Forall (fun v => keep (App.text_of v) = true) vs ->
  List.filter keep (map App.text_of vs) = map App.text_of vs.
Proof.
  induction vs as [| w ws IH]; intros Hall; [reflexivity |].
  apply Forall_cons in Hall as [Hw Hall].
  cbn [map List.filter]. rewrite Hw. now rewrite (IH Hall).
Qed.

Lemma parse_join (vs : list string) :
  Forall shown_as_typed vs ->
  App.parse_values (App.text_of (App.join ", " vs)) = Ok vs.
Proof.
  intros Hall. unfold App.parse_values. destruct vs as [| v vs]; [reflexivity |].
  rewrite (pieces_of_join v vs Hall), filter_texts; [apply narrow_all_texts |].
  eapply Forall_impl; [exact Hall |].
  intros w (Hne & _ & _). destruct w as [| c w]; [contradiction | reflexivity].
Qed.

Lemma findIndex_unique (fs : list FieldConfig) (j : nat) (f : FieldConfig) :
  NoDup (map key fs) ->
  fs !! j = Some f ->
  App.findIndex (fun f' => String.eqb (key f') (key f)) fs = Some j.
Proof.
  revert j. induction fs as [| f0 fs IH]; intros j Hnd Hj; [discriminate Hj |].
  cbn [map] in Hnd. apply NoDup_cons in Hnd as [Hfresh Hnd].
  cbn [App.findIndex]. destruct j as [| j].
  - injection Hj as ->. now rewrite String.eqb_refl.
  - cbn in Hj. destruct (String.eqb (key f0) (key f)) eqn:Heq.
    + apply String.eqb_eq in Heq. exfalso. apply Hfresh. rewrite Heq.
      apply list_elem_of_fmap. exists f. split; [reflexivity |].
      now apply (list_elem_of_lookup_2 fs j).
    + now rewrite (IH j Hnd Hj).
Qed.

(** What [applyGroupingRule] does to the field the helper names. *)
Lemma applyGroupingRule_field (st : App.State) (j : nat) (field : FieldConfig)
    (values : list string) :
  NoDup (map key (App.fields st)) ->
  App.fields st !! j = Some field ->
  App.groupField st = key field ->
  key field <> "" ->
  App.parse_values (App.groupValues st) = Ok values ->
  exists st',
    App.applyGroupingRule st = Ok st'
    /\ App.showGroupingHelper st' = false
    /\ App.generateCount st'
       = match App.groupStrategy st with
         | GroupingConfig.fixed => Z.of_nat (length values) * App.countPerGroup st
         | GroupingConfig.even => App.generateCount st
         end
    /\ App.fields st'
       = <[j := {| key := key field; type := type field; strategy := strategy field;
                   options := Some (App.with_grouping (options_or_empty field)
                                      values (App.rule st));
                   description := description field;
                   sampleValue := sampleValue field |}]> (App.fields st).
Proof.
  intros Hnd Hj Hkey Hne Hvalues. unfold App.applyGroupingRule. rewrite Hkey.
  replace (String.eqb (key field) "") with false
    by (symmetry; now apply String.eqb_neq).
  rewrite (findIndex_unique (App.fields st) j field Hnd Hj), Hj, Hvalues.
  cbn [bind]. unfold App.handleFieldChange.
  destruct (App.groupStrategy st) eqn:Hstrat; cbn [App.with_count App.fields];
    rewrite Hj; cbn [bind]; eexists; (split; [reflexivity |]);
    cbn [App.with_helper App.with_fields App.with_count App.showGroupingHelper
         App.generateCount App.fields]; repeat split.
Qed.

(** X19.  Opening the grouping helper on an [enum] field and applying the
    rule keeps the values of the field: the helper shows them joined by a
    comma and a space, and reads that text back into the same list, as long
    as no value is empty, starts or ends with white space, or contains a
    separator of the helper: a comma, a line feed, or the full-width comma,
    which no value of the model holds, its code units being below 256.  The
    field gets the rule of the helper and keeps its key, type and
    strategy. *)
Theorem helper_keeps_enum_values (host_string : jsval -> string)
    (parsed : option jsval) (st : App.State) (j : nat) (field : FieldConfig)
    (v : string) (vs : list string) :
  NoDup (map key (App.fields st)) ->
  App.fields st !! j = Some field ->
  key field <> "" ->
  strategy field = ENUM ->
  options field ≫= FieldOptions.values = Some (v :: vs) ->
  Forall shown_as_typed (v :: vs) ->
  exists st1 st2 field',
    App.handleGroupFieldChange host_string parsed (key field) st = Ok st1
    /\ App.applyGroupingRule st1 = Ok st2
    /\ App.fields st2 !! j = Some field'
    /\ key field' = key field /\ type field' = type field
    /\ strategy field' = strategy field
    /\ FieldOptions.values (options_or_empty field') = Some (v :: vs)
    /\ FieldOptions.groupingConfig (options_or_empty field') = Some (App.rule st).
Proof.
  intros Hnd Hj Hne Henum Hvalues Hclean.
  unfold App.handleGroupFieldChange.
  replace (String.eqb (key field) "") with false
    by (symmetry; now apply String.eqb_neq).
  rewrite (find_field_unique (App.fields st) j field Hnd Hj).
  unfold App.proposed_values. rewrite Henum, Hvalues.
  set (st1 := App.with_group st (key field)
                (Some (App.text_of (App.join ", " (v :: vs))))).
  destruct (applyGroupingRule_field st1 j field (v :: vs) Hnd Hj eq_refl Hne
              (parse_join (v :: vs) Hclean))
    as (st2 & Happly & _ & _ & Hfields).
  exists st1, st2. eexists. split; [reflexivity |]. split; [exact Happly |].
  rewrite Hfields. split.
  - apply list_lookup_insert_eq. now apply (lookup_lt_Some _ _ field).
  - cbn [key type strategy options_or_empty options App.with_grouping
         FieldOptions.values FieldOptions.groupingConfig].
    split; [reflexivity |]. split; [reflexivity |]. split; [exact Henum |].
    split; reflexivity.
Qed.

Lemma helper_keeps_enum_values_witness :
  exists st1 st2 field',
    App.handleGroupFieldChange (fun _ => "") None (key Session.roles) Session.editing
    = Ok st1
    /\ App.applyGroupingRule st1 = Ok st2
    /\ App.fields st2 !! 1%nat = Some field'
    /\ key field' = key Session.roles /\ type field' = type Session.roles
    /\ strategy field' = strategy Session.roles
    /\ FieldOptions.values (options_or_empty field') = Some ["admin"; "guest"]
    /\ FieldOptions.groupingConfig (options_or_empty field')
       = Some (App.rule Session.editing).
Proof.
  apply (helper_keeps_enum_values (fun _ => "") None Session.editing 1 Session.roles
           "admin" ["guest"]); try reflexivity; try discriminate.
  - apply NoDup_cons. split; [| apply NoDup_singleton].
    intros H. apply list_elem_of_In in H. destruct H as [H | []]. discriminate H.
  - repeat constructor; discriminate.
Defined.



(** ** Keys that collide *)





(** ** The cached program and the schema *)

Lemma handleFieldChange_step (index : nat) (f : FieldConfig) (st st' : App.State) :
  App.handleFieldChange index f st = Ok st' ->
  exists old,
    App.fields st !! index = Some old
    /\ App.fields st' = <[index := f]> (App.fields st)
    /\ App.isLocalMode st' = App.isLocalMode st
    /\ App.generatedCode st'
       = (if negb (App.isLocalMode st) && isStructuralChange old f
          then "" else App.generatedCode st).
Proof.
  unfold App.handleFieldChange.
  destruct (App.fields st !! index) as [old |]; [| discriminate].
  intros H. injection H as <-. exists old. repeat split.
Qed.

(** X22.  In the delegated mode, the program that is still cached after any
    sequence of field changes is the one that was cached before them, and
    the schema has not changed structurally since: position by position,
    the current field is a parameter edit of the one the sequence started
    from. *)
Theorem cached_program_fits_schema (edits : list (nat * FieldConfig))
    (st st' : App.State) :
  App.isLocalMode st = false ->
  field_changes edits st = Ok st' ->
  App.generatedCode st' <> "" ->
  App.generatedCode st' = App.generatedCode st
  /\ Forall2 (fun f f' => isStructuralChange f f' = false)
             (App.fields st) (App.fields st').
Proof.
  revert st. induction edits as [| [index f] edits IH]; intros st Hmode Hrun Hcode.
  - injection Hrun as <-. split; [reflexivity |].
    apply Forall_Forall2_diag, Forall_forall. intros x _.
    now apply isStructuralChange_false.
  - cbn [field_changes] in Hrun.
    destruct (App.handleFieldChange index f st) as [st1 | |] eqn:Hstep;
      cbn [bind] in Hrun; try discriminate Hrun.
    apply handleFieldChange_step in Hstep as (old & Hold & Hfields & Hmode1 & Hcode1).
    rewrite Hmode in Hmode1, Hcode1. cbn [negb andb] in Hcode1.
    destruct (IH st1 Hmode1 Hrun Hcode) as [Hsame Hrel].
    destruct (isStructuralChange old f) eqn:Hstruct.
    + rewrite Hcode1 in Hsame. contradiction.
    + split; [congruence |].
      apply Forall2_same_length_lookup in Hrel as [Hlen Hrel].
      rewrite Hfields, length_insert in Hlen.
      apply Forall2_same_length_lookup_2; [exact Hlen |].
      intros i x z Hx Hz.
      destruct (lookup_lt_is_Some_2 (App.fields st1) i) as [y Hy].
      { rewrite Hfields, length_insert. now apply (lookup_lt_Some _ _ x). }
      specialize (Hrel i y z Hy Hz).
      assert (Hxy : isStructuralChange x y = false).
      { rewrite Hfields in Hy.
        destruct (decide (index = i)) as [<- | Hne].
        - rewrite list_lookup_insert_eq in Hy by now apply (lookup_lt_Some _ _ old).
          injection Hy as <-. congruence.
        - rewrite list_lookup_insert_ne in Hy by exact Hne.
          assert (x = y) by congruence. subst y. now apply isStructuralChange_false. }
      apply isStructuralChange_false in Hxy as (? & ? & ? & ?).
      apply isStructuralChange_false in Hrel as (? & ? & ? & ?).
      apply isStructuralChange_false. repeat split; congruence.
Qed.

Lemma cached_program_fits_schema_witness :
  App.generatedCode
    (App.with_fields Session.editing
       [Sample.serial;
        SchemaRow.handleOptionChange Session.roles (SchemaRow.set_values ["a"; "b"])]
       (App.generatedCode Session.editing))
  = App.generatedCode Session.editing
  /\ Forall2 (fun f f' => isStructuralChange f f' = false)
             (App.fields Session.editing)
             (App.fields
                (App.with_fields Session.editing
                   [Sample.serial;
                    SchemaRow.handleOptionChange Session.roles
                      (SchemaRow.set_values ["a"; "b"])]
                   (App.generatedCode Session.editing))).
Proof.
  apply (cached_program_fits_schema
           [(1%nat, SchemaRow.handleOptionChange Session.roles
                      (SchemaRow.set_values ["a"; "b"]))]
           Session.editing);
    [reflexivity | reflexivity | discriminate].
Defined.

(** ** The rows have the shape of the sample *)

Lemma combine_app_l {A B : Type} (l1 l2 : list A) (vals : list B) :
  (length l1 <= length vals)%nat ->
  combine (l1 ++ l2) vals = combine l1 vals ++ combine l2 (drop (length l1) vals).
Proof.
  revert vals. induction l1 as [| a l1 IH]; intros vals Hlen; [reflexivity |].
  destruct vals as [| v vals]; [cbn [length] in Hlen; lia |].
  cbn [app combine length drop]. f_equal. apply IH. cbn [length] in Hlen. lia.
Qed.

Lemma combine_map_l {A B C : Type} (f : A -> C) (l : list A) (vals : list B) :
  combine (map f l) vals = map (fun av => (f (fst av), snd av)) (combine l vals).
Proof.
  revert vals. induction l as [| a l IH]; intros [| v vals]; try reflexivity.
  cbn [map combine fst snd]. now rewrite IH.
Qed.

Lemma leaf_is_sound v : is_object v = false -> sound v = true.
Proof. now destruct v. Qed.

Lemma refilled_below_of (c : jsval) : refilled c -> refilled_below c.
Proof.
  intros Hc Hsound k vals Hlen Hvals. unfold refill_below, leaves_below in *.
  destruct (is_object c) eqn:Hobj.
  - rewrite length_map in Hlen.
    destruct (Hc Hsound Hobj vals Hlen Hvals) as (H1 & H2 & H3 & H4 & H5).
    cbv zeta. rewrite H2. repeat split; try assumption.
    + rewrite H4.
      replace (map fst (map (fun qv : list string * jsval => (k :: fst qv, snd qv))
                            (leaves c)))
        with (map (cons k) (paths c)).
      2: { unfold paths. now rewrite !map_map. }
      now rewrite combine_map_l.
    + now rewrite length_map.
  - destruct vals as [| v vals]; [cbn [length] in Hlen; lia |].
    apply Forall_cons in Hvals as [Hv _]. cbn [fst snd].
    rewrite Hv. repeat split.
    + now apply leaf_is_sound.
    + destruct v, c; try discriminate; reflexivity.
Qed.

Lemma refill_props (props : list (string * jsval)) :
  Forall (fun kv => refilled_below (snd kv)) props ->
  forallb (fun kv => plain_key (fst kv) && sound (snd kv)) props = true ->
  forall (acc : list (string * jsval)) vals,
    (length (flat_map (fun kv => leaves_below leaves (fst kv) (snd kv)) props)
     <= length vals)%nat ->
    Forall (fun v => is_object v = false) vals ->
    let st := fold_left (refill_step refill) props (acc, vals) in
    exists props' : list (string * jsval),
      fst st = acc ++ props'
      /\ map fst props' = map fst props
      /\ forallb (fun kv => plain_key (fst kv) && sound (snd kv)) props' = true
      /\ flat_map (fun kv => leaves_below leaves (fst kv) (snd kv)) props'
         = combine (map fst (flat_map (fun kv => leaves_below leaves (fst kv) (snd kv))
                                      props)) vals
      /\ snd st
         = drop (length (flat_map (fun kv => leaves_below leaves (fst kv) (snd kv))
                                  props)) vals.
Proof.
  induction props as [| [k c] props IH]; intros Hrec Hall acc vals Hlen Hvals.
  - exists []. cbn [fold_left fst snd flat_map map combine length drop].
    rewrite app_nil_r. repeat split.
  - apply Forall_cons in Hrec as [Hc Hrec]. cbn [fst snd] in Hc.
    cbn [forallb fst snd] in Hall. apply andb_prop in Hall as [Hkc Hall].
    apply andb_prop in Hkc as [Hplain Hsound].
    cbn [flat_map fst snd] in Hlen |- *. rewrite length_app in Hlen.
    destruct (Hc Hsound k vals ltac:(lia) Hvals) as (H1 & H2 & H3 & H4 & H5).
    cbn [fold_left]. unfold refill_step at 2. cbn [fst snd].
    set (c' := fst (refill_below refill c vals)) in *.
    set (n := length (leaves_below leaves k c)) in *.
    destruct (IH Hrec Hall (acc ++ [(k, c')]) (snd (refill_below refill c vals)))
      as (props' & Hfst & Hkeys & Hall' & Hleaves & Hrest).
    { rewrite H5, length_drop. lia. }
    { rewrite H5. now apply Forall_drop. }
    exists ((k, c') :: props'). cbv zeta in *. split; [| split; [| split; [| split]]].
    + etransitivity; [exact Hfst |]. now rewrite <- app_assoc.
    + cbn [map fst]. now rewrite Hkeys.
    + cbn [forallb fst snd]. now rewrite Hplain, H1, Hall'.
    + cbn [flat_map fst snd]. rewrite H4, Hleaves, H5, map_app.
      rewrite combine_app_l by (rewrite length_map; fold n; lia).
      now rewrite length_map.
    + etransitivity; [exact Hrest |]. rewrite H5, drop_drop, length_app. reflexivity.
Qed.

Lemma refill_all (c : jsval) : refilled c.
Proof.
  induction c as [| | b | n | s | elems IH | props IH] using jsval_ind;
    try (intros _ Hobj; discriminate Hobj).
  - intros Hsound _ vals Hlen Hvals.
    destruct elems as [| e [|]]; try discriminate Hsound.
    apply Forall_cons in IH as [He _]. cbn [sound] in Hsound.
    cbn [leaves] in Hlen.
    destruct (refilled_below_of e He Hsound "0" vals Hlen Hvals)
      as (H1 & H2 & H3 & H4 & H5).
    cbn [refill fst snd]. cbv zeta. cbn [sound is_object isArray leaves paths].
    unfold paths. cbn [leaves]. repeat split; assumption.
  - intros Hsound _ vals Hlen Hvals. cbn [sound] in Hsound.
    apply andb_prop in Hsound as [Hsound Hall].
    apply andb_prop in Hsound as [Hne Hdist].
    cbn [leaves] in Hlen.
    assert (Hrec : Forall (fun kv => refilled_below (snd kv)) props).
    { apply Forall_forall. intros kv Hkv. apply refilled_below_of.
      rewrite List.Forall_forall in IH. apply IH. now apply list_elem_of_In. }
    destruct (refill_props props Hrec Hall [] vals Hlen Hvals)
      as (props' & Hfst & Hkeys & Hall' & Hleaves & Hrest).
    cbv zeta in *. cbn [app] in Hfst.
    cbn [refill fst snd]. rewrite Hfst, Hrest.
    unfold paths. cbn [sound is_object isArray leaves].
    rewrite Hkeys, Hdist, Hall', Hleaves.
    repeat split.
    destruct props, props'; try discriminate Hkeys; try discriminate Hne; reflexivity.
Qed.

(** The round trip of a record, from its flat form. *)
Lemma roundtrip_record (x : jsval) :
  roundtrippable x = true -> unflatten (flattenObject x "") = Ok x.
Proof.
  intros Hx. destruct (flatten_roundtrippable x Hx) as [Hflat Hseg].
  unfold unflatten. rewrite unflatten_into_split, Hflat.
  rewrite (split_keyed _ Hseg (leaves_nonempty x)).
  destruct x as [| | | | | | props]; try discriminate Hx.
  cbn [roundtrippable] in Hx. apply andb_prop in Hx as [Hdist Hall].
  cbn [leaves]. apply (rebuild_properties props []); try assumption.
  apply Forall_forall. intros kv _. apply rebuild_all.
Qed.

Lemma refill_record (x : jsval) (vals : list jsval) :
  roundtrippable x = true ->
  length vals = length (flattenObject x "") ->
  Forall (fun v => is_object v = false) vals ->
  roundtrippable (fst (refill x vals)) = true
  /\ flattenObject (fst (refill x vals)) ""
     = combine (map fst (flattenObject x "")) vals.
Proof.
  intros Hx Hlen Hvals. destruct (flatten_roundtrippable x Hx) as [Hflat _].
  rewrite Hflat in Hlen |- *. rewrite length_map in Hlen.
  destruct x as [| | | | | | props]; try discriminate Hx.
  pose proof Hx as Hx0.
  cbn [roundtrippable] in Hx. apply andb_prop in Hx as [Hdist Hall].
  cbn [leaves] in Hlen |- *.
  assert (Hrec : Forall (fun kv => refilled_below (snd kv)) props).
  { apply Forall_forall. intros kv _. apply refilled_below_of, refill_all. }
  destruct (refill_props props Hrec Hall [] vals ltac:(lia) Hvals)
    as (props' & Hfst & Hkeys & Hall' & Hleaves & _).
  cbv zeta in Hfst. cbn [app] in Hfst. cbn [refill fst]. rewrite Hfst.
  assert (Hy : roundtrippable (JObj props') = true).
  { cbn [roundtrippable]. now rewrite Hkeys, Hdist, Hall'. }
  split; [exact Hy |].
  destruct (flatten_roundtrippable (JObj props') Hy) as [-> _].
  cbn [leaves]. rewrite Hleaves.
  set (L := flat_map (fun kv => leaves_below leaves (fst kv) (snd kv)) props).
  replace (map fst (map (keyed "") L)) with (map (join_path "") (map fst L)).
  2: { rewrite !map_map. reflexivity. }
  rewrite (combine_map_l (join_path "") (map fst L) vals). reflexivity.
Qed.

Lemma flat_keys_storable (x : jsval) :
  roundtrippable x = true ->
  Forall storable (map fst (flattenObject x "")).
Proof.
  intros Hx. destruct (flatten_roundtrippable x Hx) as [-> _].
  destruct x as [| | | | | | props]; try discriminate Hx.
  cbn [roundtrippable] in Hx. apply andb_prop in Hx as [_ Hall].
  rewrite map_map. apply Forall_forall. intros K HK.
  apply list_elem_of_fmap in HK as ([q v] & -> & Hin). cbn [keyed fst snd].
  cbn [leaves] in Hin. apply list_elem_of_In, in_flat_map in Hin as ([k c] & Hkc & Hin).
  rewrite forallb_forall in Hall. specialize (Hall _ Hkc). cbn [fst snd] in Hall, Hin.
  apply andb_prop in Hall as [Hplain Hsound].
  apply list_elem_of_In in Hin.
  destruct (leaves_below_shape k c (q, v) (leaves_segments c Hsound) Hin)
    as (q' & Hq & Hseg).
  cbn [fst] in Hq. subst q. destruct q' as [| k2 q'].
  - cbn [join_path fold_left newKey].
    destruct (plain_key_facts k Hplain) as (_ & _ & _ & Hidx & Hproto). now split.
  - apply join_path_storable.
    + cbn [forallb] in Hseg |- *. now rewrite (plain_segment k Hplain).
    + right. cbn [length]. lia.
Qed.

Lemma flat_row_fresh (fs : list FieldConfig) : forall (vals : list jsval) (acc : Obj.t),
  NoDup (map fst acc ++ map key fs) ->
  Forall storable (map key fs) ->
  fold_left (fun flatRow fv => Obj.set flatRow (key (fst fv)) (snd fv))
            (combine fs vals) acc
  = acc ++ combine (map key fs) vals.
Proof.
  induction fs as [| f fs IH]; intros vals acc Hnd Hst.
  - cbn. now rewrite app_nil_r.
  - destruct vals as [| v vals]; [cbn; now rewrite app_nil_r |].
    cbn [map] in Hnd, Hst. apply Forall_cons in Hst as [Hf Hst].
    cbn [combine fold_left fst snd map].
    assert (Hown : Obj.own acc (key f) = None).
    { apply own_none_of_not_in. apply NoDup_app in Hnd as (_ & Hdisj & _).
      intros Hin. apply (Hdisj _ Hin). left. }
    rewrite (set_fresh acc (key f) v Hown Hf), IH; [now rewrite <- app_assoc | | exact Hst].
    rewrite map_app. cbn [map fst]. rewrite <- app_assoc. exact Hnd.
Qed.

Lemma combine_lookup {A B : Type} (l : list A) (k : list B) (j : nat) a b :
  l !! j = Some a -> k !! j = Some b -> combine l k !! j = Some (a, b).
Proof.
  revert k j. induction l as [| x l IH]; intros [| y k] [| j] Ha Hb;
    try discriminate; cbn in *.
  - congruence.
  - now apply IH.
Qed.

Lemma enforce_type_leaf (field : FieldConfig) (val : jsval) :
  is_object val = false -> is_object (enforce_type field val) = false.
Proof.
  intros Hval. unfold enforce_type.
  destruct (strategy field); try exact Hval.
  destruct val as [| | b | n | s | |]; try discriminate Hval; try reflexivity;
    destruct (type field); try reflexivity.
  - cbn [ToNumber]. now destruct (isNaN n).
  - cbn [ToNumber]. now destruct (isNaN (StringToNumber s)).
  - destruct s as [| c s]; [reflexivity |].
    repeat match goal with
           | |- context [match ?a with _ => _ end] =>
               match type of a with
               | ascii => destruct a
               | bool => destruct a
               | string => destruct a
               end
           end; reflexivity.
Qed.

Section ShapeOfRows.
Variable random_index : nat -> nat -> nat.
Variable ambient : nat -> nat -> jsval.

(** The generators that only draw return numbers and texts. *)
Hypothesis ambient_leaf : forall i j, is_object (ambient i j) = false.

Lemma element_at_leaf (values : list string) (idx : Z) :
  is_object (element_at values idx) = false.
Proof.
  unfold element_at. destruct (idx <? 0); [reflexivity |].
  now destruct (values !! Z.to_nat idx).
Qed.

Lemma generate_field_leaf count fields i j field run :
  match options field ≫= FieldOptions.staticValue with
  | Some v => is_object v = false
  | None => True
  end ->
  is_object (fst (generate_field random_index ambient count fields i j field run))
  = false.
Proof.
  intros Hstatic. unfold generate_field.
  assert (Hsv : FieldOptions.staticValue (options_or_empty field)
                = options field ≫= FieldOptions.staticValue).
  { unfold options_or_empty. now destruct (options field). }
  destruct (FieldOptions.groupingConfig (options_or_empty field)).
  - cbn [fst]. apply enforce_type_leaf, element_at_leaf.
  - destruct (generator random_index ambient (strategy field) i j (state run) (key field)
                (options_or_empty field)) as [val st] eqn:Hgen.
    cbn [fst]. apply enforce_type_leaf.
    unfold generator in Hgen.
    destruct (strategy field);
      try (injection Hgen as <- _; first [reflexivity | apply ambient_leaf]).
    + destruct (FieldOptions.values (options_or_empty field)) as [[| v vs] |];
        injection Hgen as <- _; try reflexivity. apply element_at_leaf.
    + injection Hgen as <- _. rewrite Hsv.
      now destruct (options field ≫= FieldOptions.staticValue).
Qed.

Lemma generate_fields_leaves count fields i rest : forall j run,
  Forall (fun f => match options f ≫= FieldOptions.staticValue with
                   | Some v => is_object v = false
                   | None => True
                   end) rest ->
  Forall (fun v => is_object v = false)
         (fst (generate_fields random_index ambient count fields i j rest run)).
Proof.
  induction rest as [| f rest IH]; intros j run Hrest; [constructor |].
  apply Forall_cons in Hrest as [Hf Hrest].
  rewrite generate_fields_cons. cbn [fst]. constructor.
  - now apply generate_field_leaf.
  - now apply IH.
Qed.

Lemma modelled_statics fields :
  modelled fields = true ->
  Forall (fun f => match options f ≫= FieldOptions.staticValue with
                   | Some v => is_object v = false
                   | None => True
                   end) fields.
Proof.
  unfold modelled. rewrite forallb_forall. intros Hall.
  apply Forall_forall. intros f Hf. apply list_elem_of_In in Hf.
  specialize (Hall f Hf). apply andb_prop in Hall as [_ Hall].
  destruct (options f ≫= FieldOptions.staticValue); [| exact I].
  now apply negb_true_iff in Hall.
Qed.

(** The rows of a run over the keys of a record that survives the round
    trip: the record, refilled with the values of each row. *)
Lemma rows_from_refilled (x : jsval) count fields n : forall i run,
  roundtrippable x = true ->
  modelled fields = true ->
  existsb generator_throws fields = false ->
  map key fields = map fst (flattenObject x "") ->
  rows_from random_index ambient count fields i n run
  = Ok (map (fun vals => fst (refill x vals))
            (fst (generate_rows random_index ambient count fields i n run))).
Proof.
  induction n as [| n IH]; intros i run Hx Hmod Hgen Hkeys; [reflexivity |].
  rewrite generate_rows_succ. cbn [rows_from fst map]. rewrite Hgen.
  pose proof (generate_fields_length random_index ambient count fields i fields 0 run)
    as Hlen.
  pose proof (generate_fields_leaves count fields i fields 0 run
                (modelled_statics fields Hmod)) as Hleaves.
  destruct (generate_fields random_index ambient count fields i 0 fields run)
    as [vals run1].
  cbn [fst snd] in *.
  assert (Hcount : length vals = length (flattenObject x "")).
  { rewrite Hlen, <- (length_map key), Hkeys. apply length_map. }
  destruct (refill_record x vals Hx Hcount Hleaves) as [Hy Hflat].
  assert (Hrow : flat_row fields vals = flattenObject (fst (refill x vals)) "").
  { rewrite Hflat, <- Hkeys. unfold flat_row.
    rewrite (flat_row_fresh fields vals []); [reflexivity | |].
    - cbn [map app]. rewrite Hkeys. apply flatten_keys_nodup.
    - rewrite Hkeys. now apply flat_keys_storable. }
  rewrite Hrow, (roundtrip_record _ Hy). cbn [bind].
  now rewrite (IH (S i) run1 Hx Hmod Hgen Hkeys).
Qed.

(** The rows of a run over the flat keys of a record that survives the
    round trip. *)
Lemma rows_of_a_shape (x : jsval) (count : nat)
    (fields : list FieldConfig) :
  roundtrippable x = true ->
  modelled fields = true ->
  existsb generator_throws fields = false ->
  map key fields = map fst (flattenObject x "") ->
  exists rows,
    generateLocalData random_index ambient count fields = Ok rows
    /\ length rows = count
    /\ forall i row, rows !! i = Some row ->
         length (flattenObject row "") = length fields
         /\ forall j f, fields !! j = Some f ->
              exists v,
                generated random_index ambient count fields i j = Some v
                /\ flattenObject row "" !! j = Some (key f, v).
Proof.
  intros Hx Hmod Hgen Hkeys. unfold generateLocalData. rewrite Hmod.
  rewrite (rows_from_refilled x count fields count 0 _ Hx Hmod Hgen Hkeys).
  eexists. split; [reflexivity |]. split.
  { rewrite length_map. apply generate_rows_length. }
  intros i row Hrow. apply list_lookup_fmap_Some in Hrow as (vals & -> & Hvals).
  assert (Hi : (i < count)%nat).
  { apply lookup_lt_Some in Hvals. now rewrite generate_rows_length in Hvals. }
  rewrite (generated_row random_index ambient count fields i Hi) in Hvals.
  injection Hvals as <-.
  set (run := run_before_row random_index ambient count fields i).
  pose proof (generate_fields_length random_index ambient count fields i fields 0 run)
    as Hlen.
  pose proof (generate_fields_leaves count fields i fields 0 run
                (modelled_statics fields Hmod)) as Hleaves.
  set (vals := fst (generate_fields random_index ambient count fields i 0 fields run)) in *.
  assert (Hcount : length vals = length (flattenObject x "")).
  { rewrite Hlen, <- (length_map key), Hkeys. apply length_map. }
  destruct (refill_record x vals Hx Hcount Hleaves) as [_ ->].
  rewrite <- Hkeys. split.
  { rewrite length_combine, length_map. lia. }
  intros j f Hf.
  destruct (lookup_lt_is_Some_2 vals j) as [v Hv].
  { rewrite Hlen. now apply (lookup_lt_Some _ _ f). }
  exists v. split.
  - unfold generated.
    rewrite (generated_row random_index ambient count fields i Hi).
    cbn [mbind option_bind]. exact Hv.
  - apply combine_lookup; [| exact Hv]. now rewrite list_lookup_fmap, Hf.
Qed.

(** X23.  The rows keep the shape of the sample.  For a record [x] that
    survives the round trip and a field list whose keys are the flat keys
    of [x], in order (the fields local analysis returns for [x], whatever
    their strategies and options have been set to since), as long as the
    static values are scalars and no [random_float] field that reaches its
    generator has a precision [toFixed] refuses: [generateLocalData]
    returns, with as many rows as asked, and flattening a row gives back,
    position by position, the key of each field with the value generated
    for that field in that row. *)
Theorem rows_keep_the_shape_of_the_sample (x : jsval) (count : nat)
    (fields : list FieldConfig) :
  roundtrippable x = true ->
  modelled fields = true ->
  existsb generator_throws fields = false ->
  map key fields = map fst (flattenObject x "") ->
  exists rows,
    generateLocalData random_index ambient count fields = Ok rows
    /\ length rows = count
    /\ forall i row, rows !! i = Some row ->
         length (flattenObject row "") = length fields
         /\ forall j f, fields !! j = Some f ->
              exists v,
                generated random_index ambient count fields i j = Some v
                /\ flattenObject row "" !! j = Some (key f, v).
Proof. apply rows_of_a_shape. Qed.
End ShapeOfRows.

Lemma rows_keep_the_shape_of_the_sample_witness :
  exists rows,
    generateLocalData Sample.no_draw Sample.no_ambient 3
      (fields (analyzeJsonStructureLocal (fun _ => false) (fun _ => "") Nested.record))
    = Ok rows
    /\ length rows = 3%nat
    /\ forall i row, rows !! i = Some row ->
         length (flattenObject row "")
         = length (fields (analyzeJsonStructureLocal (fun _ => false) (fun _ => "")
                             Nested.record))
         /\ forall j f,
              fields (analyzeJsonStructureLocal (fun _ => false) (fun _ => "")
                        Nested.record) !! j = Some f ->
              exists v,
                generated Sample.no_draw Sample.no_ambient 3
                  (fields (analyzeJsonStructureLocal (fun _ => false) (fun _ => "")
                             Nested.record)) i j = Some v
                /\ flattenObject row "" !! j = Some (key f, v).
Proof.
  apply (rows_keep_the_shape_of_the_sample Sample.no_draw Sample.no_ambient
           (fun _ _ => eq_refl) Nested.record 3);
    reflexivity.
Defined.

(** ** From the sample to the rows: identifiers *)

Section InferredCounters.
Variable random_index : nat -> nat -> nat.
Variable ambient : nat -> nat -> jsval.

(** The counter of an increment field no grouping field resets. *)
Lemma plain_counter (count : nat) (fields : list FieldConfig) (p : nat)
    (F : FieldConfig) (o : FieldOptions.t) (s k : Z) (i : nat) :
  NoDup (map key fields) ->
  fields !! p = Some F ->
  strategy F = INCREMENT ->
  options F = Some o ->
  FieldOptions.start o = Some (Int s) ->
  FieldOptions.step o = Some (Int k) ->
  k <> 0 ->
  FieldOptions.groupingConfig o = None ->
  targeted_by_reset fields (key F) = false ->
  (i < count)%nat ->
  (forall t, (t <= i)%nat -> Z.abs (s + Z.of_nat t * k) <= 2 ^ 53) ->
  generated random_index ambient count fields i p
  = Some (JNum (Int (s + Z.of_nat i * k))).
Proof.
  intros Hnd Hp Hinc Ho Hstart Hstep Hk Hg Hreset Hi Hexact.
  assert (Hopts : options_or_empty F = o) by (unfold options_or_empty; now rewrite Ho).
  assert (Hg' : FieldOptions.groupingConfig (options_or_empty F) = None) by now rewrite Hopts.
  assert (Hcfg : configured_start F = Int s).
  { unfold configured_start. rewrite Ho. cbn. now rewrite Hstart. }
  assert (Hor : or_1 (FieldOptions.step (options_or_empty F)) = Int k).
  { rewrite Hopts, Hstep. unfold or_1. rewrite truthy_Int.
    destruct (k =? 0) eqn:E; [zify_bool; contradiction | reflexivity]. }
  destruct (other_keys fields p F Hnd Hp) as [Hleft Hright].
  pose proof Hreset as Hparts.
  rewrite <- (take_drop_middle fields p F Hp), targeted_by_reset_app in Hparts.
  apply orb_false_elim in Hparts as [Hr1 Hr2].
  apply targeted_by_reset_tail in Hr2.
  assert (Hcounter : forall i', (i' <= i)%nat ->
             state (run_before_row random_index ambient count fields i') !! key F
             = Some (Int (s + Z.of_nat i' * k))).
  { induction i' as [| i' IH]; intros Hle.
    - unfold run_before_row. cbn [generate_rows snd initial_run state].
      rewrite (initial_state_start fields p F Hnd Hp Hinc), Hcfg.
      do 2 f_equal. lia.
    - rewrite run_before_row_succ.
      destruct (generate_fields_increment random_index ambient count fields i'
                  (take p fields) F (drop (S p) fields) 0 _ _
                  Hleft Hright Hr1 Hr2 Hinc Hg' (IH ltac:(lia))) as [_ H].
      rewrite (take_drop_middle fields p F Hp), Hor in H. rewrite H.
      rewrite add_Int_safe.
      + do 2 f_equal. lia.
      + replace (s + Z.of_nat i' * k + k) with (s + Z.of_nat (S i') * k) by lia.
        apply Hexact. lia. }
  rewrite (generated_field random_index ambient count fields i p F Hi Hp).
  assert (Hhere : state (run_before random_index ambient count fields i p) !! key F
                  = Some (Int (s + Z.of_nat i * k))).
  { unfold run_before. rewrite generate_fields_keeps by assumption.
    apply Hcounter. lia. }
  destruct (generate_field_increment random_index ambient count fields i p F _ _
              Hinc Hg' Hhere) as [-> _].
  reflexivity.
Qed.

Lemma no_reset_without_grouping (fs : list FieldConfig) (k : string) :
  Forall (fun f => hasGroup f = false) fs -> targeted_by_reset fs k = false.
Proof.
  induction fs as [| f fs IH]; intros Hall; [reflexivity |].
  apply Forall_cons in Hall as [Hf Hall].
  cbn [targeted_by_reset existsb]. fold (targeted_by_reset fs k).
  rewrite (IH Hall), orb_false_r.
  unfold hasGroup, options_or_empty in *.
  destruct (options f) as [o |]; [| reflexivity].
  cbn in Hf. now destruct (FieldOptions.groupingConfig o).
Qed.

Lemma analysed_fields_modelled (Date_parse : string -> bool)
    (host_string : jsval -> string) (x : jsval) :
  roundtrippable x = true ->
  modelled (map (fun kv => infer_field Date_parse host_string (fst kv) (snd kv))
                (flattenObject x "")) = true
  /\ existsb generator_throws
       (map (fun kv => infer_field Date_parse host_string (fst kv) (snd kv))
            (flattenObject x "")) = false.
Proof.
  intros Hx. pose proof (flat_keys_storable x Hx) as Hkeys.
  pose proof (proj1 (flattenObject_leaves_and_first x) "") as Hleaves.
  induction (flattenObject x "") as [| [k v] flat IH]; [split; reflexivity |].
  cbn [map] in Hkeys. apply Forall_cons in Hkeys as [[_ Hk] Hkeys].
  apply List.Forall_cons_iff in Hleaves as [Hv Hleaves]. cbn [snd] in Hv.
  destruct (IH Hkeys Hleaves) as [Hmod Hgen].
  cbn [map modelled forallb existsb fst snd]. fold (modelled
    (map (fun kv => infer_field Date_parse host_string (fst kv) (snd kv)) flat)).
  rewrite Hmod, Hgen, andb_true_r, orb_false_r.
  cbn [fst] in Hk.
  change (key (infer_field Date_parse host_string k v)) with k. rewrite Hk.
  cbn [negb andb].
  unfold generator_throws, options_or_empty, infer_field, determineStrategy.
  cbn [options strategy].
  destruct v as [| | bv | n | t | elems | props]; try discriminate Hv;
    cbn; try (split; reflexivity).
  - destruct ((String.eqb (toLowerCase k) "id" || endsWith (toLowerCase k) "_id"
               || endsWith (toLowerCase k) "Id") && isInteger n);
      [| destruct (isInteger n)]; cbn; split; reflexivity.
  - destruct (uuid_test t); [split; reflexivity |].
    destruct (iso_date_test t
              || Date_parse t
                 && (includes (toLowerCase k) "date" || includes (toLowerCase k) "time"
                     || includes (toLowerCase k) "_at")); [split; reflexivity |].
    destruct (includes (toLowerCase k) "email"); [split; reflexivity |].
    destruct (includes (toLowerCase k) "name" || includes (toLowerCase k) "user"
              || includes (toLowerCase k) "author"); [split; reflexivity |].
    destruct (includes (toLowerCase k) "phone" || includes (toLowerCase k) "tel");
      [split; reflexivity |].
    destruct (includes (toLowerCase k) "address" || includes (toLowerCase k) "city"
              || includes (toLowerCase k) "street" || includes (toLowerCase k) "country");
      split; reflexivity.
Qed.

(** The generators that only draw return numbers and texts. *)
Hypothesis ambient_leaf : forall i j, is_object (ambient i j) = false.

(** X24.  Local analysis followed by local generation numbers an identifier
    from the sample upward.  Let the sample be a record [x] that survives
    the round trip, given as the input itself or as the first element of
    the input array, and let the analysis have made an [increment] field
    from the integer [z] it holds.  Then [generateLocalData], run on the
    analysed fields, returns, with as many rows as asked, and flattening
    row [i] gives, at the position of the field, its key with the number
    [z + i], the value generated for it; this as long as the sums stay
    within the integers a double holds exactly. *)
Theorem inferred_id_counts_from_sample (Date_parse : string -> bool)
    (host_string : jsval -> string) (x parsed : jsval) (count p : nat)
    (F : FieldConfig) (z : Z) :
  roundtrippable x = true ->
  parsed = x \/ (exists more, parsed = JArr (x :: more)) ->
  fields (analyzeJsonStructureLocal Date_parse host_string parsed) !! p = Some F ->
  strategy F = INCREMENT ->
  sampleValue F = Some (JNum (Int z)) ->
  Z.abs z <= 2 ^ 53 ->
  Z.abs (z + Z.of_nat count) <= 2 ^ 53 ->
  exists rows,
    generateLocalData random_index ambient count
      (fields (analyzeJsonStructureLocal Date_parse host_string parsed)) = Ok rows
    /\ length rows = count
    /\ forall i row, rows !! i = Some row ->
         generated random_index ambient count
           (fields (analyzeJsonStructureLocal Date_parse host_string parsed)) i p
         = Some (JNum (Int (z + Z.of_nat i)))
         /\ flattenObject row "" !! p = Some (key F, JNum (Int (z + Z.of_nat i))).
Proof.
  intros Hx Hparsed Hp Hinc Hsample Hz Hzc.
  set (fs := fields (analyzeJsonStructureLocal Date_parse host_string parsed)) in *.
  assert (Hfs : fs = map (fun kv => infer_field Date_parse host_string (fst kv) (snd kv))
                         (flattenObject x "")).
  { unfold fs, analyzeJsonStructureLocal. cbn [fields].
    destruct Hparsed as [-> | [more ->]]; [| reflexivity].
    destruct x; try discriminate Hx. reflexivity. }
  assert (Hkeys : map key fs = map fst (flattenObject x "")).
  { rewrite Hfs, map_map. reflexivity. }
  assert (Hnd : NoDup (map key fs)).
  { rewrite Hkeys. apply flatten_keys_nodup. }
  destruct (analysed_fields_modelled Date_parse host_string x Hx) as [Hmod Hgen].
  rewrite <- Hfs in Hmod, Hgen.
  assert (Hplain : Forall (fun f => hasGroup f = false) fs).
  { rewrite Hfs. apply Forall_forall. intros f Hf. apply list_elem_of_In in Hf.
    apply in_map_iff in Hf as ([k v] & <- & Hkv). cbn [fst snd].
    pose proof (proj1 (flattenObject_leaves_and_first x) "") as Hall.
    rewrite List.Forall_forall in Hall.
    exact (proj1 (proj2 (proj2 (infer_field_of_leaf Date_parse host_string k v
                                  (Hall (k, v) Hkv))))). }
  assert (HF : exists o, options F = Some o
                         /\ FieldOptions.start o = Some (Int z)
                         /\ FieldOptions.step o = Some (Int 1)
                         /\ FieldOptions.groupingConfig o = None).
  { assert (HinF : In F fs) by (apply list_elem_of_In; now apply (list_elem_of_lookup_2 fs p)).
    rewrite Hfs in HinF. apply in_map_iff in HinF as ([k v] & <- & _).
    cbn [fst snd] in *. unfold infer_field in Hinc, Hsample |- *.
    cbn [strategy sampleValue options] in *. injection Hsample as ->.
    unfold determineStrategy in *. cbn [Inferred.strategy Inferred.options] in *.
    destruct ((String.eqb (toLowerCase k) "id" || endsWith (toLowerCase k) "_id"
               || endsWith (toLowerCase k) "Id") && isInteger (Int z)).
    - eexists. repeat split.
    - cbn [isInteger] in Hinc. discriminate Hinc. }
  destruct HF as (o & Ho & Hstart & Hstep & Hg).
  destruct (rows_of_a_shape random_index ambient ambient_leaf x count fs
              Hx Hmod Hgen Hkeys) as (rows & Hrows & Hlen & Hshape).
  exists rows. split; [exact Hrows |]. split; [exact Hlen |].
  intros i row Hrow.
  assert (Hi : (i < count)%nat) by (rewrite <- Hlen; now apply (lookup_lt_Some rows i row)).
  assert (Hvalue : generated random_index ambient count fs i p
                   = Some (JNum (Int (z + Z.of_nat i)))).
  { replace (z + Z.of_nat i) with (z + Z.of_nat i * 1) by lia.
    apply (plain_counter count fs p F o z 1 i); try assumption; try lia.
    now apply no_reset_without_grouping. }
  split; [exact Hvalue |].
  destruct (Hshape i row Hrow) as [_ Hfield].
  destruct (Hfield p F Hp) as (v & Hv & Hflat).
  rewrite Hvalue in Hv. injection Hv as <-. exact Hflat.
Qed.
End InferredCounters.

Lemma inferred_id_counts_from_sample_witness :
  exists rows,
    generateLocalData Sample.no_draw Sample.no_ambient 5
      (fields (analyzeJsonStructureLocal (fun _ => false) (fun _ => "")
                 (JArr [Nested.record])))
    = Ok rows
    /\ length rows = 5%nat
    /\ forall i row, rows !! i = Some row ->
         generated Sample.no_draw Sample.no_ambient 5
           (fields (analyzeJsonStructureLocal (fun _ => false) (fun _ => "")
                      (JArr [Nested.record]))) i 0
         = Some (JNum (Int (1 + Z.of_nat i)))
         /\ flattenObject row "" !! 0%nat = Some ("id", JNum (Int (1 + Z.of_nat i))).
Proof.
  apply (inferred_id_counts_from_sample Sample.no_draw Sample.no_ambient
           (fun _ _ => eq_refl) (fun _ => false) (fun _ => "")
           Nested.record (JArr [Nested.record]) 5 0
           (infer_field (fun _ => false) (fun _ => "") "id" (JNum (Int 1))) 1);
    try reflexivity; try lia.
  right. now exists [].
Defined.

(** ** Sample values on a delegated analysis *)

Lemma own_of_nodup (props : Obj.t) k c :
  NoDup (map fst props) -> In (k, c) props -> Obj.own props k = Some c.
Proof.
  induction props as [| [k' c'] props IH]; intros Hd Hin; [destruct Hin |].
  cbn [map fst] in Hd. apply NoDup_cons in Hd as [Hfresh Hd].
  cbn [Obj.own]. destruct Hin as [Heq | Hin].
  - injection Heq as -> ->. now rewrite String.eqb_refl.
  - destruct (String.eqb k' k) eqn:Hk; [| now apply IH].
    apply String.eqb_eq in Hk. subst k'. exfalso. apply Hfresh.
    apply list_elem_of_In, in_map_iff. now exists (k, c).
Qed.

Lemma own_absent (props : Obj.t) k :
  ~ In k (map fst props) -> Obj.own props k = None.
Proof.
  induction props as [| [k' c'] props IH]; intros Hout; [reflexivity |].
  cbn [Obj.own]. destruct (String.eqb k' k) eqn:Hk.
  - apply String.eqb_eq in Hk. subst k'. exfalso. apply Hout. now left.
  - apply IH. intros Hin. apply Hout. now right.
Qed.

Lemma attach_sample_stamps (flattened : Obj.t) (f : FieldConfig) :
  NoDup (map fst flattened) ->
  In (key f) (map fst flattened) \/ Obj.inherited (key f) = false ->
  exists g, attach_sample flattened f = Ok g /\ stamped flattened f g.
Proof.
  intros Hnd Hkey. unfold attach_sample, get_prop.
  destruct (in_dec string_dec (key f) (map fst flattened)) as [Hin | Hout].
  - apply in_map_iff in Hin as ([k v] & Hk & Hin). cbn [fst] in Hk. subst k.
    rewrite (own_of_nodup flattened (key f) v Hnd Hin). cbn.
    destruct v; cbn [is_undefined];
      (eexists; split; [reflexivity |]);
      unfold stamped; (do 5 (split; [reflexivity |]));
      (split;
       [ intros v' Hin' Hv';
         pose proof (own_of_nodup flattened (key f) v' Hnd Hin') as E;
         rewrite (own_of_nodup flattened (key f) _ Hnd Hin) in E;
         injection E as <-; try reflexivity; now contradiction Hv'
       | intros Hout; exfalso; apply Hout, in_map_iff;
         eexists; split; [| exact Hin]; reflexivity ]).
  - destruct Hkey as [Hin | Hplain]; [contradiction |].
    rewrite (own_absent flattened (key f) Hout), Hplain. cbn.
    exists f. split; [reflexivity |].
    unfold stamped. do 5 (split; [reflexivity |]). split; [| reflexivity].
    intros v Hin _. exfalso. apply Hout, in_map_iff. now exists (key f, v).
Qed.

Lemma attach_each_stamps (flattened : Obj.t) (fs : list FieldConfig) :
  NoDup (map fst flattened) ->
  Forall (fun f => In (key f) (map fst flattened) \/ Obj.inherited (key f) = false) fs ->
  exists gs, attach_each flattened fs = Ok gs /\ Forall2 (stamped flattened) fs gs.
Proof.
  intros Hnd. induction fs as [| f fs IH]; intros Hall.
  - exists []. split; [reflexivity | constructor].
  - apply Forall_cons in Hall as [Hf Hall].
    destruct (attach_sample_stamps flattened f Hnd Hf) as (g & Hg & Hst).
    destruct (IH Hall) as (gs & Hgs & Hsts).
    exists (g :: gs). cbn [attach_each]. rewrite Hg, Hgs. split; [reflexivity |].
    now constructor.
Qed.

(** X25.  The fields of a delegated analysis get the sample values of the
    local analysis.  For any parsed input and any returned fields whose keys
    are flat keys of the sample or at least no members of
    [Object.prototype], the post-processing returns as many fields, each
    with its key, type, strategy, options and description as returned; a
    field whose key the local analysis has too holds the same sample value
    as the local field, when that is not [undefined]; a field with any
    other key is untouched. *)
Theorem attached_samples_agree_with_local_analysis (Date_parse : string -> bool)
    (host_string : jsval -> string) (parsed : jsval) (returned : list FieldConfig) :
  Forall (fun f =>
            In (key f)
               (map key (fields (analyzeJsonStructureLocal Date_parse host_string parsed)))
            \/ Obj.inherited (key f) = false) returned ->
  exists out,
    attach_samples (Some parsed) returned = Ok out
    /\ Forall2 (fun f g =>
          key g = key f /\ type g = type f /\ strategy g = strategy f
          /\ options g = options f /\ description g = description f
          /\ (forall l,
                In l (fields (analyzeJsonStructureLocal Date_parse host_string parsed)) ->
                key l = key f -> sampleValue l <> Some JUndefined ->
                sampleValue g = sampleValue l)
          /\ (~ In (key f)
                  (map key (fields (analyzeJsonStructureLocal Date_parse host_string
                                      parsed))) ->
              g = f)) returned out.
Proof.
  unfold analyzeJsonStructureLocal, attach_samples. cbn [fields].
  set (sample := match parsed with
                 | JArr [] => JObj []
                 | JArr (first :: _) => first
                 | _ => parsed
                 end).
  rewrite map_map. cbn [infer_field key].
  change (map (fun x : string * jsval => fst x) (flattenObject sample ""))
    with (map fst (flattenObject sample "")).
  intros Hall.
  destruct (attach_each_stamps (flattenObject sample "") returned
              (flatten_keys_nodup sample "") Hall) as (out & Hout & Hst).
  exists out. split; [exact Hout |].
  eapply Forall2_impl; [exact Hst |].
  intros f g (H1 & H2 & H3 & H4 & H5 & H6 & H7).
  repeat split; try assumption.
  intros l Hl Hkey Hdef.
  apply in_map_iff in Hl as ([k v] & <- & Hin). cbn [fst snd infer_field key sampleValue] in *.
  subst k. apply H6; [exact Hin |]. intros ->. now apply Hdef.
Qed.

Lemma attached_samples_agree_with_local_analysis_witness :
  exists out g1 g2,
    attach_samples (Some (JArr [JObj [("id", JNum (Int 7)); ("tags", JArr [JStr "a"])]]))
      [Sample.field "tags.0" STRING ENUM (Sample.choosing None None None);
       Sample.field "ID" NUMBER INCREMENT (Sample.choosing None None None)]
    = Ok out
    /\ out = [g1; g2]
    /\ key g1 = "tags.0" /\ strategy g1 = ENUM /\ sampleValue g1 = Some (JStr "a")
    /\ g2 = Sample.field "ID" NUMBER INCREMENT (Sample.choosing None None None).
Proof.
  destruct (attached_samples_agree_with_local_analysis (fun _ => false) (fun _ => "")
              (JArr [JObj [("id", JNum (Int 7)); ("tags", JArr [JStr "a"])]])
              [Sample.field "tags.0" STRING ENUM (Sample.choosing None None None);
               Sample.field "ID" NUMBER INCREMENT (Sample.choosing None None None)])
    as (out & Hout & Hst).
  - apply List.Forall_cons; [left; vm_compute; tauto |].
    apply List.Forall_cons; [right; reflexivity | apply List.Forall_nil].
  - apply Forall2_cons_inv_l in Hst as (g1 & out1 & H1 & Hst & ->).
    apply Forall2_cons_inv_l in Hst as (g2 & out2 & H2 & Hst & ->).
    apply Forall2_nil_inv_l in Hst as ->.
    destruct H1 as (Hkey & _ & Hstrategy & _ & _ & Hsample & _).
    destruct H2 as (_ & _ & _ & _ & _ & _ & Hsame).
    exists [g1; g2], g1, g2. split; [exact Hout |]. split; [reflexivity |].
    split; [exact Hkey |]. split; [exact Hstrategy |]. split.
    + apply (Hsample (infer_field (fun _ => false) (fun _ => "") "tags.0" (JStr "a")));
        [vm_compute; tauto | reflexivity | discriminate].
    + apply Hsame. vm_compute. intros [H | [H | []]]; discriminate H.
Defined.

(** ** Generation from the page *)

(** X26.  A program is never requested while some text is cached, also when
    that text is the placeholder of the local engine.  After a local
    generation that returned rows, a switch to the delegated mode and
    a plain call of [handleGenerate] request no program, whatever the
    request would have brought: the executor is given the placeholder text
    as the program, for the same count and fields, and the placeholder stays
    cached. *)
Theorem local_placeholder_runs_as_program (random_index : nat -> nat -> nat)
    (ambient : nat -> nat -> jsval) (host_string : jsval -> string)
    (run_program : string -> nat -> list FieldConfig -> completion)
    (request : list FieldConfig -> string -> string -> res string)
    (inputJson customInstructions : string) (st : App.State) (rows : list jsval) :
  App.isLocalMode st = true ->
  0 <= App.generateCount st ->
  generateLocalData random_index ambient (Z.to_nat (App.generateCount st))
    (App.fields st) = Ok rows ->
  let first := Page.handleGenerate random_index ambient host_string run_program
                 request false inputJson customInstructions st in
  let second := Page.handleGenerate random_index ambient host_string run_program
                  request false inputJson customInstructions
                  (Page.switch_to_delegated true (Page.after first)) in
  Page.data first = Ok (JArr rows)
  /\ Page.asked second = false
  /\ Page.data second
     = executeGeneratedCode host_string run_program Page.local_placeholder
         (Z.to_nat (App.generateCount st)) (App.fields st)
  /\ App.generatedCode (Page.after second) = Page.local_placeholder
  /\ App.fields (Page.after second) = App.fields st.
Proof.
  intros Hmode Hcount Hrows first second.
  assert (Hneg : (App.generateCount st <? 0) = false) by (apply Z.ltb_ge; exact Hcount).
  assert (Hfirst : first
                   = {| Page.after := Page.with_code st Page.local_placeholder;
                        Page.asked := false; Page.data := Ok (JArr rows) |}).
  { unfold first, Page.handleGenerate. now rewrite Hneg, Hmode, Hrows. }
  unfold second. rewrite Hfirst. cbn [Page.after Page.data].
  unfold Page.handleGenerate, Page.switch_to_delegated, Page.with_mode, Page.with_code,
    App.with_fields.
  cbn [App.generateCount App.isLocalMode App.generatedCode App.fields].
  rewrite Hneg.
  change (String.eqb Page.local_placeholder "") with false.
  cbn [orb Page.asked Page.data Page.after App.generatedCode App.fields].
  repeat split.
Qed.

Lemma local_placeholder_runs_as_program_witness :
  Page.data
    (Page.handleGenerate Sample.no_draw Sample.no_ambient (fun _ => "")
       (fun _ _ _ => Raises (error_object "generateData is not defined"))
       (fun _ _ _ => Ok "function generateData(count, fields) { return []; }")
       false "{}" ""
       (Page.switch_to_delegated true
          (Page.after
             (Page.handleGenerate Sample.no_draw Sample.no_ambient (fun _ => "")
                (fun _ _ _ => Raises (error_object "generateData is not defined"))
                (fun _ _ _ => Ok "function generateData(count, fields) { return []; }")
                false "{}" "" (Page.with_mode Session.editing true)))))
  = Throws (Error "Failed to execute generation logic: generateData is not defined").
Proof.
  destruct (local_placeholder_runs_as_program Sample.no_draw Sample.no_ambient
              (fun _ => "")
              (fun _ _ _ => Raises (error_object "generateData is not defined"))
              (fun _ _ _ => Ok "function generateData(count, fields) { return []; }")
              "{}" "" (Page.with_mode Session.editing true)
              (match generateLocalData Sample.no_draw Sample.no_ambient 50
                       [Sample.serial; Session.roles] with
               | Ok rows => rows
               | _ => []
               end))
    as (_ & _ & Hdata & _).
  - reflexivity.
  - vm_compute. discriminate.
  - vm_compute. reflexivity.
  - etransitivity; [exact Hdata |]. reflexivity.
Defined.

(** ** Templates *)

(** X27.  A template brings back what was saved.  Saving under a name that
    is not blank appends one template; loading it, into whatever state the
    page is in by then, sets the input, the fields, the instructions and the
    count to what they were at the save.  The cached text comes back
    exactly when the save was made in the delegated mode, whatever that
    text was (the test is on the mode, not on the text); a template saved
    in the local mode brings the empty text.  The mode changes only to the
    delegated one, and only when a text came back and there is a key. *)
Theorem template_restores_the_saved_state (HAS_API_KEY : bool) (uuid : string)
    (now : Z) (ws later : Templates.Workspace) :
  trim (Templates.newTemplateName ws) <> "" ->
  exists t,
    Templates.templates (Templates.handleSaveTemplate uuid now ws)
    = Templates.templates ws ++ [t]
    /\ Templates.id t = uuid
    /\ Templates.name t = Templates.newTemplateName ws
    /\ let back := Templates.handleLoadTemplate HAS_API_KEY t later in
       Templates.input back = Templates.input ws
       /\ Templates.instructions back = Templates.instructions ws
       /\ App.fields (Templates.app back) = App.fields (Templates.app ws)
       /\ App.generateCount (Templates.app back) = App.generateCount (Templates.app ws)
       /\ App.generatedCode (Templates.app back)
          = (if App.isLocalMode (Templates.app ws) then ""
             else App.generatedCode (Templates.app ws))
       /\ App.isLocalMode (Templates.app back)
          = (if HAS_API_KEY
                && negb (String.eqb (App.generatedCode (Templates.app back)) "")
             then false
             else App.isLocalMode (Templates.app later))
       /\ Templates.templates back = Templates.templates later.
Proof.
  intros Hname. unfold Templates.handleSaveTemplate.
  destruct (String.eqb (trim (Templates.newTemplateName ws)) "") eqn:Hblank.
  { apply String.eqb_eq in Hblank. contradiction. }
  eexists. cbn [Templates.templates]. split; [reflexivity |].
  cbn [Templates.id Templates.name]. do 2 (split; [reflexivity |]).
  unfold Templates.handleLoadTemplate.
  cbn [Templates.config Templates.generatedCode Templates.fields Templates.inputJson
       Templates.customInstructions Templates.generateCount Templates.input
       Templates.instructions Templates.app Templates.templates].
  destruct (App.isLocalMode (Templates.app ws)).
  - cbn. rewrite andb_false_r. repeat split.
  - destruct (String.eqb (App.generatedCode (Templates.app ws)) "") eqn:Hcode.
    + apply String.eqb_eq in Hcode. rewrite Hcode. cbn. rewrite andb_false_r.
      repeat split.
    + cbn. rewrite Hcode. cbn. rewrite andb_true_r.
      destruct HAS_API_KEY; repeat split.
Qed.

Lemma template_restores_the_saved_state_witness :
  exists t,
    Templates.templates (Templates.handleSaveTemplate "u-1" 1700000000000 Templates.bench)
    = [t]
    /\ App.generatedCode
         (Templates.app (Templates.handleLoadTemplate true t Templates.desk)) = "".
Proof.
  destruct (template_restores_the_saved_state true "u-1" 1700000000000
              Templates.bench Templates.desk)
    as (t & Hsaved & _ & _ & _ & _ & _ & _ & Hcode & _).
  - vm_compute. discriminate.
  - exists t. split; [exact Hsaved | exact Hcode].
Defined.

(** X28.  A template saved in the local mode starts the delegated mode
    without a program.  When such a template, saved under a name that is
    not blank with a count that is not negative, is loaded into a page in
    the delegated mode, the next plain call of [handleGenerate] requests a
    program, for the fields, the input and the instructions of the
    template; the text the request returns is cached and run for the count
    and the fields of the template. *)
Theorem loaded_local_template_asks_for_a_program (random_index : nat -> nat -> nat)
    (ambient : nat -> nat -> jsval) (host_string : jsval -> string)
    (run_program : string -> nat -> list FieldConfig -> completion)
    (request : list FieldConfig -> string -> string -> res string)
    (HAS_API_KEY : bool) (uuid : string) (now : Z) (ws later : Templates.Workspace) :
  trim (Templates.newTemplateName ws) <> "" ->
  App.isLocalMode (Templates.app ws) = true ->
  App.isLocalMode (Templates.app later) = false ->
  0 <= App.generateCount (Templates.app ws) ->
  exists t,
    last (Templates.templates (Templates.handleSaveTemplate uuid now ws)) = Some t
    /\ let back := Templates.handleLoadTemplate HAS_API_KEY t later in
       let made := Page.handleGenerate random_index ambient host_string run_program
                     request false (Templates.input back) (Templates.instructions back)
                     (Templates.app back) in
       Page.asked made = true
       /\ forall code,
            request (App.fields (Templates.app ws)) (Templates.input ws)
              (Templates.instructions ws) = Ok code ->
            App.generatedCode (Page.after made) = code
            /\ Page.data made
               = executeGeneratedCode host_string run_program code
                   (Z.to_nat (App.generateCount (Templates.app ws)))
                   (App.fields (Templates.app ws)).
Proof.
  intros Hname Hlocal Hlater Hcount. unfold Templates.handleSaveTemplate.
  destruct (String.eqb (trim (Templates.newTemplateName ws)) "") eqn:Hblank.
  { apply String.eqb_eq in Hblank. contradiction. }
  eexists. cbn [Templates.templates]. split; [apply last_snoc |].
  unfold Templates.handleLoadTemplate.
  cbn [Templates.config Templates.generatedCode Templates.fields Templates.inputJson
       Templates.customInstructions Templates.generateCount Templates.input
       Templates.instructions Templates.app Templates.templates].
  rewrite Hlocal. cbn [String.eqb negb]. rewrite Hlater.
  unfold Page.handleGenerate, Templates.loaded.
  cbn [App.generateCount App.isLocalMode App.generatedCode App.fields String.eqb orb].
  assert (Hneg : (App.generateCount (Templates.app ws) <? 0) = false)
    by (apply Z.ltb_ge; exact Hcount).
  rewrite Hneg.
  destruct (request (App.fields (Templates.app ws)) (Templates.input ws)
              (Templates.instructions ws)) as [code | e |]; cbn [Page.asked];
    (split; [reflexivity |]); intros code' Hcode; try discriminate Hcode.
  injection Hcode as <-. split; reflexivity.
Qed.

Lemma loaded_local_template_asks_for_a_program_witness :
  exists t,
    last (Templates.templates
            (Templates.handleSaveTemplate "u-1" 1700000000000 Templates.bench)) = Some t
    /\ Page.asked
         (Page.handleGenerate Sample.no_draw Sample.no_ambient (fun _ => "")
            (fun _ _ _ => Returns (JArr []))
            (fun _ _ _ => Ok "function generateData(count, fields) { return []; }")
            false "{}" ""
            (Templates.app (Templates.handleLoadTemplate true t Templates.desk)))
       = true.
Proof.
  destruct (loaded_local_template_asks_for_a_program Sample.no_draw Sample.no_ambient
              (fun _ => "") (fun _ _ _ => Returns (JArr []))
              (fun _ _ _ => Ok "function generateData(count, fields) { return []; }")
              true "u-1" 1700000000000 Templates.bench Templates.desk)
    as (t & Hlast & Hasked & _).
  - vm_compute. discriminate.
  - reflexivity.
  - reflexivity.
  - vm_compute. discriminate.
  - exists t. split; [exact Hlast |].
    etransitivity; [| exact Hasked]. unfold Templates.handleLoadTemplate.
    reflexivity.
Defined.

(** X30.  A template saved in the delegated mode brings the cached text
    back into the delegated mode, whatever the text is, the placeholder of
    the local engine included.  When a page in the delegated mode with a
    text cached saves a template (name not blank, count not negative) and
    the template is loaded with a key present, the page is in the delegated
    mode with that text cached, and the next plain call of [handleGenerate]
    requests no program: the executor is given that text, for the count and
    the fields of the template. *)
Theorem loaded_delegated_template_runs_the_cached_text
    (random_index : nat -> nat -> nat) (ambient : nat -> nat -> jsval)
    (host_string : jsval -> string)
    (run_program : string -> nat -> list FieldConfig -> completion)
    (request : list FieldConfig -> string -> string -> res string)
    (uuid : string) (now : Z) (ws later : Templates.Workspace) (code : string) :
  trim (Templates.newTemplateName ws) <> "" ->
  App.isLocalMode (Templates.app ws) = false ->
  App.generatedCode (Templates.app ws) = code ->
  code <> "" ->
  0 <= App.generateCount (Templates.app ws) ->
  exists t,
    last (Templates.templates (Templates.handleSaveTemplate uuid now ws)) = Some t
    /\ let back := Templates.handleLoadTemplate true t later in
       let made := Page.handleGenerate random_index ambient host_string run_program
                     request false (Templates.input back) (Templates.instructions back)
                     (Templates.app back) in
       App.isLocalMode (Templates.app back) = false
       /\ App.generatedCode (Templates.app back) = code
       /\ Page.asked made = false
       /\ App.generatedCode (Page.after made) = code
       /\ Page.data made
          = executeGeneratedCode host_string run_program code
              (Z.to_nat (App.generateCount (Templates.app ws)))
              (App.fields (Templates.app ws)).
Proof.
  intros Hname Hmode Hcode Hne Hcount. unfold Templates.handleSaveTemplate.
  destruct (String.eqb (trim (Templates.newTemplateName ws)) "") eqn:Hblank.
  { apply String.eqb_eq in Hblank. contradiction. }
  eexists. cbn [Templates.templates]. split; [apply last_snoc |].
  unfold Templates.handleLoadTemplate.
  cbn [Templates.config Templates.generatedCode Templates.fields Templates.inputJson
       Templates.customInstructions Templates.generateCount Templates.input
       Templates.instructions Templates.app Templates.templates].
  rewrite Hmode, Hcode.
  assert (Hfull : String.eqb code "" = false) by now apply String.eqb_neq.
  rewrite Hfull. cbn [negb].
  unfold Page.handleGenerate, Templates.loaded.
  cbn [App.generateCount App.isLocalMode App.generatedCode App.fields].
  assert (Hneg : (App.generateCount (Templates.app ws) <? 0) = false)
    by (apply Z.ltb_ge; exact Hcount).
  rewrite Hneg, Hfull. cbn [orb Page.asked Page.after Page.data App.generatedCode].
  repeat split.
Qed.

Lemma loaded_delegated_template_runs_the_cached_text_witness :
  exists t,
    last (Templates.templates
            (Templates.handleSaveTemplate "u-1" 1700000000000 Templates.counter)) = Some t
    /\ App.generatedCode
         (Templates.app (Templates.handleLoadTemplate true t Templates.desk))
       = Page.local_placeholder
    /\ Page.data
         (Page.handleGenerate Sample.no_draw Sample.no_ambient (fun _ => "")
            (fun _ _ _ => Raises (error_object "generateData is not defined"))
            (fun _ _ _ => Ok "function generateData(count, fields) { return []; }")
            false "{}" ""
            (Templates.app (Templates.handleLoadTemplate true t Templates.desk)))
       = Throws (Error "Failed to execute generation logic: generateData is not defined").
Proof.
  destruct (loaded_delegated_template_runs_the_cached_text Sample.no_draw
              Sample.no_ambient (fun _ => "")
              (fun _ _ _ => Raises (error_object "generateData is not defined"))
              (fun _ _ _ => Ok "function generateData(count, fields) { return []; }")
              "u-1" 1700000000000 Templates.counter Templates.desk
              Page.local_placeholder)
    as (t & Hlast & _ & Hcode & _ & _ & Hdata).
  - vm_compute. discriminate.
  - reflexivity.
  - reflexivity.
  - vm_compute. discriminate.
  - vm_compute. discriminate.
  - exists t. split; [exact Hlast |]. split; [exact Hcode |].
    etransitivity; [exact Hdata |]. reflexivity.
Defined.

Lemma filter_keeps_all {A : Type} (keep : A -> bool) (l : list A) :
  Forall (fun x => keep x = true) l -> List.filter keep l = l.
Proof.
  induction l as [| x l IH]; intros Hall; [reflexivity |].
  apply Forall_cons in Hall as [Hx Hall].
  cbn [List.filter]. rewrite Hx. now rewrite (IH Hall).
Qed.

(** X29.  Deleting the template just saved leaves the templates there were
    before the save, in their order, when none of them has the identifier
    the save drew. *)
Theorem delete_undoes_save (uuid : string) (now : Z) (ws : Templates.Workspace) :
  Forall (fun t => Templates.id t <> uuid) (Templates.templates ws) ->
  trim (Templates.newTemplateName ws) <> "" ->
  Templates.templates
    (Templates.handleDeleteTemplate uuid (Templates.handleSaveTemplate uuid now ws))
  = Templates.templates ws.
Proof.
  intros Hfresh Hname. unfold Templates.handleSaveTemplate.
  destruct (String.eqb (trim (Templates.newTemplateName ws)) "") eqn:Hblank.
  { apply String.eqb_eq in Hblank. contradiction. }
  unfold Templates.handleDeleteTemplate. cbn [Templates.templates].
  rewrite List.filter_app. cbn [List.filter Templates.id].
  rewrite String.eqb_refl. cbn [negb]. rewrite app_nil_r.
  apply filter_keeps_all. eapply Forall_impl; [exact Hfresh |].
  intros t Ht. cbn beta. destruct (String.eqb (Templates.id t) uuid) eqn:E; [| reflexivity].
  apply String.eqb_eq in E. contradiction.
Qed.

Lemma delete_undoes_save_witness :
  Templates.templates
    (Templates.handleDeleteTemplate "u-2"
       (Templates.handleSaveTemplate "u-2" 1700000000001 Templates.shelf))
  = Templates.templates Templates.shelf.
Proof.
  apply (delete_undoes_save "u-2" 1700000000001 Templates.shelf).
  - apply List.Forall_cons; [vm_compute; discriminate | apply List.Forall_nil].
  - vm_compute. discriminate.
Defined.
